(** * The terminal engine of [terminalEngine.py] and the Tetris game on it

    A shallow embedding of the [TerminalEngine] class: the character grid
    and its drawing primitives, the differential renderer, the key sets
    and their end-of-frame rotation, and the fixed-timestep loop of [run]
    with its [try]/[finally] around the raw-mode session; and of the board
    logic and the drawing calls of [TetrisGame] in [tetris.py].

    Conventions.  A Python [str] is a [string] whose characters are the
    code points below 256; the three box-drawing glyphs of the Tetris
    game, which lie above, are stood for by three characters above 127.
    A Python [int] is a [Z] and a Python [float] a binary64 primitive
    float.  A method of a class is a computation in the state and
    exception monad [M] over the object it mutates.  What the capture
    thread does while the main thread runs is given by the platform, at
    the statement boundaries of the loop of [run]. *)

From Stdlib Require Import ZArith String Ascii List Bool Lia.
From Stdlib Require Import PrimFloat Uint63 SpecFloat FloatOps.
From Stdlib Require Import Decimal DecimalString DecimalNat.
From stdpp Require Import gmap strings list sorting.

(** ** Exceptions and the monad of methods *)

Inductive exn :=
| IndexError
| ValueError
| TypeError
| ZeroDivisionError
| OverflowError
| MemoryError
| TermiosError
| UnicodeEncodeError
| GameError (msg : string).

Inductive result (A : Type) :=
| Ok (a : A)
| Raise (e : exn).
Arguments Ok {A} a.
Arguments Raise {A} e.

(** A method running on a state [S]: it returns or raises, and the state
    it leaves behind is kept in both cases (a [finally] block sees it). *)
Definition M (S A : Type) : Type := S -> result A * S.

#[global] Instance M_ret S : MRet (M S) := fun A a s => (Ok a, s).
#[global] Instance M_bind S : MBind (M S) := fun A B f m s =>
  match m s with
  | (Ok a, s1) => f a s1
  | (Raise e, s1) => (Raise e, s1)
  end.

Definition get {S} : M S S := fun s => (Ok s, s).
Definition put {S} (s : S) : M S unit := fun _ => (Ok tt, s).
Definition modify {S} (f : S -> S) : M S unit := fun s => (Ok tt, f s).
Definition raise {S A} (e : exn) : M S A := fun s => (Raise e, s).
Definition liftR {S A} (r : result A) : M S A := fun s => (r, s).

(** Whatever [m] does, the state it leaves is related by [R] to the one it
    found. *)
Definition preserves {S A} (R : S -> S -> Prop) (m : M S A) : Prop :=
  ∀ s r s', m s = (r, s') -> R s s'.

(** [for a in l: body(a)] *)
Fixpoint for_ {S A} (l : list A) (body : A -> M S unit) : M S unit :=
  match l with
  | [] => mret tt
  | a :: rest => body a;; for_ rest body
  end.

(** [try: body finally: fin] *)
Definition try_finally {S A} (body : M S A) (fin : M S unit) : M S A :=
  fun s =>
    let '(r, s1) := body s in
    match fin s1 with
    | (Ok _, s2) => (r, s2)
    | (Raise e, s2) => (Raise e, s2)
    end.

(** ** Python strings *)

(** Iterating over a [str] yields its characters as one-character strings. *)
Fixpoint chars (s : string) : list string :=
  match s with
  | EmptyString => []
  | String c rest => String c EmptyString :: chars rest
  end.

Fixpoint enumerate_from {A} (k : nat) (l : list A) : list (nat * A) :=
  match l with
  | [] => []
  | a :: rest => (k, a) :: enumerate_from (S k) rest
  end.
Definition enumerate {A} (l : list A) : list (nat * A) := enumerate_from 0 l.

(** [str(n)] for a non-negative integer. *)
Definition str_of_nat (n : nat) : string := NilEmpty.string_of_uint (Nat.to_uint n).

(** [str.lower()]: below 256 the cased letters are [A]-[Z] and the
    capital letters of Latin-1, [À]-[Þ] without the sign [×]; the
    lower-case form of each lies 32 above it. *)
Definition lower_char (c : ascii) : ascii :=
  let n := nat_of_ascii c in
  if ((65 <=? n)%nat && (n <=? 90)%nat)
     || ((192 <=? n)%nat && (n <=? 222)%nat && negb (n =? 215)%nat)
  then ascii_of_nat (n + 32) else c.
Fixpoint lower (s : string) : string :=
  match s with
  | EmptyString => EmptyString
  | String c rest => String (lower_char c) (lower rest)
  end.

(** ** Python and NumPy numbers *)

(** The [float] nearest to an [int], ties to even; beyond the range of
    binary64 it is an infinity, and Python raises [OverflowError] where it
    would convert to one. *)
Definition Z2float (n : Z) : float :=
  SF2Prim (binary_normalize prec emax n 0 false).

Definition float_of_int (n : Z) : result float :=
  if is_infinity (Z2float n) then Raise OverflowError else Ok (Z2float n).

(** [1.0 / n] for an [int] [n]: the conversion comes first. *)
Definition true_div_1 (n : Z) : result float :=
  match float_of_int n with
  | Raise e => Raise e
  | Ok d => if decide (n = 0%Z) then Raise ZeroDivisionError else Ok (1 / d)%float
  end.

(** The values of an [np.int64], and the value arithmetic on them wraps
    to. *)
Definition int64 (z : Z) : Prop := (- 2 ^ 63 ≤ z < 2 ^ 63)%Z.
Definition wrap64 (z : Z) : Z := ((z + 2 ^ 63) mod 2 ^ 64 - 2 ^ 63)%Z.

(** A Python [int] that meets an [np.int64] in an operation is taken as an
    [np.int64]; where it does not fit, NumPy 2 raises [OverflowError]
    (NumPy 1 goes over to floating point there: what is proved below is
    about values that fit). *)
Definition as_int64 (a : Z) : result Z :=
  if decide (- 2 ^ 63 ≤ a < 2 ^ 63)%Z then Ok a else Raise OverflowError.

(** ** NumPy arrays of dtype [str]

    [np.full((height, width), " ", dtype=str)] has dtype ['<U1']: every
    cell holds one code point, an assignment keeps the first character of
    what is assigned, and a cell is read without its trailing NUL code
    points, so that a cell assigned a string that starts with NUL reads
    as the empty string, as does one assigned the empty string. *)

Abbreviation ndarray := (list (list string)).

Definition NUL : ascii := "000"%char.

Definition U1 (s : string) : string :=
  match s with
  | EmptyString => EmptyString
  | String c _ => if decide (c = NUL) then EmptyString else String c EmptyString
  end.

Definition np_full (shape : nat * nat) (fill : string) : ndarray :=
  replicate shape.1 (replicate shape.2 (U1 fill)).

(** An index [i] into an axis of length [n]: negative indices count from
    the end, anything else out of range is an [IndexError]. *)
Definition np_index (n : nat) (i : Z) : option nat :=
  if decide (0 ≤ i < Z.of_nat n)%Z then Some (Z.to_nat i)
  else if decide (- Z.of_nat n ≤ i < 0)%Z then Some (Z.to_nat (Z.of_nat n + i))
  else None.

(** [a[y, x]] *)
Definition np_getitem (a : ndarray) (y x : Z) : result string :=
  match np_index (length a) y with
  | None => Raise IndexError
  | Some r =>
    match a !! r with
    | None => Raise IndexError
    | Some row =>
      match np_index (length row) x with
      | None => Raise IndexError
      | Some c =>
        match row !! c with
        | None => Raise IndexError
        | Some v => Ok v
        end
      end
    end
  end.

(** [a[y, x] = v] *)
Definition np_setitem (a : ndarray) (y x : Z) (v : string) : result ndarray :=
  match np_index (length a) y with
  | None => Raise IndexError
  | Some r =>
    match a !! r with
    | None => Raise IndexError
    | Some row =>
      match np_index (length row) x with
      | None => Raise IndexError
      | Some c => Ok (<[r := <[c := U1 v]> row]> a)
      end
    end
  end.

(** [a != b], element by element, for arrays of one shape. *)
Definition np_ne (a b : ndarray) : list (list bool) :=
  zip_with (zip_with (fun s t => bool_decide (s ≠ t))) a b.

(** The columns of a row that hold [True], counted from [k]. *)
Fixpoint true_at (k : nat) (row : list bool) : list nat :=
  match row with
  | [] => []
  | b :: rest => (if b then [k] else []) ++ true_at (S k) rest
  end.

Fixpoint nonzero_from (k : nat) (d : list (list bool)) : list (nat * nat) :=
  match d with
  | [] => []
  | row :: rest => ((fun x => (k, x)) <$> true_at 0 row) ++ nonzero_from (S k) rest
  end.

(** [np.where(d)]: the row indices and the column indices of the [True]
    entries, in C (row-major) order. *)
Definition np_where (d : list (list bool)) : list nat * list nat :=
  let ps := nonzero_from 0 d in (ps.*1, ps.*2).

(** [a.fill(v)] *)
Definition np_fill (a : ndarray) (v : string) : ndarray :=
  map (map (fun _ => U1 v)) a.

(** ** The engine object and the world around it *)

(** Terminal attributes as [termios.tcgetattr] returns them. *)
Inductive termios :=
| Cooked
| RawMode
| Attrs (n : nat).

(** What the capture thread has done since the main thread last looked:
    it has read keys, or it has ended, by leaving its loop on finding
    [running] false or by an exception out of the read. *)
Inductive capture_event :=
| Reads (keys : list string)
| Ends.

(** The platform: [os.name]; which texts the encoding of [sys.stdout] can
    encode; the readings of [time.perf_counter] in the order they are
    taken; the exception the first and the second [np.full] of
    [__init__] raise for a shape, if the machine cannot hold the array or
    NumPy cannot address it; what the capture thread has done at each of
    the four statement boundaries of each outer iteration of the loop;
    and the keys it still reads while [stopInputThread] waits for it. *)
Record Env := {
  os_nt : bool;
  encodable : string -> bool;
  perf_counter : nat -> float;
  np_refuses : nat -> Z -> Z -> option exn;
  captured : nat -> nat -> capture_event;
  captured_at_join : list string
}.

(** The attributes of a [TerminalEngine]; [subclass] holds the attributes
    a concrete game adds. *)
Record TerminalEngine (G : Type) := {
  width : Z;
  height : Z;
  buffer : ndarray;
  prevBuffer : ndarray;
  running : bool;
  tickRate : Z;
  maxFps : Z;
  tickDuration : float;
  frameDuration : float;
  keysPressed : gset string;
  keysReleased : gset string;
  inputThread : bool;
  oldSettings : option termios;
  subclass : G
}.
Arguments width {G} _.
Arguments height {G} _.
Arguments buffer {G} _.
Arguments prevBuffer {G} _.
Arguments running {G} _.
Arguments tickRate {G} _.
Arguments maxFps {G} _.
Arguments tickDuration {G} _.
Arguments frameDuration {G} _.
Arguments keysPressed {G} _.
Arguments keysReleased {G} _.
Arguments inputThread {G} _.
Arguments oldSettings {G} _.
Arguments subclass {G} _.

(** The engine together with what it acts on: the terminal (its
    attributes, and whether it shows the cursor), the texts written to
    [sys.stdout], whether the capture thread is alive, how many handlers
    [atexit] holds, how many clock readings were taken, and how many
    times [update] was called. *)
Record World (G : Type) := {
  self : TerminalEngine G;
  tty : termios;
  cursor : bool;
  stdout : list string;
  captureAlive : bool;
  atexitHandlers : nat;
  clockReads : nat;
  updateCalls : nat
}.
Arguments self {G} _.
Arguments tty {G} _.
Arguments cursor {G} _.
Arguments stdout {G} _.
Arguments captureAlive {G} _.
Arguments atexitHandlers {G} _.
Arguments clockReads {G} _.
Arguments updateCalls {G} _.

Section Engine.
Context {G : Type}.

Definition set_buffer (b : ndarray) (e : TerminalEngine G) : TerminalEngine G :=
  {| width := width e; height := height e; buffer := b;
     prevBuffer := prevBuffer e; running := running e; tickRate := tickRate e;
     maxFps := maxFps e; tickDuration := tickDuration e;
     frameDuration := frameDuration e; keysPressed := keysPressed e;
     keysReleased := keysReleased e; inputThread := inputThread e;
     oldSettings := oldSettings e; subclass := subclass e |}.

Definition set_prevBuffer (b : ndarray) (e : TerminalEngine G) : TerminalEngine G :=
  {| width := width e; height := height e; buffer := buffer e;
     prevBuffer := b; running := running e; tickRate := tickRate e;
     maxFps := maxFps e; tickDuration := tickDuration e;
     frameDuration := frameDuration e; keysPressed := keysPressed e;
     keysReleased := keysReleased e; inputThread := inputThread e;
     oldSettings := oldSettings e; subclass := subclass e |}.

Definition set_running (b : bool) (e : TerminalEngine G) : TerminalEngine G :=
  {| width := width e; height := height e; buffer := buffer e;
     prevBuffer := prevBuffer e; running := b; tickRate := tickRate e;
     maxFps := maxFps e; tickDuration := tickDuration e;
     frameDuration := frameDuration e; keysPressed := keysPressed e;
     keysReleased := keysReleased e; inputThread := inputThread e;
     oldSettings := oldSettings e; subclass := subclass e |}.

Definition set_keys (p r : gset string) (e : TerminalEngine G) : TerminalEngine G :=
  {| width := width e; height := height e; buffer := buffer e;
     prevBuffer := prevBuffer e; running := running e; tickRate := tickRate e;
     maxFps := maxFps e; tickDuration := tickDuration e;
     frameDuration := frameDuration e; keysPressed := p;
     keysReleased := r; inputThread := inputThread e;
     oldSettings := oldSettings e; subclass := subclass e |}.

Definition set_inputThread (b : bool) (e : TerminalEngine G) : TerminalEngine G :=
  {| width := width e; height := height e; buffer := buffer e;
     prevBuffer := prevBuffer e; running := running e; tickRate := tickRate e;
     maxFps := maxFps e; tickDuration := tickDuration e;
     frameDuration := frameDuration e; keysPressed := keysPressed e;
     keysReleased := keysReleased e; inputThread := b;
     oldSettings := oldSettings e; subclass := subclass e |}.

Definition set_oldSettings (a : option termios) (e : TerminalEngine G) : TerminalEngine G :=
  {| width := width e; height := height e; buffer := buffer e;
     prevBuffer := prevBuffer e; running := running e; tickRate := tickRate e;
     maxFps := maxFps e; tickDuration := tickDuration e;
     frameDuration := frameDuration e; keysPressed := keysPressed e;
     keysReleased := keysReleased e; inputThread := inputThread e;
     oldSettings := a; subclass := subclass e |}.

Definition with_self (e : TerminalEngine G) (w : World G) : World G :=
  {| self := e; tty := tty w; cursor := cursor w; stdout := stdout w;
     captureAlive := captureAlive w; atexitHandlers := atexitHandlers w;
     clockReads := clockReads w; updateCalls := updateCalls w |}.

(** A method that touches the object only, run in the world. *)
Definition on_self {A} (m : M (TerminalEngine G) A) : M (World G) A :=
  fun w => let '(r, e) := m (self w) in (r, with_self e w).

(** *** [__init__] *)

(** The object [__init__] builds when nothing raises. *)
Definition new_engine (env : Env) (attrs : termios) (w h : Z) (rate fps : Z) (g : G)
  : TerminalEngine G :=
  {| width := w; height := h;
     buffer := np_full (Z.to_nat h, Z.to_nat w) " ";
     prevBuffer := np_full (Z.to_nat h, Z.to_nat w) " ";
     running := false;
     tickRate := rate; maxFps := fps;
     tickDuration := (1 / Z2float rate)%float;
     frameDuration := (1 / Z2float fps)%float;
     keysPressed := ∅; keysReleased := ∅;
     inputThread := false;
     oldSettings := if os_nt env then None else Some attrs;
     subclass := g |}.

(** The [call]-th [np.full((height, width), " ", dtype=str)] of
    [__init__]: it raises what the platform says it raises, and
    [ValueError] for a negative dimension. *)
Definition np_full_init (env : Env) (call : nat) (h w : Z) : result ndarray :=
  match np_refuses env call h w with
  | Some e => Raise e
  | None =>
    if decide (w < 0 ∨ h < 0)%Z then Raise ValueError
    else Ok (np_full (Z.to_nat h, Z.to_nat w) " ")
  end.

(** [termios.tcgetattr(sys.stdin)], where [stdin] gives the attributes of
    the terminal [sys.stdin] is, if it is one. *)
Definition termios_tcgetattr (stdin : option termios) : result termios :=
  match stdin with
  | Some attrs => Ok attrs
  | None => Raise TermiosError
  end.

(** [TerminalEngine(width, height, tickRate, maxFps)]; [g] initialises the
    attributes of the subclass.  The statements of [__init__] that can
    raise, in their order: the two [np.full], the two divisions, and
    [termios.tcgetattr] where [os.name] is not ["nt"]. *)
Definition init (env : Env) (stdin : option termios) (w h : Z) (rate fps : Z) (g : G)
  : result (TerminalEngine G) :=
  match np_full_init env 0 h w with
  | Raise e => Raise e
  | Ok b =>
    match np_full_init env 1 h w with
    | Raise e => Raise e
    | Ok p =>
      match true_div_1 rate with
      | Raise e => Raise e
      | Ok td =>
        match true_div_1 fps with
        | Raise e => Raise e
        | Ok fd =>
          match (if os_nt env then Ok None else
                   match termios_tcgetattr stdin with
                   | Ok a => Ok (Some a)
                   | Raise e => Raise e
                   end) with
          | Raise e => Raise e
          | Ok old =>
            Ok {| width := w; height := h;
                  buffer := b; prevBuffer := p;
                  running := false;
                  tickRate := rate; maxFps := fps;
                  tickDuration := td; frameDuration := fd;
                  keysPressed := ∅; keysReleased := ∅;
                  inputThread := false;
                  oldSettings := old;
                  subclass := g |}
          end
        end
      end
    end
  end.

(** ["\033"] *)
Definition ESC : string := String "027"%char EmptyString.

(** *** Drawing *)

Definition drawPixel (x y : Z) (char : string) : M (TerminalEngine G) unit :=
  e ← get;
  if decide ((0 ≤ x < width e)%Z ∧ (0 ≤ y < height e)%Z) then
    b ← liftR (np_setitem (buffer e) y x char);
    put (set_buffer b e)
  else mret tt.

Definition drawText (x y : Z) (text : string) : M (TerminalEngine G) unit :=
  for_ (enumerate (chars text))
       (fun ic => drawPixel (x + Z.of_nat ic.1) y ic.2).

(** [draw_pixel] of [tetris.py], the drawing call that takes a colour. *)
Definition draw_pixel (x y : Z) (char : string) (color : option string)
  : M (TerminalEngine G) unit :=
  e ← get;
  if decide ((0 ≤ x < width e)%Z ∧ (0 ≤ y < height e)%Z) then
    match color with
    | Some c =>
      if decide (c = "") then
        b ← liftR (np_setitem (buffer e) y x char);
        put (set_buffer b e)
      else
        b ← liftR (np_setitem (buffer e) y x (c +:+ char +:+ ESC +:+ "[0m"));
        put (set_buffer b e)
    | None =>
      b ← liftR (np_setitem (buffer e) y x char);
      put (set_buffer b e)
    end
  else mret tt.

(** *** Output *)

Definition hide_cursor : string := ESC +:+ "[?25l".
Definition show_cursor : string := ESC +:+ "[?25h".

(** What the terminal makes of a text it receives, as far as the cursor
    is concerned. *)
Definition terminal_cursor (s : string) (shown : bool) : bool :=
  if decide (s = show_cursor) then true
  else if decide (s = hide_cursor) then false
  else shown.

(** [sys.stdout.write(s)]: a text the encoding of the stream cannot encode
    raises before anything of it is written. *)
Definition sys_stdout_write (env : Env) (s : string) : M (World G) unit :=
  fun w =>
    if encodable env s then
      (Ok tt,
       {| self := self w; tty := tty w;
          cursor := terminal_cursor s (cursor w);
          stdout := stdout w ++ [s];
          captureAlive := captureAlive w; atexitHandlers := atexitHandlers w;
          clockReads := clockReads w; updateCalls := updateCalls w |})
    else (Raise UnicodeEncodeError, w).

(** The text [render] writes for the cell at row [y] and column [x]:
    [f"\033[{y+1};{x+1}H{cell}"]. *)
Definition cell_text (y x : nat) (cell : string) : string :=
  ESC +:+ "[" +:+ str_of_nat (y + 1) +:+ ";" +:+ str_of_nat (x + 1) +:+ "H" +:+ cell.

(** The body of the loop of [render]:
    [sys.stdout.write(f"\033[{y+1};{x+1}H{self.buffer[y, x]}")]. *)
Definition write_cell (env : Env) (yx : nat * nat) : M (World G) unit :=
  w ← get;
  cell ← liftR (np_getitem (buffer (self w)) (Z.of_nat yx.1) (Z.of_nat yx.2));
  sys_stdout_write env (cell_text yx.1 yx.2 cell).

Definition render (env : Env) : M (World G) unit :=
  w ← get;
  let diff := np_ne (buffer (self w)) (prevBuffer (self w)) in
  let '(yIndices, xIndices) := np_where diff in
  for_ (zip yIndices xIndices) (write_cell env);;
  on_self (modify (fun e => set_prevBuffer (buffer e) e)).

(** *** Keys *)

(** One key read by [inputHandler]: [self.keysPressed.add(key.lower())]. *)
Definition inputHandler_read (key : string) : M (TerminalEngine G) unit :=
  modify (fun e => set_keys ({[lower key]} ∪ keysPressed e) (keysReleased e) e).

Definition isKeyPressed (e : TerminalEngine G) (key : string) : bool :=
  bool_decide (key ∈ keysPressed e).

Definition isKeyReleased (e : TerminalEngine G) (key : string) : bool :=
  bool_decide (key ∈ keysReleased e).

Definition clearKeyStates : M (TerminalEngine G) unit :=
  modify (fun e => set_keys ∅ (keysPressed e) e).

Definition with_capture (b : bool) (w : World G) : World G :=
  {| self := self w; tty := tty w; cursor := cursor w; stdout := stdout w;
     captureAlive := b; atexitHandlers := atexitHandlers w;
     clockReads := clockReads w; updateCalls := updateCalls w |}.

Definition startInputThread : M (World G) unit :=
  on_self (modify (set_inputThread true));;
  modify (with_capture true).

(** What the capture thread has done, seen from the main thread: nothing
    when it has ended before; otherwise [inputHandler] has added the keys
    it read, or the thread has ended. *)
Definition capture_thread (ev : capture_event) : M (World G) unit :=
  w ← get;
  if captureAlive w then
    match ev with
    | Reads keys => on_self (for_ keys inputHandler_read)
    | Ends => modify (with_capture false)
    end
  else mret tt.

(** [stopInputThread]: while [join] waits, a thread that is still alive
    finishes the round of its loop it is in, and may add a key in it. *)
Definition stopInputThread (env : Env) : M (World G) unit :=
  on_self (modify (set_running false));;
  w ← get;
  if inputThread (self w) then
    capture_thread (Reads (captured_at_join env));;
    modify (with_capture false)
  else mret tt.

(** *** Terminal mode *)

Definition with_tty (a : termios) (w : World G) : World G :=
  {| self := self w; tty := a; cursor := cursor w; stdout := stdout w;
     captureAlive := captureAlive w; atexitHandlers := atexitHandlers w;
     clockReads := clockReads w; updateCalls := updateCalls w |}.

Definition setRawMode (env : Env) : M (World G) unit :=
  if os_nt env then mret tt else modify (with_tty RawMode).

Definition restoreTerminal (env : Env) : M (World G) unit :=
  (if os_nt env then mret tt
   else
     w ← get;
     match oldSettings (self w) with
     | Some a => modify (with_tty a)
     | None => raise TypeError
     end);;
  sys_stdout_write env show_cursor.

(** *** The loop *)

(** The [update] of the class itself: [pass]. *)
Definition update_pass (dt : float) : M (TerminalEngine G) unit := mret tt.

Definition time_perf_counter (env : Env) : M (World G) float :=
  fun w =>
    (Ok (perf_counter env (clockReads w)),
     {| self := self w; tty := tty w; cursor := cursor w; stdout := stdout w;
        captureAlive := captureAlive w; atexitHandlers := atexitHandlers w;
        clockReads := S (clockReads w); updateCalls := updateCalls w |}).

Definition time_sleep (d : float) : M (World G) unit := mret tt.

Definition clearScreen : M (World G) unit := mret tt.

Definition atexit_register : M (World G) unit :=
  modify (fun w =>
    {| self := self w; tty := tty w; cursor := cursor w; stdout := stdout w;
       captureAlive := captureAlive w; atexitHandlers := S (atexitHandlers w);
       clockReads := clockReads w; updateCalls := updateCalls w |}).

Definition with_updateCalls (n : nat) (w : World G) : World G :=
  {| self := self w; tty := tty w; cursor := cursor w; stdout := stdout w;
     captureAlive := captureAlive w; atexitHandlers := atexitHandlers w;
     clockReads := clockReads w; updateCalls := n |}.

(** [self.update(dt)], counted. *)
Definition call_update (update : float -> M (TerminalEngine G) unit) (dt : float)
  : M (World G) unit :=
  modify (fun w => with_updateCalls (S (updateCalls w)) w);;
  on_self (update dt).

(** [while lag >= self.tickDuration and updateCount < 5: ...]; the result
    is [None] when [fuel] runs out before the condition fails, and the
    final [lag] and [updateCount] otherwise. *)
Fixpoint tickLoop (update : float -> M (TerminalEngine G) unit) (fuel : nat)
  (lag : float) (updateCount : nat) : M (World G) (option (float * nat)) :=
  match fuel with
  | O => mret None
  | S fuel' =>
    w ← get;
    if (tickDuration (self w) <=? lag)%float && (updateCount <? 5)%nat then
      call_update update (tickDuration (self w));;
      w1 ← get;
      tickLoop update fuel' (lag - tickDuration (self w1))%float (updateCount + 1)
    else mret (Some (lag, updateCount))
  end.

(** [while self.running: ...]; [frame] counts the outer iterations.  What
    the capture thread does meanwhile is seen at four places of an
    iteration: before the clock is read, after the ticks, after [render]
    and after [clearKeyStates].  The result is [None] when [fuel] runs out
    while the engine is still running. *)
Fixpoint mainLoop (env : Env) (update : float -> M (TerminalEngine G) unit)
  (fuel frame : nat) (previousTime lag : float) : M (World G) (option unit) :=
  match fuel with
  | O => mret None
  | S fuel' =>
    w ← get;
    if running (self w) then
      capture_thread (captured env frame 0);;
      currentTime ← time_perf_counter env;
      let elapsed := (currentTime - previousTime)%float in
      let previousTime := currentTime in
      let lag := (lag + elapsed)%float in
      drained ← tickLoop update 6 lag 0;
      match drained with
      | None => mret None
      | Some (lag, _) =>
        capture_thread (captured env frame 1);;
        render env;;
        capture_thread (captured env frame 2);;
        on_self clearKeyStates;;
        capture_thread (captured env frame 3);;
        on_self (modify (fun e => set_buffer (np_fill (buffer e) " ") e));;
        frameEnd ← time_perf_counter env;
        let frameElapsed := (frameEnd - currentTime)%float in
        w2 ← get;
        (if (frameElapsed <? frameDuration (self w2))%float
         then time_sleep (frameDuration (self w2) - frameElapsed)%float
         else mret tt);;
        mainLoop env update fuel' (S frame) previousTime lag
      end
    else mret (Some tt)
  end.

(** What precedes the [try] in [run]. *)
Definition run_enter (env : Env) : M (World G) float :=
  on_self (modify (set_running true));;
  clearScreen;;
  sys_stdout_write env hide_cursor;;
  setRawMode env;;
  atexit_register;;
  startInputThread;;
  time_perf_counter env.

(** The [try]/[finally] of [run]: as long as [fuel] runs out inside the
    loop the engine has not left it and the result is [None]; once the
    loop is left, by its condition or by an exception, the [finally] block
    runs. *)
Definition run_try (env : Env) (update : float -> M (TerminalEngine G) unit)
  (fuel : nat) (previousTime lag : float) : M (World G) (option unit) :=
  fun w =>
    match mainLoop env update fuel 0 previousTime lag w with
    | (Ok None, w1) => (Ok None, w1)
    | _ =>
      try_finally (mainLoop env update fuel 0 previousTime lag)
                  (stopInputThread env;; restoreTerminal env) w
    end.

Definition run (env : Env) (update : float -> M (TerminalEngine G) unit)
  (fuel : nat) : M (World G) (option unit) :=
  previousTime ← run_enter env;
  run_try env update fuel previousTime 0%float.

End Engine.

(** ** The terminal's reading of a cursor-position command

    A terminal reads [ESC [ row ; col H] as "move to row [row], column
    [col]", both counted from 1; what follows is printed there. *)

Definition is_digit (c : ascii) : bool :=
  let n := nat_of_ascii c in (48 <=? n)%nat && (n <=? 57)%nat.

Fixpoint span_digits (s : string) : string * string :=
  match s with
  | EmptyString => (EmptyString, EmptyString)
  | String c rest =>
    if is_digit c then
      let '(ds, tl) := span_digits rest in (String c ds, tl)
    else (EmptyString, s)
  end.

Definition read_number (s : string) : option (nat * string) :=
  match span_digits s with
  | (EmptyString, _) => None
  | (ds, tl) =>
    match NilEmpty.uint_of_string ds with
    | Some u => Some (Nat.of_uint u, tl)
    | None => None
    end
  end.

Definition parse_cup (s : string) : option (nat * nat * string) :=
  match s with
  | String "027"%char (String "["%char s1) =>
    match read_number s1 with
    | Some (row, String ";"%char s2) =>
      match read_number s2 with
      | Some (col, String "H"%char printed) => Some (row, col, printed)
      | _ => None
      end
    | _ => None
    end
  | _ => None
  end.

(** ** Predicates on engines *)

Definition in_bounds {G} (e : TerminalEngine G) (x y : Z) : Prop :=
  (0 ≤ x < width e)%Z ∧ (0 ≤ y < height e)%Z.

(** An array of [h] rows of [w] cells. *)
Definition has_shape (a : ndarray) (h w : Z) : Prop :=
  Z.of_nat (length a) = h ∧ Forall (fun row => Z.of_nat (length row) = w) a.

(** Every cell of a ['<U1'] array holds at most one character. *)
Definition is_U1 (a : ndarray) : Prop :=
  Forall (Forall (fun c => (String.length c ≤ 1)%nat)) a.

(** Both grids have the dimensions the engine was built with. *)
Definition shape_ok {G} (e : TerminalEngine G) : Prop :=
  has_shape (buffer e) (height e) (width e) ∧
  has_shape (prevBuffer e) (height e) (width e).

(** The grids of an engine are as NumPy keeps them: of the dimensions the
    engine was built with, one character at most in every cell. *)
Definition grid_ok {G} (e : TerminalEngine G) : Prop :=
  shape_ok e ∧ is_U1 (buffer e) ∧ is_U1 (prevBuffer e).

(** Every key of the two sets is its own lower-case form. *)
Definition keys_lower {G} (e : TerminalEngine G) : Prop :=
  ∀ k, k ∈ keysPressed e ∪ keysReleased e -> lower k = k.

(** A game leaves the attributes of the raw-mode session alone. *)
Definition well_behaved {G} (update : float -> M (TerminalEngine G) unit) : Prop :=
  ∀ dt e, oldSettings (update dt e).2 = oldSettings e ∧
          inputThread (update dt e).2 = inputThread e.

(** A game does not change the tick duration. *)
Definition keeps_tickDuration {G} (update : float -> M (TerminalEngine G) unit) : Prop :=
  ∀ dt e, tickDuration (update dt e).2 = tickDuration e.

(** A text is a cursor-position command followed by what to print. *)
Definition is_cell_write (s : string) : Prop := is_Some (parse_cup s).

(** What the body of the main loop leaves as it is: the terminal
    attributes, the cursor, the attributes of the session and the exit
    handlers; to [sys.stdout] it only appends cursor-position writes. *)
Definition session_kept {G} (w w' : World G) : Prop :=
  tty w' = tty w ∧ cursor w' = cursor w ∧
  oldSettings (self w') = oldSettings (self w) ∧
  inputThread (self w') = inputThread (self w) ∧
  atexitHandlers w' = atexitHandlers w ∧
  ∃ texts, stdout w' = stdout w ++ texts ∧ Forall is_cell_write texts.

(** Every cell is a blank. *)
Definition is_blank (a : ndarray) : Prop := Forall (Forall (fun c => c = " ")) a.

(** The cell of [a] at row [y], column [x]. *)
Definition cell_at (a : ndarray) (y x : nat) : string :=
  default EmptyString (a !! y ≫= fun row => row !! x).

(** The cell at row [y], column [x] exists in both grids and differs. *)
Definition differs {G} (e : TerminalEngine G) (y x : nat) : Prop :=
  ∃ c p, (buffer e !! y ≫= fun row => row !! x) = Some c ∧
         (prevBuffer e !! y ≫= fun row => row !! x) = Some p ∧ c ≠ p.

(** The positions [render] visits, in the order it visits them. *)
Definition changed {G} (e : TerminalEngine G) : list (nat * nat) :=
  let '(yIndices, xIndices) := np_where (np_ne (buffer e) (prevBuffer e)) in
  zip yIndices xIndices.

(** The texts [render] writes when every cell it visits can be read. *)
Definition written {G} (e : TerminalEngine G) : list string :=
  (fun yx => cell_text yx.1 yx.2 (cell_at (buffer e) yx.1 yx.2)) <$> changed e.

(** Row-major order on positions [(row, column)]. *)
Definition row_major (p q : nat * nat) : Prop :=
  (p.1 < q.1)%nat ∨ (p.1 = q.1 ∧ (p.2 < q.2)%nat).

(** [lag] after [n] ticks of duration [dt]. *)
Definition lag_after (dt : float) (n : nat) (lag : float) : float :=
  Nat.iter n (fun l => (l - dt)%float) lag.


(** ** Sessions used as examples *)

(** A POSIX terminal whose stream encodes every text, on a machine that
    holds every array; the clock advances by one second per reading, and
    no key is struck. *)
Definition posix : Env :=
  {| os_nt := false;
     encodable := fun _ => true;
     perf_counter := fun n => Z2float (Z.of_nat n);
     np_refuses := fun _ _ _ => None;
     captured := fun _ _ => Reads [];
     captured_at_join := [] |}.

(** The same with a stream that encodes only 7-bit characters. *)
Definition posix_ascii : Env :=
  {| os_nt := false;
     encodable := fun s => forallb (fun c => (nat_of_ascii c <? 128)%nat) (list_ascii_of_string s);
     perf_counter := fun n => Z2float (Z.of_nat n);
     np_refuses := fun _ _ _ => None;
     captured := fun _ _ => Reads [];
     captured_at_join := [] |}.

(** The first terminal with a player at it: [Q] is struck before the
    first iteration, [É] after its [clearKeyStates], and [x] while
    [stopInputThread] waits for the thread. *)
Definition posix_keys : Env :=
  {| os_nt := false;
     encodable := fun _ => true;
     perf_counter := fun n => Z2float (Z.of_nat n);
     np_refuses := fun _ _ _ => None;
     captured := fun frame place =>
       match frame, place with
       | O, O => Reads ["Q"]
       | O, 3%nat => Reads [String "201"%char EmptyString]
       | _, _ => Reads []
       end;
     captured_at_join := ["x"] |}.

(** A machine on which the second grid of a large engine does not fit. *)
Definition posix_small : Env :=
  {| os_nt := false;
     encodable := fun _ => true;
     perf_counter := fun n => Z2float (Z.of_nat n);
     np_refuses := fun call h w =>
       if (call =? 1)%nat && (1000000 <? h * w)%Z then Some MemoryError else None;
     captured := fun _ _ => Reads [];
     captured_at_join := [] |}.

Definition engine10x4 : TerminalEngine unit := new_engine posix Cooked 10 4 60 60 tt.

(** The engine after the capture thread has read the key [Q]. *)
Definition engine_q : TerminalEngine unit := (inputHandler_read "Q" engine10x4).2.

(** The world of an engine that has just been built on a terminal with
    attributes [attrs] and a visible cursor. *)
Definition world_of {G} (attrs : termios) (e : TerminalEngine G) : World G :=
  {| self := e; tty := attrs; cursor := true; stdout := [];
     captureAlive := false; atexitHandlers := 0; clockReads := 0;
     updateCalls := 0 |}.

(** A game that quits on its first tick, one that quits when [q] is
    pressed, one whose [update] raises, and one that draws a character the
    7-bit stream cannot encode. *)
Definition update_quit (dt : float) : M (TerminalEngine unit) unit :=
  modify (set_running false).
Definition update_quit_on_q (dt : float) : M (TerminalEngine unit) unit :=
  e ← get;
  if isKeyPressed e "q" then modify (set_running false) else mret tt.
Definition update_raise (dt : float) : M (TerminalEngine unit) unit :=
  raise (GameError "update").
Definition update_block (dt : float) : M (TerminalEngine unit) unit :=
  drawPixel 1 1 (String "219"%char EmptyString).

(** The 10×4 engine after [drawPixel(2, 1, "@")] and [drawPixel(7, 3, "#")],
    in its world, and that world after one [render]. *)
Definition engine_at : TerminalEngine unit :=
  (drawPixel 7 3 "#" (drawPixel 2 1 "@" engine10x4).2).2.
Definition world_at : World unit := world_of Cooked engine_at.
Definition world_at_rendered : World unit := (render posix world_at).2.

(** The 10×4 engine after [drawPixel(2, 1, "@")] alone, in its world, and
    that world after one [render]. *)
Definition world_one : World unit := world_of Cooked (drawPixel 2 1 "@" engine10x4).2.
Definition world_one_rendered : World unit := (render posix world_one).2.

(** The world of the 10×4 engine, and what [run] leaves of it with a game
    whose [update] raises, and after three outer iterations with the
    [update] of the class. *)
Definition world10x4 : World unit := world_of Cooked engine10x4.
Definition world_after_raise : World unit := (run posix update_raise 3 world10x4).2.
Definition world_after_three : World unit := (run posix update_pass 3 world10x4).2.


(** A game that assigns [self.oldSettings] and quits, and a stream that
    fails on the show-cursor sequence. *)
Definition update_clobber (dt : float) : M (TerminalEngine unit) unit :=
  modify (fun e => set_running false (set_oldSettings (Some RawMode) e)).
Definition posix_mute : Env :=
  {| os_nt := false;
     encodable := fun s => bool_decide (s ≠ show_cursor);
     perf_counter := fun n => Z2float (Z.of_nat n);
     np_refuses := fun _ _ _ => None;
     captured := fun _ _ => Reads [];
     captured_at_join := [] |}.

(** The 10×4 engine after [drawPixel(0, 0, "a")] and a character outside
    the 7-bit range at (1, 1), in its world. *)
Definition engine_block : TerminalEngine unit :=
  (drawPixel 1 1 (String "219"%char EmptyString) (drawPixel 0 0 "a" engine10x4).2).2.
Definition world_block : World unit := world_of Cooked engine_block.

(** ** The Tetris game ([tetris.py])

    The attributes [TetrisGame] adds to the engine, and its methods on
    the board and the current piece.  A shape is an integer array; the
    values [random.randint] returns are arguments of the methods that draw
    them. *)

Abbreviation shape := (list (list Z)).

Record TetrisGame := {
  board_width : Z;
  board_height : Z;
  board : ndarray;
  current_piece : option (shape * string);
  next_piece : option (shape * string);
  current_x : Z;
  current_y : Z;
  score : Z;
  level : Z;
  lines_cleared : Z;
  game_over : bool;
  drop_interval : float
}.

Definition set_board (b : ndarray) (t : TetrisGame) : TetrisGame :=
  {| board_width := board_width t; board_height := board_height t; board := b;
     current_piece := current_piece t; next_piece := next_piece t;
     current_x := current_x t; current_y := current_y t; score := score t;
     level := level t; lines_cleared := lines_cleared t;
     game_over := game_over t; drop_interval := drop_interval t |}.

Definition set_current_piece (p : option (shape * string)) (t : TetrisGame) : TetrisGame :=
  {| board_width := board_width t; board_height := board_height t; board := board t;
     current_piece := p; next_piece := next_piece t;
     current_x := current_x t; current_y := current_y t; score := score t;
     level := level t; lines_cleared := lines_cleared t;
     game_over := game_over t; drop_interval := drop_interval t |}.

Definition set_next_piece (p : option (shape * string)) (t : TetrisGame) : TetrisGame :=
  {| board_width := board_width t; board_height := board_height t; board := board t;
     current_piece := current_piece t; next_piece := p;
     current_x := current_x t; current_y := current_y t; score := score t;
     level := level t; lines_cleared := lines_cleared t;
     game_over := game_over t; drop_interval := drop_interval t |}.

Definition set_current_x (x : Z) (t : TetrisGame) : TetrisGame :=
  {| board_width := board_width t; board_height := board_height t; board := board t;
     current_piece := current_piece t; next_piece := next_piece t;
     current_x := x; current_y := current_y t; score := score t;
     level := level t; lines_cleared := lines_cleared t;
     game_over := game_over t; drop_interval := drop_interval t |}.

Definition set_current_y (y : Z) (t : TetrisGame) : TetrisGame :=
  {| board_width := board_width t; board_height := board_height t; board := board t;
     current_piece := current_piece t; next_piece := next_piece t;
     current_x := current_x t; current_y := y; score := score t;
     level := level t; lines_cleared := lines_cleared t;
     game_over := game_over t; drop_interval := drop_interval t |}.

Definition set_game_over (b : bool) (t : TetrisGame) : TetrisGame :=
  {| board_width := board_width t; board_height := board_height t; board := board t;
     current_piece := current_piece t; next_piece := next_piece t;
     current_x := current_x t; current_y := current_y t; score := score t;
     level := level t; lines_cleared := lines_cleared t;
     game_over := b; drop_interval := drop_interval t |}.

Definition set_lines_cleared (n : Z) (t : TetrisGame) : TetrisGame :=
  {| board_width := board_width t; board_height := board_height t; board := board t;
     current_piece := current_piece t; next_piece := next_piece t;
     current_x := current_x t; current_y := current_y t; score := score t;
     level := level t; lines_cleared := n;
     game_over := game_over t; drop_interval := drop_interval t |}.

Definition set_score (n : Z) (t : TetrisGame) : TetrisGame :=
  {| board_width := board_width t; board_height := board_height t; board := board t;
     current_piece := current_piece t; next_piece := next_piece t;
     current_x := current_x t; current_y := current_y t; score := n;
     level := level t; lines_cleared := lines_cleared t;
     game_over := game_over t; drop_interval := drop_interval t |}.

Definition set_level (n : Z) (d : float) (t : TetrisGame) : TetrisGame :=
  {| board_width := board_width t; board_height := board_height t; board := board t;
     current_piece := current_piece t; next_piece := next_piece t;
     current_x := current_x t; current_y := current_y t; score := score t;
     level := n; lines_cleared := lines_cleared t;
     game_over := game_over t; drop_interval := d |}.

(** [self.shapes] and [self.colors]. *)
Definition shapes : list shape :=
  [ [[1; 1; 1; 1]];
    [[1; 1]; [1; 1]];
    [[1; 1; 1]; [0; 1; 0]];
    [[1; 1; 1]; [1; 0; 0]];
    [[1; 1; 1]; [0; 0; 1]];
    [[1; 1; 0]; [0; 1; 1]];
    [[0; 1; 1]; [1; 1; 0]] ]%Z.

Definition colors : list string :=
  [ ESC +:+ "[91m"; ESC +:+ "[93m"; ESC +:+ "[92m"; ESC +:+ "[94m";
    ESC +:+ "[95m"; ESC +:+ "[96m"; ESC +:+ "[97m" ].

(** [random_piece] when [random.randint(0, len(self.shapes) - 1)] is [index]. *)
Definition random_piece (index : nat) : result (shape * string) :=
  match shapes !! index, colors !! index with
  | Some s, Some c => Ok (s, c)
  | _, _ => Raise IndexError
  end.

(** The test [collision] makes for the cell [cell] at row [y] and column
    [x] of the shape. *)
Definition cell_collides (t : TetrisGame) (y x : nat) (cell : Z) : result bool :=
  if decide (cell = 0%Z) then Ok false
  else if decide ((current_y t + Z.of_nat y >= board_height t)%Z ∨
                  (current_x t + Z.of_nat x < 0)%Z ∨
                  (current_x t + Z.of_nat x >= board_width t)%Z)
  then Ok true
  else
    match np_getitem (board t) (current_y t + Z.of_nat y)%Z (current_x t + Z.of_nat x)%Z with
    | Ok c => Ok (bool_decide (c ≠ " "))
    | Raise e => Raise e
    end.

(** The inner and the outer loop of [collision], which return [True] at
    the first cell that collides. *)
Fixpoint row_collides (t : TetrisGame) (y : nat) (cells : list (nat * Z)) : result bool :=
  match cells with
  | [] => Ok false
  | (x, cell) :: rest =>
    match cell_collides t y x cell with
    | Ok true => Ok true
    | Ok false => row_collides t y rest
    | Raise e => Raise e
    end
  end.

Fixpoint rows_collide (t : TetrisGame) (rows : list (nat * list Z)) : result bool :=
  match rows with
  | [] => Ok false
  | (y, row) :: rest =>
    match row_collides t y (enumerate row) with
    | Ok true => Ok true
    | Ok false => rows_collide t rest
    | Raise e => Raise e
    end
  end.

Definition collision : M TetrisGame bool :=
  fun t =>
    match current_piece t with
    | None => (Raise TypeError, t)
    | Some (s, _) => (rows_collide t (enumerate s), t)
    end.

(** [merge_piece]: the colour of the piece is assigned to the cells of
    the board under it. *)
Definition merge_piece : M TetrisGame unit :=
  t ← get;
  match current_piece t with
  | None => raise TypeError
  | Some (s, color) =>
    for_ (enumerate s) (fun yrow =>
      for_ (enumerate yrow.2) (fun xcell =>
        if decide (xcell.2 = 0%Z) then mret tt
        else
          t1 ← get;
          b ← liftR (np_setitem (board t1)
                       (current_y t1 + Z.of_nat yrow.1)%Z
                       (current_x t1 + Z.of_nat xcell.1)%Z color);
          put (set_board b t1)))
  end.

(** [np.rot90(m, k=-1)]: the transpose with every row reversed. *)
Definition np_rot90_clockwise (m : shape) : shape :=
  let w := match m with [] => 0%nat | row :: _ => length row end in
  (fun j => rev ((fun row => nth j row 0%Z) <$> m)) <$> seq 0 w.

Definition rotate_piece : M TetrisGame unit :=
  t ← get;
  match current_piece t with
  | None => raise TypeError
  | Some (s, color) =>
    let rotated := np_rot90_clockwise s in
    let old_piece := current_piece t in
    modify (set_current_piece (Some (rotated, color)));;
    c ← collision;
    if (c : bool) then modify (set_current_piece old_piece) else mret tt
  end.

Definition move_piece (dx : Z) : M TetrisGame unit :=
  modify (fun t => set_current_x (current_x t + dx)%Z t);;
  c ← collision;
  if (c : bool) then modify (fun t => set_current_x (current_x t - dx)%Z t) else mret tt.

(** [new_piece] when the two calls of [random.randint] it may make return
    [i1] and [i2]. *)
Definition fill_next_piece (i1 : nat) : M TetrisGame unit :=
  t ← get;
  match next_piece t with
  | Some _ => mret tt
  | None => p ← liftR (random_piece i1); modify (set_next_piece (Some p))
  end.

Definition new_piece (i1 i2 : nat) : M TetrisGame unit :=
  fill_next_piece i1;;
  modify (fun t => set_current_piece (next_piece t) t);;
  p ← liftR (random_piece i2);
  modify (set_next_piece (Some p));;
  t1 ← get;
  match current_piece t1 with
  | None => raise TypeError
  | Some (s, _) =>
    let cols := match s with [] => 0%nat | row :: _ => length row end in
    modify (set_current_x (board_width t1 / 2 - Z.of_nat cols / 2)%Z);;
    modify (set_current_y 0%Z);;
    c ← collision;
    if (c : bool) then modify (set_game_over true) else mret tt
  end.

(** A row of the board with no blank in it. *)
Definition row_full (row : list string) : bool :=
  forallb (fun c => bool_decide (c ≠ " ")) row.

(** [np.vstack((a, b))]: the rows of both, which must be as wide. *)
Definition np_vstack (a b : ndarray) : result ndarray :=
  match a ++ b with
  | [] => Ok []
  | row :: rest =>
    if forallb (fun r => (length r =? length row)%nat) rest then Ok (row :: rest)
    else Raise ValueError
  end.

(** [clear_lines].  [np.sum] returns an [np.int64], and what is computed
    from it is an [np.int64] too: the sums and the product wrap, and
    [lines_cleared] and [score] are [np.int64] from the first cleared line
    on. *)
Definition clear_lines : M TetrisGame unit :=
  t ← get;
  let lines_to_clear := row_full <$> board t in
  let num_cleared := length (filter (fun b => b = true) lines_to_clear) in
  if decide (num_cleared = 0%nat) then mret tt
  else
    b ← liftR (np_vstack (np_full (num_cleared, Z.to_nat (board_width t)) " ")
                         (filter (fun row => row_full row = false) (board t)));
    modify (set_board b);;
    let n := wrap64 (Z.of_nat num_cleared) in
    lines ← liftR (as_int64 (lines_cleared t));
    modify (set_lines_cleared (wrap64 (lines + n)));;
    points ← liftR (as_int64 (score t));
    modify (set_score (wrap64 (points + wrap64 (wrap64 (n ^ 2) * 100))));;
    t1 ← get;
    let lvl := wrap64 (wrap64 (lines_cleared t1 / 10) + 1) in
    let interval := (1 - Z2float (wrap64 (lvl - 1)) * 0.1)%float in
    modify (set_level lvl (if (0.1 <? interval)%float then interval else 0.1%float)).

Definition drop_piece (i1 i2 : nat) : M TetrisGame unit :=
  modify (fun t => set_current_y (current_y t + 1)%Z t);;
  c ← collision;
  if (c : bool) then
    modify (fun t => set_current_y (current_y t - 1)%Z t);;
    merge_piece;;
    new_piece i1 i2;;
    clear_lines
  else mret tt.

(** The loop [while not self.collision(): ghost_y += 1] of [draw_board];
    the result is [None] when [fuel] runs out before it ends. *)
Fixpoint ghost_loop (fuel : nat) (ghost_y : Z) : M TetrisGame (option Z) :=
  match fuel with
  | O => mret None
  | S fuel' =>
    c ← collision;
    if (c : bool) then mret (Some ghost_y) else ghost_loop fuel' (ghost_y + 1)%Z
  end.

Definition set_subclass {G} (g : G) (e : TerminalEngine G) : TerminalEngine G :=
  {| width := width e; height := height e; buffer := buffer e;
     prevBuffer := prevBuffer e; running := running e; tickRate := tickRate e;
     maxFps := maxFps e; tickDuration := tickDuration e;
     frameDuration := frameDuration e; keysPressed := keysPressed e;
     keysReleased := keysReleased e; inputThread := inputThread e;
     oldSettings := oldSettings e; subclass := g |}.

(** A method that touches the attributes of the game only, run on the
    whole object. *)
Definition on_subclass {G A} (m : M G A) : M (TerminalEngine G) A :=
  fun e => let '(r, g) := m (subclass e) in (r, set_subclass g e).

(** The characters ["█"], ["·"] and ["□"]: one character each. *)
Definition FULL_BLOCK : string := String "219"%char EmptyString.
Definition MIDDLE_DOT : string := String "183"%char EmptyString.
Definition WHITE_SQUARE : string := String "254"%char EmptyString.

(** The two drawing loops of [draw_board]. *)
Definition draw_cells : M (TerminalEngine TetrisGame) unit :=
  e ← get;
  for_ (enumerate (board (subclass e))) (fun yrow =>
    for_ (enumerate yrow.2) (fun xcell =>
      if decide (xcell.2 ≠ " ")
      then draw_pixel (Z.of_nat xcell.1 + 1) (Z.of_nat yrow.1 + 1) FULL_BLOCK (Some xcell.2)
      else draw_pixel (Z.of_nat xcell.1 + 1) (Z.of_nat yrow.1 + 1) MIDDLE_DOT None)).

Definition draw_piece_and_ghost (s : shape) (color : string) (ghost_y : Z)
  : M (TerminalEngine TetrisGame) unit :=
  for_ (enumerate s) (fun yrow =>
    for_ (enumerate yrow.2) (fun xcell =>
      if decide (xcell.2 = 0%Z) then mret tt
      else
        e ← get;
        let t := subclass e in
        draw_pixel (current_x t + Z.of_nat xcell.1 + 1)%Z
                   (ghost_y + Z.of_nat yrow.1 + 1)%Z WHITE_SQUARE (Some color);;
        draw_pixel (current_x t + Z.of_nat xcell.1 + 1)%Z
                   (current_y t + Z.of_nat yrow.1 + 1)%Z FULL_BLOCK (Some color))).

(** [draw_board]; the result is [None] when [fuel] runs out in its
    [while] loop. *)
Definition draw_board (fuel : nat) : M (TerminalEngine TetrisGame) (option unit) :=
  draw_cells;;
  e ← get;
  match current_piece (subclass e) with
  | None => mret (Some tt)
  | Some (s, color) =>
    g ← on_subclass (ghost_loop fuel (current_y (subclass e)));
    match g with
    | None => mret None
    | Some ghost_y =>
      draw_piece_and_ghost s color (ghost_y - 1)%Z;;
      mret (Some tt)
    end
  end.

(** An integer array of [h] rows and [w] columns, and its entry at row
    [a], column [b]. *)
Definition is_array (h w : nat) (m : shape) : Prop :=
  length m = h ∧ Forall (fun row => length row = w) m.
Definition entry (m : shape) (a b : nat) : Z := nth b (nth a m []) 0%Z.

(** The board of a new game, and the predicate that a game has a board of
    the size it says. *)
Definition new_tetris : TetrisGame :=
  {| board_width := 10; board_height := 20;
     board := np_full (20%nat, 10%nat) " ";
     current_piece := None; next_piece := None;
     current_x := 0; current_y := 0;
     score := 0; level := 1; lines_cleared := 0;
     game_over := false; drop_interval := 1%float |}.

Definition board_ok (t : TetrisGame) : Prop :=
  has_shape (board t) (board_height t) (board_width t) ∧ (0 < board_width t)%Z.

(** A game in play: the T piece at the top of an empty board. *)
Definition tetris_T : TetrisGame :=
  set_current_x 3 (set_current_piece (Some ([[1; 1; 1]; [0; 1; 0]]%Z, ESC +:+ "[92m")) new_tetris).

(** The same with the bottom row of the board full. *)
Definition tetris_full_row : TetrisGame :=
  set_board (<[19%nat := replicate 10 ESC]> (board tetris_T)) tetris_T.

(** A 20×24 engine of the Tetris game with that piece in play. *)
Definition tetris_engine : TerminalEngine TetrisGame :=
  new_engine posix Cooked 20 24 60 60 tetris_T.

(** * Properties *)

(** ** The monad *)

Ltac munfold :=
  unfold mbind, M_bind, mret, M_ret, get, put, modify, liftR, raise, on_self.

Lemma for_nil {S A} (body : A -> M S unit) s : for_ [] body s = (Ok tt, s).
Proof. reflexivity. Qed.

Lemma for_cons {S A} (body : A -> M S unit) a l s :
  for_ (a :: l) body s =
  match body a s with
  | (Ok _, s1) => for_ l body s1
  | (Raise e, s1) => (Raise e, s1)
  end.
Proof. reflexivity. Qed.

Lemma for_app {S A} (body : A -> M S unit) l1 l2 s :
  for_ (l1 ++ l2) body s =
  match for_ l1 body s with
  | (Ok _, s1) => for_ l2 body s1
  | (Raise e, s1) => (Raise e, s1)
  end.
Proof.
  revert s. induction l1 as [|a l1 IH]; intros s; [reflexivity|].
  rewrite <- app_comm_cons, !for_cons.
  destruct (body a s) as [[[]|e] s1]; [apply IH|reflexivity].
Qed.

(** ** Arrays *)

Lemma np_index_in n i :
  (0 ≤ i < Z.of_nat n)%Z -> np_index n i = Some (Z.to_nat i).
Proof. intros H. unfold np_index. rewrite decide_True by done. done. Qed.

Lemma has_shape_row a h w r row :
  has_shape a h w -> a !! r = Some row -> Z.of_nat (length row) = w.
Proof.
  intros [_ Hrows] Hr. rewrite Forall_forall in Hrows.
  apply Hrows. eapply list_elem_of_lookup_2; eauto.
Qed.

Lemma has_shape_lookup a h w y :
  has_shape a h w -> (0 ≤ y < h)%Z -> ∃ row, a !! Z.to_nat y = Some row.
Proof.
  intros [Hh _] Hy. apply lookup_lt_is_Some. lia.
Qed.

Lemma np_getitem_in a h w y x :
  has_shape a h w -> (0 ≤ y < h)%Z -> (0 ≤ x < w)%Z ->
  np_getitem a y x = Ok (cell_at a (Z.to_nat y) (Z.to_nat x)).
Proof.
  intros Ha Hy Hx. destruct (has_shape_lookup _ _ _ _ Ha Hy) as [row Hrow].
  pose proof (has_shape_row _ _ _ _ _ Ha Hrow) as Hlen.
  unfold np_getitem, cell_at. destruct Ha as [Hh _].
  rewrite np_index_in by lia. rewrite Hrow. simpl.
  rewrite np_index_in by lia.
  destruct (lookup_lt_is_Some_2 row (Z.to_nat x)) as [v Hv]; [lia|].
  rewrite Hv. reflexivity.
Qed.

Lemma np_setitem_in a h w y x v :
  has_shape a h w -> (0 ≤ y < h)%Z -> (0 ≤ x < w)%Z ->
  ∃ row, a !! Z.to_nat y = Some row ∧
         np_setitem a y x v = Ok (<[Z.to_nat y := <[Z.to_nat x := U1 v]> row]> a).
Proof.
  intros Ha Hy Hx. destruct (has_shape_lookup _ _ _ _ Ha Hy) as [row Hrow].
  pose proof (has_shape_row _ _ _ _ _ Ha Hrow) as Hlen.
  exists row. split; [done|]. unfold np_setitem. destruct Ha as [Hh _].
  rewrite np_index_in by lia. rewrite Hrow.
  rewrite np_index_in by lia. reflexivity.
Qed.

Lemma has_shape_insert a h w r row c v :
  has_shape a h w -> a !! r = Some row ->
  has_shape (<[r := <[c := v]> row]> a) h w.
Proof.
  intros Ha Hrow. pose proof (has_shape_row _ _ _ _ _ Ha Hrow) as Hlen.
  destruct Ha as [Hh Hrows]. split.
  - rewrite length_insert. done.
  - apply Forall_insert; [done|]. rewrite length_insert. done.
Qed.

Lemma cell_at_insert (a : ndarray) r (row : list string) c v r' c' :
  a !! r = Some row -> (c < length row)%nat ->
  cell_at (<[r := <[c := v]> row]> a) r' c' =
  if decide (r' = r ∧ c' = c) then v else cell_at a r' c'.
Proof.
  intros Hrow Hc. unfold cell_at.
  assert (Hr : (r < length a)%nat) by (eapply lookup_lt_Some; eauto).
  destruct (decide (r' = r)) as [->|Hne].
  - rewrite list_lookup_insert_eq by done. simpl.
    destruct (decide (c' = c)) as [->|Hnc].
    + rewrite list_lookup_insert_eq by done. rewrite decide_True by done. done.
    + rewrite list_lookup_insert_ne by done. rewrite decide_False by tauto.
      rewrite Hrow. done.
  - rewrite list_lookup_insert_ne by done. rewrite decide_False by tauto. done.
Qed.

Lemma lookup2_insert (a : ndarray) r (row : list string) c v r' c' :
  a !! r = Some row -> (c < length row)%nat ->
  (<[r := <[c := v]> row]> a !! r' ≫= fun row' => row' !! c') =
  if decide (r' = r ∧ c' = c) then Some v else (a !! r' ≫= fun row' => row' !! c').
Proof.
  intros Hrow Hc.
  assert (Hr : (r < length a)%nat) by (eapply lookup_lt_Some; eauto).
  destruct (decide (r' = r)) as [->|Hne].
  - rewrite list_lookup_insert_eq by done. simpl.
    destruct (decide (c' = c)) as [->|Hnc].
    + rewrite list_lookup_insert_eq by done. rewrite decide_True by done. done.
    + rewrite list_lookup_insert_ne by done. rewrite decide_False by tauto.
      rewrite Hrow. done.
  - rewrite list_lookup_insert_ne by done. rewrite decide_False by tauto. done.
Qed.

Lemma U1_length s : (String.length (U1 s) ≤ 1)%nat.
Proof.
  destruct s as [|c s]; simpl; [lia|]. destruct (decide (c = NUL)); simpl; lia.
Qed.

Lemma U1_String c rest :
  U1 (String c rest) = if decide (c = NUL) then EmptyString else String c EmptyString.
Proof. reflexivity. Qed.

Lemma chars_get text : ∀ i a,
  String.get i text = Some a -> chars text !! i = Some (String a EmptyString).
Proof.
  induction text as [|b text IH]; intros [|i] a H; simpl in *; try done.
  - injection H as <-. done.
  - apply IH. exact H.
Qed.

Lemma length_chars text : length (chars text) = String.length text.
Proof. induction text; simpl; congruence. Qed.

(** ** Drawing *)

Section Drawing.
Context {G : Type}.
Implicit Types e : TerminalEngine G.

Lemma set_buffer_id e : set_buffer (buffer e) e = e.
Proof. destruct e; reflexivity. Qed.

Lemma drawPixel_out e x y char :
  ¬ in_bounds e x y -> drawPixel x y char e = (Ok tt, e).
Proof.
  intros H. unfold drawPixel. munfold.
  rewrite decide_False by exact H. reflexivity.
Qed.

Lemma drawPixel_in e x y char :
  shape_ok e -> in_bounds e x y ->
  ∃ b, drawPixel x y char e = (Ok tt, set_buffer b e) ∧
       has_shape b (height e) (width e) ∧
       ∀ r c, cell_at b r c =
              if decide (r = Z.to_nat y ∧ c = Z.to_nat x) then U1 char
              else cell_at (buffer e) r c.
Proof.
  intros [Hb _] Hin. pose proof Hin as [Hx Hy].
  destruct (np_setitem_in _ _ _ y x char Hb Hy Hx) as (row & Hrow & Hset).
  eexists. split; [|split].
  - unfold drawPixel. munfold. rewrite decide_True by exact Hin.
    rewrite Hset. reflexivity.
  - apply has_shape_insert; done.
  - intros r c. apply cell_at_insert; [done|].
    pose proof (has_shape_row _ _ _ _ _ Hb Hrow). lia.
Qed.

Lemma drawPixel_in_eq e x y char :
  shape_ok e -> in_bounds e x y ->
  ∃ row, buffer e !! Z.to_nat y = Some row ∧
         (Z.to_nat x < length row)%nat ∧
         drawPixel x y char e =
         (Ok tt, set_buffer (<[Z.to_nat y := <[Z.to_nat x := U1 char]> row]> (buffer e)) e).
Proof.
  intros [Hb _] Hin. pose proof Hin as [Hx Hy].
  destruct (np_setitem_in _ _ _ y x char Hb Hy Hx) as (row & Hrow & Hset).
  exists row. split; [exact Hrow|]. split.
  - pose proof (has_shape_row _ _ _ _ _ Hb Hrow). lia.
  - unfold drawPixel. munfold. rewrite decide_True by exact Hin.
    rewrite Hset. reflexivity.
Qed.

Lemma shape_ok_set_buffer e b :
  shape_ok e -> has_shape b (height e) (width e) -> shape_ok (set_buffer b e).
Proof. intros [_ Hp] Hb. split; [exact Hb|exact Hp]. Qed.

Lemma drawText_from x y cs : ∀ k e,
  shape_ok e ->
  ∃ b, for_ (enumerate_from k cs)
            (fun ic => drawPixel (x + Z.of_nat ic.1) y ic.2) e
       = (Ok tt, set_buffer b e) ∧
       has_shape b (height e) (width e) ∧
       ∀ cx cy, in_bounds e cx cy ->
         cell_at b (Z.to_nat cy) (Z.to_nat cx) =
         if decide (cy = y ∧ x + Z.of_nat k ≤ cx < x + Z.of_nat k + Z.of_nat (length cs))%Z
         then U1 (default EmptyString (cs !! Z.to_nat (cx - x - Z.of_nat k)))
         else cell_at (buffer e) (Z.to_nat cy) (Z.to_nat cx).
Proof.
  induction cs as [|c cs IH]; intros k e Hok.
  - exists (buffer e). rewrite set_buffer_id. split; [reflexivity|].
    split; [apply Hok|]. intros cx cy _. simpl.
    rewrite decide_False by lia. reflexivity.
  - simpl enumerate_from. rewrite for_cons. simpl fst. simpl snd.
    destruct (decide (in_bounds e (x + Z.of_nat k) y)) as [Hin|Hout].
    + destruct (drawPixel_in e _ _ c Hok Hin) as (b1 & -> & Hs1 & Hc1).
      assert (Hok1 : shape_ok (set_buffer b1 e)) by (split; [exact Hs1|apply Hok]).
      destruct (IH (S k) _ Hok1) as (b2 & Hrun & Hs2 & Hc2).
      exists b2. split; [exact Hrun|]. split; [exact Hs2|].
      intros cx cy Hcell. rewrite (Hc2 cx cy Hcell). simpl buffer. rewrite Hc1.
      destruct Hin as [Hx Hy]. destruct Hcell as [Hcx Hcy]. simpl length.
      repeat case_decide; try lia.
      * replace (Z.to_nat (cx - x - Z.of_nat k)) with (S (Z.to_nat (cx - x - Z.of_nat (S k)))) by lia.
        reflexivity.
      * replace (Z.to_nat (cx - x - Z.of_nat k)) with 0%nat by lia. reflexivity.
      * reflexivity.
    + rewrite (drawPixel_out e _ _ c Hout).
      destruct (IH (S k) _ Hok) as (b2 & Hrun & Hs2 & Hc2).
      exists b2. split; [exact Hrun|]. split; [exact Hs2|].
      intros cx cy Hcell. rewrite (Hc2 cx cy Hcell).
      destruct Hcell as [Hcx Hcy]. simpl length. unfold in_bounds in Hout.
      repeat case_decide; try lia.
      * replace (Z.to_nat (cx - x - Z.of_nat k)) with (S (Z.to_nat (cx - x - Z.of_nat (S k)))) by lia.
        reflexivity.
      * reflexivity.
Qed.

Lemma drawText_all_out x y cs : ∀ k e,
  (∀ i, (i < length cs)%nat -> ¬ in_bounds e (x + Z.of_nat (k + i)) y) ->
  for_ (enumerate_from k cs)
       (fun ic => drawPixel (x + Z.of_nat ic.1) y ic.2) e = (Ok tt, e).
Proof.
  induction cs as [|c cs IH]; intros k e Hout; [reflexivity|].
  simpl enumerate_from. rewrite for_cons. simpl fst. simpl snd.
  rewrite drawPixel_out.
  - apply IH. intros i Hi. replace (S k + i)%nat with (k + S i)%nat by lia.
    apply Hout. simpl. lia.
  - replace k with (k + 0)%nat by lia. apply Hout. simpl. lia.
Qed.

End Drawing.

Lemma shape_ok_new_engine {G} env attrs w h rate fps (g : G) :
  (0 ≤ w)%Z -> (0 ≤ h)%Z -> shape_ok (new_engine env attrs w h rate fps g).
Proof.
  intros Hw Hh.
  assert (Hs : has_shape (np_full (Z.to_nat h, Z.to_nat w) " ") h w).
  { unfold has_shape, np_full. cbn [fst snd]. split.
    - rewrite length_replicate. lia.
    - apply Forall_replicate. rewrite length_replicate. lia. }
  split; exact Hs.
Qed.

Lemma shape_ok_engine10x4 : shape_ok engine10x4.
Proof. apply shape_ok_new_engine; lia. Defined.

(** C4.  Drawing out of bounds is a silent no-op.  On an engine whose grids
    have its dimensions: [drawPixel] at a position outside
    [[0,width) × [0,height)] returns without raising and leaves the whole
    engine, both grids included, as it was; [drawText] never raises, does
    not touch [prevBuffer], writes every character that falls in bounds at
    its position (the cell then reads as that character, and as the empty
    string when the character is NUL), leaves every other cell of
    [buffer] as it was, and changes nothing at all when all of its
    characters fall out of bounds. *)
Theorem out_of_bounds_drawing_is_silent {G} (e : TerminalEngine G)
  (x y : Z) (char text : string) :
  shape_ok e ->
  (¬ in_bounds e x y -> drawPixel x y char e = (Ok tt, e)) ∧
  ((∀ i, (i < String.length text)%nat -> ¬ in_bounds e (x + Z.of_nat i) y) ->
   drawText x y text e = (Ok tt, e)) ∧
  ∃ e', drawText x y text e = (Ok tt, e') ∧
        e' = set_buffer (buffer e') e ∧
        prevBuffer e' = prevBuffer e ∧
        shape_ok e' ∧
        (∀ i a, String.get i text = Some a -> in_bounds e (x + Z.of_nat i) y ->
                let stored := if decide (a = NUL) then EmptyString
                              else String a EmptyString in
                np_getitem (buffer e') y (x + Z.of_nat i) = Ok stored ∧
                (buffer e' !! Z.to_nat y ≫= fun row => row !! Z.to_nat (x + Z.of_nat i))
                = Some stored) ∧
        (∀ cx cy, in_bounds e cx cy ->
                  ¬ (cy = y ∧ x ≤ cx < x + Z.of_nat (String.length text))%Z ->
                  np_getitem (buffer e') cy cx = np_getitem (buffer e) cy cx).
Proof.
  intros Hok. split; [apply drawPixel_out|]. split.
  - intros Hout. unfold drawText, enumerate. apply drawText_all_out.
    intros i Hi. rewrite length_chars in Hi. simpl. auto.
  - destruct (drawText_from x y (chars text) 0 e Hok) as (b & Hrun & Hs & Hc).
    exists (set_buffer b e). split; [exact Hrun|].
    split; [reflexivity|]. split; [reflexivity|].
    split; [split; [exact Hs|apply Hok]|]. simpl buffer. split.
    + intros i a Hi Hin stored. pose proof Hin as [Hx Hy].
      apply chars_get in Hi. apply lookup_lt_Some in Hi as Hlt.
      assert (Hcell : cell_at b (Z.to_nat y) (Z.to_nat (x + Z.of_nat i)) = stored).
      { rewrite (Hc _ _ Hin). rewrite decide_True by lia.
        replace (Z.to_nat (x + Z.of_nat i - x - Z.of_nat 0)) with i by lia.
        rewrite Hi. reflexivity. }
      split; [rewrite (np_getitem_in _ _ _ _ _ Hs Hy Hx), Hcell; reflexivity|].
      destruct (has_shape_lookup _ _ _ _ Hs Hy) as [row Hrow].
      pose proof (has_shape_row _ _ _ _ _ Hs Hrow) as Hlen.
      destruct (lookup_lt_is_Some_2 row (Z.to_nat (x + Z.of_nat i))) as [v Hv]; [lia|].
      unfold cell_at in Hcell. rewrite Hrow in Hcell |- *. simpl in Hcell |- *.
      rewrite Hv in Hcell |- *. simpl in Hcell. congruence.
    + intros cx cy Hin Hne. pose proof Hin as [Hx Hy].
      rewrite (np_getitem_in _ _ _ _ _ Hs Hy Hx), (Hc _ _ Hin).
      rewrite length_chars. rewrite decide_False by lia.
      destruct Hok as [Hb _]. rewrite (np_getitem_in _ _ _ _ _ Hb Hy Hx).
      reflexivity.
Qed.

Lemma out_of_bounds_drawing_is_silent_witness :
  shape_ok engine10x4 ∧
  (¬ in_bounds engine10x4 (-2) 1 ->
   drawPixel (-2) 1 "@" engine10x4 = (Ok tt, engine10x4)) ∧
  ((∀ i, (i < String.length "abcd")%nat -> ¬ in_bounds engine10x4 (-2 + Z.of_nat i) 1) ->
   drawText (-2) 1 "abcd" engine10x4 = (Ok tt, engine10x4)) ∧
  ∃ e', drawText (-2) 1 "abcd" engine10x4 = (Ok tt, e') ∧
        e' = set_buffer (buffer e') engine10x4 ∧
        prevBuffer e' = prevBuffer engine10x4 ∧
        shape_ok e' ∧
        (∀ i a, String.get i "abcd" = Some a -> in_bounds engine10x4 (-2 + Z.of_nat i) 1 ->
                let stored := if decide (a = NUL) then EmptyString
                              else String a EmptyString in
                np_getitem (buffer e') 1 (-2 + Z.of_nat i) = Ok stored ∧
                (buffer e' !! Z.to_nat 1 ≫= fun row => row !! Z.to_nat (-2 + Z.of_nat i))
                = Some stored) ∧
        (∀ cx cy, in_bounds engine10x4 cx cy ->
                  ¬ (cy = 1 ∧ -2 ≤ cx < -2 + Z.of_nat (String.length "abcd"))%Z ->
                  np_getitem (buffer e') cy cx = np_getitem (buffer engine10x4) cy cx).
Proof.
  split; [exact shape_ok_engine10x4|].
  exact (out_of_bounds_drawing_is_silent engine10x4 (-2) 1 "@" "abcd" shape_ok_engine10x4).
Defined.

(** A text that starts two columns left of the grid and one that ends two
    columns right of it lose the two characters outside; a text wholly
    outside changes nothing; a NUL character in bounds leaves a cell that
    reads as the empty string. *)
Example drawText_clips :
  (buffer (drawText (-2) 1 "abcd" engine10x4).2 !! 1%nat
   = Some ["c"; "d"; " "; " "; " "; " "; " "; " "; " "; " "]) ∧
  (buffer (drawText 8 1 "abcd" engine10x4).2 !! 1%nat
   = Some [" "; " "; " "; " "; " "; " "; " "; " "; "a"; "b"]) ∧
  drawText 10 1 "abcd" engine10x4 = (Ok tt, engine10x4) ∧
  drawText 3 (-1) "abcd" engine10x4 = (Ok tt, engine10x4) ∧
  (buffer (drawText 0 0 (String "a" (String NUL (String "b" EmptyString))) engine10x4).2
     !! 0%nat
   = Some ["a"; EmptyString; "b"; " "; " "; " "; " "; " "; " "; " "]).
Proof. vm_compute. repeat split. Qed.

(** C9.  An in-bounds [drawPixel] with a string of several characters
    stores its first character alone: the call returns, the cell reads as
    the one-character string made of that character (as the empty string
    when that character is NUL, which a cell holds as no character), no
    other cell of [buffer] changes, and [prevBuffer] is left alone. *)
Theorem drawPixel_keeps_first_character {G} (e : TerminalEngine G)
  (x y : Z) (c : ascii) (rest : string) :
  shape_ok e -> in_bounds e x y ->
  let stored := if decide (c = NUL) then EmptyString else String c EmptyString in
  ∃ e', drawPixel x y (String c rest) e = (Ok tt, e') ∧
        np_getitem (buffer e') y x = Ok stored ∧
        (buffer e' !! Z.to_nat y ≫= fun row => row !! Z.to_nat x) = Some stored ∧
        (∀ r k, (r, k) ≠ (Z.to_nat y, Z.to_nat x) ->
                (buffer e' !! r ≫= fun row => row !! k)
                = (buffer e !! r ≫= fun row => row !! k)) ∧
        prevBuffer e' = prevBuffer e ∧ shape_ok e'.
Proof.
  intros Hok Hin stored.
  destruct (drawPixel_in_eq e x y (String c rest) Hok Hin) as (row & Hrow & Hlen & Hrun).
  eexists. split; [exact Hrun|]. simpl buffer. simpl prevBuffer.
  rewrite U1_String. fold stored.
  assert (Hs : has_shape (<[Z.to_nat y := <[Z.to_nat x := stored]> row]> (buffer e))
                 (height e) (width e))
    by (apply has_shape_insert; [apply Hok|exact Hrow]).
  split.
  { destruct Hin as [Hx Hy]. rewrite (np_getitem_in _ _ _ _ _ Hs Hy Hx).
    rewrite (cell_at_insert _ _ _ _ _ _ _ Hrow Hlen), decide_True by done.
    reflexivity. }
  split.
  { rewrite (lookup2_insert _ _ _ _ _ _ _ Hrow Hlen), decide_True by done.
    reflexivity. }
  split.
  { intros r k Hne. rewrite (lookup2_insert _ _ _ _ _ _ _ Hrow Hlen).
    rewrite decide_False; [reflexivity|]. intros [-> ->]. apply Hne. reflexivity. }
  split; [reflexivity|]. apply shape_ok_set_buffer; [exact Hok|exact Hs].
Qed.

Lemma in_bounds_engine10x4_2_1 : in_bounds engine10x4 2 1.
Proof. unfold in_bounds. simpl. lia. Defined.

Lemma drawPixel_keeps_first_character_witness :
  shape_ok engine10x4 ∧ in_bounds engine10x4 2 1 ∧
  let stored := if decide ("@"%char = NUL) then EmptyString else String "@" EmptyString in
  ∃ e', drawPixel 2 1 "@#" engine10x4 = (Ok tt, e') ∧
        np_getitem (buffer e') 1 2 = Ok stored ∧
        (buffer e' !! Z.to_nat 1 ≫= fun row => row !! Z.to_nat 2) = Some stored ∧
        (∀ r k, (r, k) ≠ (Z.to_nat 1, Z.to_nat 2) ->
                (buffer e' !! r ≫= fun row => row !! k)
                = (buffer engine10x4 !! r ≫= fun row => row !! k)) ∧
        prevBuffer e' = prevBuffer engine10x4 ∧ shape_ok e'.
Proof.
  split; [exact shape_ok_engine10x4|]. split; [exact in_bounds_engine10x4_2_1|].
  exact (drawPixel_keeps_first_character engine10x4 2 1 "@"%char "#"
           shape_ok_engine10x4 in_bounds_engine10x4_2_1).
Defined.

(** [drawPixel(2, 1, "@#")] leaves ["@"] in the cell, and a string that
    starts with NUL leaves a cell that reads as the empty string. *)
Example drawPixel_truncates :
  np_getitem (buffer (drawPixel 2 1 "@#" engine10x4).2) 1 2 = Ok "@" ∧
  np_getitem (buffer (drawPixel 2 1 (String NUL "x") engine10x4).2) 1 2 = Ok EmptyString.
Proof. vm_compute. split; reflexivity. Qed.

(** ** Keys *)

Lemma inputHandler_read_pressed {G} (e : TerminalEngine G) (key : string) :
  ∃ e', inputHandler_read key e = (Ok tt, e') ∧ isKeyPressed e' (lower key) = true.
Proof.
  eexists. split; [reflexivity|]. unfold isKeyPressed. simpl.
  apply bool_decide_eq_true. set_solver.
Qed.

(** C3.  A key surfaces for one rotation window.  A key of [keysPressed]
    is reported pressed; after one [clearKeyStates] it is no longer
    pressed and is reported released; after a second one it is neither,
    and both sets are empty. *)
Theorem key_surfaces_for_one_rotation {G} (e : TerminalEngine G) (k : string) :
  k ∈ keysPressed e ->
  isKeyPressed e k = true ∧
  ∃ e1 e2,
    clearKeyStates e = (Ok tt, e1) ∧
    isKeyPressed e1 k = false ∧ isKeyReleased e1 k = true ∧
    clearKeyStates e1 = (Ok tt, e2) ∧
    isKeyPressed e2 k = false ∧ isKeyReleased e2 k = false ∧
    keysPressed e2 = ∅ ∧ keysReleased e2 = ∅.
Proof.
  intros Hk. split; [apply bool_decide_eq_true; exact Hk|].
  eexists _, _. split; [reflexivity|]. unfold isKeyPressed, isKeyReleased. simpl.
  split; [apply bool_decide_eq_false; set_solver|].
  split; [apply bool_decide_eq_true; exact Hk|].
  split; [reflexivity|]. simpl.
  split; [apply bool_decide_eq_false; set_solver|].
  split; [apply bool_decide_eq_false; set_solver|].
  split; reflexivity.
Qed.

Lemma q_pressed : "q" ∈ keysPressed engine_q.
Proof. simpl. set_solver. Defined.

Lemma key_surfaces_for_one_rotation_witness :
  "q" ∈ keysPressed engine_q ∧
  isKeyPressed engine_q "q" = true ∧
  ∃ e1 e2,
    clearKeyStates engine_q = (Ok tt, e1) ∧
    isKeyPressed e1 "q" = false ∧ isKeyReleased e1 "q" = true ∧
    clearKeyStates e1 = (Ok tt, e2) ∧
    isKeyPressed e2 "q" = false ∧ isKeyReleased e2 "q" = false ∧
    keysPressed e2 = ∅ ∧ keysReleased e2 = ∅.
Proof.
  split; [exact q_pressed|].
  exact (key_surfaces_for_one_rotation engine_q "q" q_pressed).
Defined.

(** ** The cells [render] visits *)

Lemma elem_of_true_at row : ∀ k x,
  x ∈ true_at k row ↔ ∃ i, x = (k + i)%nat ∧ row !! i = Some true.
Proof.
  induction row as [|b row IH]; intros k x; simpl.
  - split; [intros H; inversion H|intros (i & _ & H); done].
  - rewrite elem_of_app, IH. split.
    + intros [H|(i & -> & Hi)].
      * destruct b; [|inversion H]. apply list_elem_of_singleton in H as ->.
        exists 0%nat. split; [lia|done].
      * exists (S i). split; [lia|done].
    + intros ([|i] & -> & Hi); simpl in Hi.
      * left. injection Hi as ->. rewrite Nat.add_0_r. apply list_elem_of_singleton. done.
      * right. exists i. split; [lia|done].
Qed.

Lemma true_at_sorted row : ∀ k, StronglySorted lt (true_at k row).
Proof.
  induction row as [|b row IH]; intros k; simpl; [constructor|].
  apply StronglySorted_app_2.
  - intros x1 x2 H1 H2. destruct b; [|inversion H1].
    apply list_elem_of_singleton in H1 as ->.
    apply elem_of_true_at in H2 as (i & -> & _). lia.
  - destruct b; repeat constructor.
  - apply IH.
Qed.

Lemma elem_of_nonzero_from d : ∀ k y x,
  (y, x) ∈ nonzero_from k d ↔
  ∃ i row, y = (k + i)%nat ∧ d !! i = Some row ∧ row !! x = Some true.
Proof.
  induction d as [|row d IH]; intros k y x; simpl.
  - split; [intros H; inversion H|intros (i & r & _ & H & _); done].
  - rewrite elem_of_app, IH, list_elem_of_fmap. split.
    + intros [(x' & Heq & Hx)|(i & r & -> & Hi & Hr)].
      * injection Heq as -> ->. apply elem_of_true_at in Hx as (j & -> & Hj).
        exists 0%nat, row. split; [lia|]. split; done.
      * exists (S i), r. split; [lia|]. split; done.
    + intros ([|i] & r & -> & Hi & Hr); simpl in Hi.
      * left. injection Hi as ->. exists x. split; [f_equal; lia|].
        apply elem_of_true_at. exists x. split; done.
      * right. exists i, r. split; [lia|]. split; done.
Qed.

Lemma nonzero_from_sorted d : ∀ k, StronglySorted row_major (nonzero_from k d).
Proof.
  induction d as [|row d IH]; intros k; simpl; [constructor|].
  apply StronglySorted_app_2.
  - intros [y1 x1] [y2 x2] H1 H2. left. simpl.
    apply list_elem_of_fmap in H1 as (x' & Heq & _). injection Heq as -> ->.
    apply elem_of_nonzero_from in H2 as (i & r & -> & _). lia.
  - apply (StronglySorted_fmap _ lt); [|apply true_at_sorted].
    intros a b Hab. right. simpl. done.
  - apply IH.
Qed.

Lemma nonzero_from_refl (a : ndarray) : ∀ k, nonzero_from k (np_ne a a) = [].
Proof.
  assert (Hrow : ∀ (row : list string) k,
    true_at k (zip_with (fun s t => bool_decide (s ≠ t)) row row) = []).
  { induction row as [|c row IH]; intros k; simpl; [done|].
    rewrite bool_decide_eq_false_2 by (intros H; apply H; reflexivity).
    apply IH. }
  unfold np_ne. induction a as [|row a IH]; intros k; simpl; [done|].
  rewrite Hrow, IH. done.
Qed.

Section Changed.
Context {G : Type}.
Implicit Types e : TerminalEngine G.

Lemma changed_nonzero e :
  changed e = nonzero_from 0 (np_ne (buffer e) (prevBuffer e)).
Proof. unfold changed, np_where. apply zip_fst_snd. Qed.

Lemma elem_of_changed e y x : (y, x) ∈ changed e ↔ differs e y x.
Proof.
  rewrite changed_nonzero, elem_of_nonzero_from. unfold differs, np_ne. split.
  - intros (i & row & -> & Hrow & Hx). simpl.
    apply lookup_zip_with_Some in Hrow as (ra & rb & -> & Ha & Hb).
    apply lookup_zip_with_Some in Hx as (c & p & Hne & Hc & Hp).
    exists c, p. rewrite Ha, Hb. simpl. split; [done|]. split; [done|].
    symmetry in Hne. apply bool_decide_eq_true in Hne. done.
  - intros (c & p & Hc & Hp & Hne).
    destruct (buffer e !! y) as [ra|] eqn:Ha; [|done].
    destruct (prevBuffer e !! y) as [rb|] eqn:Hb; [|done].
    simpl in Hc, Hp. exists y, (zip_with (fun s t => bool_decide (s ≠ t)) ra rb).
    split; [done|]. split.
    + apply lookup_zip_with_Some. exists ra, rb. done.
    + apply lookup_zip_with_Some. exists c, p. split; [|done].
      symmetry. apply bool_decide_eq_true. done.
Qed.

Lemma changed_sorted e : StronglySorted row_major (changed e).
Proof. rewrite changed_nonzero. apply nonzero_from_sorted. Qed.

Lemma changed_same e : prevBuffer e = buffer e -> changed e = [].
Proof. intros H. rewrite changed_nonzero, H. apply nonzero_from_refl. Qed.

Lemma getitem_changed e y x :
  (y, x) ∈ changed e ->
  np_getitem (buffer e) (Z.of_nat y) (Z.of_nat x) = Ok (cell_at (buffer e) y x).
Proof.
  intros (c & p & Hc & _)%elem_of_changed.
  destruct (buffer e !! y) as [row|] eqn:Hrow; [|done]. simpl in Hc.
  unfold np_getitem, cell_at.
  rewrite np_index_in by (apply lookup_lt_Some in Hrow; lia).
  rewrite Nat2Z.id, Hrow. simpl.
  rewrite np_index_in by (apply lookup_lt_Some in Hc; lia).
  rewrite Nat2Z.id, Hc. done.
Qed.

End Changed.

(** ** The terminal reads back what [render] writes *)

Lemma span_digits_uint u ch rest :
  is_digit ch = false ->
  span_digits (NilEmpty.string_of_uint u +:+ String ch rest)
  = (NilEmpty.string_of_uint u, String ch rest).
Proof.
  intros Hch. induction u; simpl; rewrite ?Hch, ?IHu; reflexivity.
Qed.

Lemma to_uint_not_nil n : Nat.to_uint n ≠ Nil.
Proof.
  intros H. pose proof (DecimalNat.Unsigned.to_of (Nat.to_uint n)) as Hn.
  rewrite DecimalNat.Unsigned.of_to, H in Hn. discriminate Hn.
Qed.

Lemma read_number_str n ch rest :
  is_digit ch = false ->
  read_number (str_of_nat n +:+ String ch rest) = Some (n, String ch rest).
Proof.
  intros Hch. unfold read_number, str_of_nat. rewrite span_digits_uint by done.
  rewrite NilEmpty.usu, DecimalNat.Unsigned.of_to.
  destruct (Nat.to_uint n) eqn:Hn; try reflexivity.
  exfalso. eapply to_uint_not_nil; eauto.
Qed.

Lemma parse_cup_cell_text y x cell :
  parse_cup (cell_text y x cell) = Some ((y + 1)%nat, (x + 1)%nat, cell).
Proof.
  change (cell_text y x cell) with
    (String "027" (String "[" (str_of_nat (y + 1) +:+
       String ";" (str_of_nat (x + 1) +:+ String "H" cell)))).
  simpl.
  rewrite (read_number_str (y + 1) ";") by reflexivity.
  rewrite (read_number_str (x + 1) "H") by reflexivity.
  reflexivity.
Qed.

(** ** [render] *)

Lemma StronglySorted_lookup {A} (R : relation A) (l : list A) :
  StronglySorted R l ->
  ∀ i j a b, (i < j)%nat -> l !! i = Some a -> l !! j = Some b -> R a b.
Proof.
  induction 1 as [|x l Hs IH Hx]; intros i j a b Hij Hi Hj; [done|].
  destruct j as [|j]; [lia|]. simpl in Hj. destruct i as [|i]; simpl in Hi.
  - injection Hi as <-. rewrite Forall_forall in Hx. apply Hx.
    eapply list_elem_of_lookup_2; eauto.
  - eapply (IH i j); eauto. lia.
Qed.

Lemma set_prevBuffer_same {G} (e : TerminalEngine G) :
  prevBuffer e = buffer e -> set_prevBuffer (buffer e) e = e.
Proof. destruct e; simpl; intros ->; reflexivity. Qed.

Lemma with_self_id {G} (w : World G) : with_self (self w) w = w.
Proof. destruct w; reflexivity. Qed.

Section Render.
Context {G : Type} (env : Env).
Implicit Types w : World G.

(** What the loop of [render] leaves alone, and what it appends. *)
Lemma for_write_cells (l : list (nat * nat)) : ∀ w r w',
  (∀ yx, yx ∈ l ->
     np_getitem (buffer (self w)) (Z.of_nat yx.1) (Z.of_nat yx.2)
     = Ok (cell_at (buffer (self w)) yx.1 yx.2)) ->
  for_ l (write_cell env) w = (r, w') ->
  self w' = self w ∧ tty w' = tty w ∧ captureAlive w' = captureAlive w ∧
  atexitHandlers w' = atexitHandlers w ∧ clockReads w' = clockReads w ∧
  updateCalls w' = updateCalls w ∧
  let texts :=
    (fun yx => cell_text yx.1 yx.2 (cell_at (buffer (self w)) yx.1 yx.2)) <$> l in
  match r with
  | Ok _ => stdout w' = stdout w ++ texts
  | Raise e =>
    e = UnicodeEncodeError ∧
    ∃ n s, stdout w' = stdout w ++ take n texts ∧
           texts !! n = Some s ∧ encodable env s = false
  end.
Proof.
  induction l as [|yx l IH]; intros w r w' Hget Hrun.
  - rewrite for_nil in Hrun. injection Hrun as <- <-. simpl.
    rewrite app_nil_r. done.
  - rewrite for_cons in Hrun.
    unfold write_cell, mbind, M_bind, get, liftR in Hrun.
    rewrite (Hget yx) in Hrun by (left).
    unfold sys_stdout_write in Hrun.
    destruct (encodable env _) eqn:Henc.
    + apply IH in Hrun; [|intros p Hp; apply Hget; right; exact Hp].
      simpl in Hrun. destruct Hrun as (-> & -> & -> & -> & -> & -> & Hout).
      repeat (split; [reflexivity|]). destruct r as [[]|e].
      * simpl. rewrite Hout, <- app_assoc. reflexivity.
      * destruct Hout as (-> & n & s & Hout & Hn & Hs). split; [reflexivity|].
        exists (S n), s. simpl. rewrite Hout, <- app_assoc. done.
    + injection Hrun as <- <-. repeat (split; [reflexivity|]).
      eexists 0%nat, _. simpl. rewrite app_nil_r.
      split; [reflexivity|]. split; [reflexivity|exact Henc].
Qed.

Lemma for_write_cells_returns (l : list (nat * nat)) : ∀ w,
  (∀ yx, yx ∈ l ->
     np_getitem (buffer (self w)) (Z.of_nat yx.1) (Z.of_nat yx.2)
     = Ok (cell_at (buffer (self w)) yx.1 yx.2)) ->
  (∀ yx, yx ∈ l ->
     encodable env (cell_text yx.1 yx.2 (cell_at (buffer (self w)) yx.1 yx.2)) = true) ->
  ∃ w', for_ l (write_cell env) w = (Ok tt, w').
Proof.
  induction l as [|yx l IH]; intros w Hget Henc; [eexists; reflexivity|].
  rewrite for_cons. unfold write_cell, mbind, M_bind, get, liftR.
  rewrite (Hget yx) by (left). unfold sys_stdout_write.
  rewrite (Henc yx) by (left). apply IH; simpl; intros p Hp.
  - apply Hget. right. exact Hp.
  - apply Henc. right. exact Hp.
Qed.

Lemma render_unfold w :
  render env w =
  match for_ (changed (self w)) (write_cell env) w with
  | (Ok _, w1) => (Ok tt, with_self (set_prevBuffer (buffer (self w1)) (self w1)) w1)
  | (Raise e, w1) => (Raise e, w1)
  end.
Proof.
  unfold render, changed. munfold.
  destruct (np_where _) as [ys xs].
  destruct (for_ _ _ w) as [[[]|e] w1]; reflexivity.
Qed.

Lemma render_frame w r w' :
  render env w = (r, w') ->
  tty w' = tty w ∧ captureAlive w' = captureAlive w ∧
  atexitHandlers w' = atexitHandlers w ∧ clockReads w' = clockReads w ∧
  updateCalls w' = updateCalls w ∧
  match r with
  | Ok _ =>
    self w' = set_prevBuffer (buffer (self w)) (self w) ∧
    stdout w' = stdout w ++ written (self w)
  | Raise e =>
    self w' = self w ∧ e = UnicodeEncodeError ∧
    ∃ n s, stdout w' = stdout w ++ take n (written (self w)) ∧
           written (self w) !! n = Some s ∧ encodable env s = false
  end.
Proof.
  rewrite render_unfold. intros Hrun.
  destruct (for_ _ _ w) as [r1 w1] eqn:Hloop.
  apply for_write_cells in Hloop; [|intros [y x] Hyx; apply getitem_changed; exact Hyx].
  destruct Hloop as (Hs & Ht & Hc & Ha & Hk & Hu & Hout).
  destruct r1 as [[]|e]; injection Hrun as <- <-; simpl.
  - repeat (split; [assumption|]). rewrite Hs. split; [reflexivity|exact Hout].
  - repeat (split; [assumption|]). exact Hout.
Qed.

Lemma render_returns w :
  (∀ s, s ∈ written (self w) -> encodable env s = true) ->
  ∃ w', render env w = (Ok tt, w').
Proof.
  intros Henc. rewrite render_unfold.
  destruct (for_write_cells_returns (changed (self w)) w) as [w1 ->].
  - intros [y x] Hyx. apply getitem_changed. exact Hyx.
  - intros yx Hyx. apply Henc. unfold written.
    apply list_elem_of_fmap. exists yx. split; [reflexivity|exact Hyx].
  - eexists. reflexivity.
Qed.

Lemma render_same w :
  prevBuffer (self w) = buffer (self w) -> render env w = (Ok tt, w).
Proof.
  intros Hsame. rewrite render_unfold, (changed_same _ Hsame), for_nil.
  rewrite (set_prevBuffer_same _ Hsame), with_self_id. reflexivity.
Qed.

End Render.

Lemma StronglySorted_NoDup {A} (R : relation A) (l : list A) :
  (∀ a, ¬ R a a) -> StronglySorted R l -> NoDup l.
Proof.
  intros Hirr. induction 1 as [|x l Hs IH Hx]; constructor; [|exact IH].
  intros Hin. rewrite Forall_forall in Hx. exact (Hirr x (Hx x Hin)).
Qed.

Lemma row_major_irrefl p : ¬ row_major p p.
Proof. unfold row_major. lia. Qed.

Lemma render_world_at : render posix world_at = (Ok tt, world_at_rendered).
Proof. vm_compute. reflexivity. Defined.

(** X1.  When [render] returns, what it has appended to [sys.stdout] is one
    text per cell in which [buffer] and [prevBuffer] differ, each such cell
    once and no other; [buffer] is as before, [prevBuffer] is a copy of it,
    and rendering again writes nothing and changes nothing. *)
Theorem render_writes_the_difference {G} (env : Env) (w w' : World G) :
  render env w = (Ok tt, w') ->
  stdout w' = stdout w ++ written (self w) ∧
  (∀ y x, (y, x) ∈ changed (self w) ↔ differs (self w) y x) ∧
  NoDup (changed (self w)) ∧
  buffer (self w') = buffer (self w) ∧
  prevBuffer (self w') = buffer (self w) ∧
  render env w' = (Ok tt, w').
Proof.
  intros Hrun. apply render_frame in Hrun as (_ & _ & _ & _ & _ & Hs & Hout).
  split; [exact Hout|]. split; [intros y x; apply elem_of_changed|].
  split; [eapply StronglySorted_NoDup; [apply row_major_irrefl|apply changed_sorted]|].
  rewrite Hs. split; [reflexivity|]. split; [reflexivity|].
  apply render_same. rewrite Hs. reflexivity.
Qed.

Lemma render_writes_the_difference_witness :
  render posix world_at = (Ok tt, world_at_rendered) ∧
  stdout world_at_rendered = stdout world_at ++ written (self world_at) ∧
  (∀ y x, (y, x) ∈ changed (self world_at) ↔ differs (self world_at) y x) ∧
  NoDup (changed (self world_at)) ∧
  buffer (self world_at_rendered) = buffer (self world_at) ∧
  prevBuffer (self world_at_rendered) = buffer (self world_at) ∧
  render posix world_at_rendered = (Ok tt, world_at_rendered).
Proof.
  split; [exact render_world_at|].
  exact (render_writes_the_difference posix world_at world_at_rendered render_world_at).
Defined.

(** X2.  Read as a terminal reads them, the texts [render] writes are, in
    order, one cursor-position command per visited cell, addressing the
    cell at row [y] and column [x] of the grid as row [y + 1] and column
    [x + 1], followed by the content of that cell and nothing else. *)
Theorem render_texts_are_cursor_moves {G} (env : Env) (w w' : World G) :
  render env w = (Ok tt, w') ->
  ∃ texts,
    stdout w' = stdout w ++ texts ∧
    parse_cup <$> texts =
    (fun yx => Some ((yx.1 + 1)%nat, (yx.2 + 1)%nat,
                     cell_at (buffer (self w)) yx.1 yx.2)) <$> changed (self w).
Proof.
  intros Hrun. apply render_frame in Hrun as (_ & _ & _ & _ & _ & _ & Hout).
  exists (written (self w)). split; [exact Hout|]. unfold written.
  rewrite <- list_fmap_compose. apply list_fmap_ext.
  intros i [y x] _. simpl. apply parse_cup_cell_text.
Qed.

Lemma render_texts_are_cursor_moves_witness :
  render posix world_at = (Ok tt, world_at_rendered) ∧
  ∃ texts,
    stdout world_at_rendered = stdout world_at ++ texts ∧
    parse_cup <$> texts =
    (fun yx => Some ((yx.1 + 1)%nat, (yx.2 + 1)%nat,
                     cell_at (buffer (self world_at)) yx.1 yx.2))
      <$> changed (self world_at).
Proof.
  split; [exact render_world_at|].
  exact (render_texts_are_cursor_moves posix world_at world_at_rendered render_world_at).
Defined.

(** X3.  [render] writes in row-major order: of two texts it writes, the
    earlier one addresses a smaller row, or the same row and a smaller
    column. *)
Theorem render_writes_row_major {G} (env : Env) (w w' : World G) :
  render env w = (Ok tt, w') ->
  ∃ texts,
    stdout w' = stdout w ++ texts ∧
    ∀ i j s t, (i < j)%nat -> texts !! i = Some s -> texts !! j = Some t ->
      ∃ r1 c1 g1 r2 c2 g2,
        parse_cup s = Some (r1, c1, g1) ∧ parse_cup t = Some (r2, c2, g2) ∧
        ((r1 < r2)%nat ∨ (r1 = r2 ∧ (c1 < c2)%nat)).
Proof.
  intros Hrun. apply render_frame in Hrun as (_ & _ & _ & _ & _ & _ & Hout).
  exists (written (self w)). split; [exact Hout|].
  intros i j s t Hij Hi Hj. unfold written in Hi, Hj.
  apply list_lookup_fmap_Some in Hi as ([y1 x1] & -> & Hi).
  apply list_lookup_fmap_Some in Hj as ([y2 x2] & -> & Hj).
  pose proof (StronglySorted_lookup _ _ (changed_sorted (self w)) i j _ _ Hij Hi Hj) as Hord.
  eexists _, _, _, _, _, _. rewrite !parse_cup_cell_text.
  split; [reflexivity|]. split; [reflexivity|].
  unfold row_major in Hord. simpl in *. lia.
Qed.

Lemma render_writes_row_major_witness :
  render posix world_at = (Ok tt, world_at_rendered) ∧
  ∃ texts,
    stdout world_at_rendered = stdout world_at ++ texts ∧
    ∀ i j s t, (i < j)%nat -> texts !! i = Some s -> texts !! j = Some t ->
      ∃ r1 c1 g1 r2 c2 g2,
        parse_cup s = Some (r1, c1, g1) ∧ parse_cup t = Some (r2, c2, g2) ∧
        ((r1 < r2)%nat ∨ (r1 = r2 ∧ (c1 < c2)%nat)).
Proof.
  split; [exact render_world_at|].
  exact (render_writes_row_major posix world_at world_at_rendered render_world_at).
Defined.

Lemma render_world_one : render posix world_one = (Ok tt, world_one_rendered).
Proof. vm_compute. reflexivity. Defined.

(** C8.  [render] addresses cells from 1.  When it returns, the texts it
    has written are, in the order of the changed cells, one per changed
    cell: for the cell at row [y] and column [x] of the grid, counted from
    0, the text is [ESC [ y+1 ; x+1 H] followed by the content of the
    cell, which a terminal reads as a move to row [y + 1] and column
    [x + 1]. *)
Theorem render_addresses_cells_from_one {G} (env : Env) (w w' : World G) :
  render env w = (Ok tt, w') ->
  ∃ texts,
    stdout w' = stdout w ++ texts ∧
    length texts = length (changed (self w)) ∧
    ∀ i y x, changed (self w) !! i = Some (y, x) ->
      differs (self w) y x ∧
      ∃ s cell,
        texts !! i = Some s ∧
        cell = cell_at (buffer (self w)) y x ∧
        s = ESC +:+ "[" +:+ str_of_nat (y + 1) +:+ ";" +:+ str_of_nat (x + 1)
                +:+ "H" +:+ cell ∧
        parse_cup s = Some ((y + 1)%nat, (x + 1)%nat, cell).
Proof.
  intros Hrun. apply render_frame in Hrun as (_ & _ & _ & _ & _ & _ & Hout).
  exists (written (self w)). split; [exact Hout|]. unfold written.
  split; [apply length_fmap|].
  intros i y x Hi. split.
  { apply elem_of_changed. eapply list_elem_of_lookup_2. exact Hi. }
  eexists _, _. rewrite list_lookup_fmap, Hi. simpl.
  split; [reflexivity|]. split; [reflexivity|]. split; [reflexivity|].
  apply parse_cup_cell_text.
Qed.

Lemma render_addresses_cells_from_one_witness :
  render posix world_at = (Ok tt, world_at_rendered) ∧
  ∃ texts,
    stdout world_at_rendered = stdout world_at ++ texts ∧
    length texts = length (changed (self world_at)) ∧
    ∀ i y x, changed (self world_at) !! i = Some (y, x) ->
      differs (self world_at) y x ∧
      ∃ s cell,
        texts !! i = Some s ∧
        cell = cell_at (buffer (self world_at)) y x ∧
        s = ESC +:+ "[" +:+ str_of_nat (y + 1) +:+ ";" +:+ str_of_nat (x + 1)
                +:+ "H" +:+ cell ∧
        parse_cup s = Some ((y + 1)%nat, (x + 1)%nat, cell).
Proof.
  split; [exact render_world_at|].
  exact (render_addresses_cells_from_one posix world_at world_at_rendered render_world_at).
Defined.

(** After [drawPixel(2, 1, "@")] and [drawPixel(7, 3, "#")], [render]
    writes ["\033[2;3H@"] and then ["\033[4;8H#"]. *)
Example render_world_at_texts :
  changed (self world_at) = [(1, 2); (3, 7)]%nat ∧
  stdout world_at_rendered
  = [String "027" "[2;3H@"; String "027" "[4;8H#"].
Proof. vm_compute. split; reflexivity. Qed.

Lemma row_major_asym p q : row_major p q -> ¬ row_major q p.
Proof. unfold row_major. lia. Qed.

(** C10.  [render] emits the changed cells in row-major order.  When it
    returns, of two texts it has written the earlier one is for a cell in
    an earlier row, or in the same row and an earlier column; and of two
    changed cells, the one in the earlier row, or in the same row and the
    earlier column, has its text written first. *)
Theorem render_emits_in_row_major_order {G} (env : Env) (w w' : World G) :
  render env w = (Ok tt, w') ->
  ∃ texts,
    stdout w' = stdout w ++ texts ∧
    (∀ i j s t, (i < j)%nat -> texts !! i = Some s -> texts !! j = Some t ->
       ∃ y1 x1 y2 x2,
         differs (self w) y1 x1 ∧ differs (self w) y2 x2 ∧
         s = cell_text y1 x1 (cell_at (buffer (self w)) y1 x1) ∧
         t = cell_text y2 x2 (cell_at (buffer (self w)) y2 x2) ∧
         ((y1 < y2)%nat ∨ (y1 = y2 ∧ (x1 < x2)%nat))) ∧
    (∀ y1 x1 y2 x2,
       differs (self w) y1 x1 -> differs (self w) y2 x2 ->
       (y1 < y2)%nat ∨ (y1 = y2 ∧ (x1 < x2)%nat) ->
       ∃ i j,
         (i < j)%nat ∧
         texts !! i = Some (cell_text y1 x1 (cell_at (buffer (self w)) y1 x1)) ∧
         texts !! j = Some (cell_text y2 x2 (cell_at (buffer (self w)) y2 x2))).
Proof.
  intros Hrun. apply render_frame in Hrun as (_ & _ & _ & _ & _ & _ & Hout).
  exists (written (self w)). split; [exact Hout|]. unfold written. split.
  - intros i j s t Hij Hi Hj.
    apply list_lookup_fmap_Some in Hi as ([y1 x1] & -> & Hi).
    apply list_lookup_fmap_Some in Hj as ([y2 x2] & -> & Hj).
    pose proof (StronglySorted_lookup _ _ (changed_sorted (self w)) i j _ _ Hij Hi Hj)
      as Hord.
    exists y1, x1, y2, x2.
    split; [apply elem_of_changed; eapply list_elem_of_lookup_2; exact Hi|].
    split; [apply elem_of_changed; eapply list_elem_of_lookup_2; exact Hj|].
    split; [reflexivity|]. split; [reflexivity|]. exact Hord.
  - intros y1 x1 y2 x2 H1 H2 Hord.
    apply elem_of_changed, list_elem_of_lookup_1 in H1 as [i Hi].
    apply elem_of_changed, list_elem_of_lookup_1 in H2 as [j Hj].
    exists i, j. rewrite !list_lookup_fmap, Hi, Hj. simpl.
    split; [|split; reflexivity].
    destruct (Nat.lt_trichotomy i j) as [Hlt|[Heq|Hgt]]; [exact Hlt| |].
    + subst j. rewrite Hi in Hj. injection Hj as <- <-.
      exfalso. exact (row_major_irrefl (y1, x1) Hord).
    + pose proof (StronglySorted_lookup _ _ (changed_sorted (self w)) j i _ _ Hgt Hj Hi)
        as Hrev.
      exfalso. exact (row_major_asym _ _ Hrev Hord).
Qed.

Lemma render_emits_in_row_major_order_witness :
  render posix world_at = (Ok tt, world_at_rendered) ∧
  ∃ texts,
    stdout world_at_rendered = stdout world_at ++ texts ∧
    (∀ i j s t, (i < j)%nat -> texts !! i = Some s -> texts !! j = Some t ->
       ∃ y1 x1 y2 x2,
         differs (self world_at) y1 x1 ∧ differs (self world_at) y2 x2 ∧
         s = cell_text y1 x1 (cell_at (buffer (self world_at)) y1 x1) ∧
         t = cell_text y2 x2 (cell_at (buffer (self world_at)) y2 x2) ∧
         ((y1 < y2)%nat ∨ (y1 = y2 ∧ (x1 < x2)%nat))) ∧
    (∀ y1 x1 y2 x2,
       differs (self world_at) y1 x1 -> differs (self world_at) y2 x2 ->
       (y1 < y2)%nat ∨ (y1 = y2 ∧ (x1 < x2)%nat) ->
       ∃ i j,
         (i < j)%nat ∧
         texts !! i = Some (cell_text y1 x1 (cell_at (buffer (self world_at)) y1 x1)) ∧
         texts !! j = Some (cell_text y2 x2 (cell_at (buffer (self world_at)) y2 x2))).
Proof.
  split; [exact render_world_at|].
  exact (render_emits_in_row_major_order posix world_at world_at_rendered render_world_at).
Defined.



(** On the 7-bit stream, the text for the cell at (0, 0) is written, the
    one for the cell at (1, 1) raises, and [prevBuffer] keeps its blanks. *)
Example render_block_raises :
  ∃ w', render posix_ascii world_block = (Raise UnicodeEncodeError, w') ∧
        stdout w' = [cell_text 0 0 "a"] ∧
        prevBuffer (self w') = prevBuffer engine10x4.
Proof. eexists. split; [vm_compute; reflexivity|]. split; reflexivity. Qed.

(** ** How drawing calls compose *)

Lemma chars_app s1 s2 : chars (s1 +:+ s2) = chars s1 ++ chars s2.
Proof. induction s1 as [|c s1 IH]; simpl; [reflexivity|]. rewrite <- IH. reflexivity. Qed.

Lemma enumerate_from_app {A} (l1 l2 : list A) : ∀ k,
  enumerate_from k (l1 ++ l2) =
  enumerate_from k l1 ++ enumerate_from (k + length l1) l2.
Proof.
  induction l1 as [|a l1 IH]; intros k; simpl.
  - rewrite Nat.add_0_r. reflexivity.
  - rewrite IH. replace (S k + length l1)%nat with (k + S (length l1))%nat by lia.
    reflexivity.
Qed.

Section Composition.
Context {G : Type}.
Implicit Types e : TerminalEngine G.

Lemma for_enumerate_shift (x y : Z) (l : list string) : ∀ n k e,
  for_ (enumerate_from (k + n) l)
       (fun ic => drawPixel (x + Z.of_nat ic.1) y ic.2) e =
  for_ (enumerate_from n l)
       (fun ic => drawPixel (x + Z.of_nat k + Z.of_nat ic.1) y ic.2) e.
Proof.
  induction l as [|c l IH]; intros n k e; [reflexivity|].
  simpl enumerate_from. rewrite !for_cons. simpl fst. simpl snd.
  replace (x + Z.of_nat (k + n))%Z with (x + Z.of_nat k + Z.of_nat n)%Z by lia.
  destruct (drawPixel _ y c e) as [[[]|err] e1]; [|reflexivity].
  replace (S (k + n)) with (k + S n)%nat by lia. apply IH.
Qed.

(** X5.  Drawing a text made of two parts is drawing the first part and
    then the second one where the first one ends. *)
Theorem drawText_app (x y : Z) (s1 s2 : string) e :
  drawText x y (s1 +:+ s2) e =
  (drawText x y s1;; drawText (x + Z.of_nat (String.length s1)) y s2) e.
Proof.
  unfold drawText, enumerate. munfold.
  rewrite chars_app, enumerate_from_app, for_app. simpl.
  destruct (for_ (enumerate_from 0 (chars s1)) _ e) as [[[]|err] e1]; [|reflexivity].
  rewrite length_chars.
  rewrite <- (for_enumerate_shift x y (chars s2) 0 (String.length s1) e1).
  rewrite Nat.add_0_r. reflexivity.
Qed.

(** X6.  On an engine whose grids have its dimensions, a second
    [drawPixel] at one position replaces the first, and two [drawPixel] at
    different positions can be done in either order. *)
Theorem drawPixel_overwrites_and_commutes e (x y x' y' : Z) (a b : string) :
  shape_ok e ->
  (drawPixel x y a;; drawPixel x y b) e = drawPixel x y b e ∧
  ((x, y) ≠ (x', y') ->
   (drawPixel x y a;; drawPixel x' y' b) e = (drawPixel x' y' b;; drawPixel x y a) e).
Proof.
  intros Hok. split.
  - munfold. destruct (decide (in_bounds e x y)) as [Hin|Hout].
    + destruct (drawPixel_in_eq e x y a Hok Hin) as (row & Hrow & Hlen & ->).
      destruct (drawPixel_in_eq e x y b Hok Hin) as (row' & Hrow' & _ & ->).
      assert (row' = row) as -> by congruence.
      assert (Hok1 : shape_ok (set_buffer (<[Z.to_nat y := <[Z.to_nat x := U1 a]> row]> (buffer e)) e)).
      { apply shape_ok_set_buffer; [exact Hok|]. apply has_shape_insert; [apply Hok|exact Hrow]. }
      destruct (drawPixel_in_eq _ x y b Hok1 Hin) as (row1 & Hrow1 & _ & ->).
      simpl in Hrow1. rewrite list_lookup_insert_eq in Hrow1
        by (eapply lookup_lt_Some; eauto).
      injection Hrow1 as <-. simpl.
      rewrite !list_insert_insert_eq. reflexivity.
    + rewrite !(drawPixel_out e x y _ Hout). reflexivity.
  - intros Hne. munfold.
    destruct (decide (in_bounds e x y)) as [Hin|Hout];
      destruct (decide (in_bounds e x' y')) as [Hin'|Hout'].
    + destruct (drawPixel_in_eq e x y a Hok Hin) as (row & Hrow & Hlen & ->).
      destruct (drawPixel_in_eq e x' y' b Hok Hin') as (row' & Hrow' & Hlen' & ->).
      assert (Hok1 : shape_ok (set_buffer (<[Z.to_nat y := <[Z.to_nat x := U1 a]> row]> (buffer e)) e)).
      { apply shape_ok_set_buffer; [exact Hok|]. apply has_shape_insert; [apply Hok|exact Hrow]. }
      assert (Hok2 : shape_ok (set_buffer (<[Z.to_nat y' := <[Z.to_nat x' := U1 b]> row']> (buffer e)) e)).
      { apply shape_ok_set_buffer; [exact Hok|]. apply has_shape_insert; [apply Hok|exact Hrow']. }
      destruct (drawPixel_in_eq _ x' y' b Hok1 Hin') as (r1 & Hr1 & _ & ->).
      destruct (drawPixel_in_eq _ x y a Hok2 Hin) as (r2 & Hr2 & _ & ->).
      simpl in Hr1, Hr2 |- *. f_equal. unfold set_buffer. simpl. f_equal.
      destruct Hin as [Hx Hy]. destruct Hin' as [Hx' Hy'].
      destruct (decide (Z.to_nat y = Z.to_nat y')) as [Heq|Hny].
      * rewrite <- Heq in *. assert (row' = row) as -> by congruence.
        rewrite list_lookup_insert_eq in Hr1 by (eapply lookup_lt_Some; eauto).
        rewrite list_lookup_insert_eq in Hr2 by (eapply lookup_lt_Some; eauto).
        injection Hr1 as <-. injection Hr2 as <-.
        rewrite !list_insert_insert_eq. f_equal.
        apply list_insert_insert_ne. intros Hxx.
        apply Hne. f_equal; lia.
      * rewrite list_lookup_insert_ne in Hr1 by done.
        rewrite list_lookup_insert_ne in Hr2 by done.
        assert (r1 = row') as -> by congruence.
        assert (r2 = row) as -> by congruence.
        apply list_insert_insert_ne. done.
    + destruct (drawPixel_in_eq e x y a Hok Hin) as (row & Hrow & Hlen & Hrun).
      rewrite Hrun, (drawPixel_out e x' y' b Hout').
      rewrite drawPixel_out by exact Hout'. rewrite Hrun. reflexivity.
    + destruct (drawPixel_in_eq e x' y' b Hok Hin') as (row & Hrow & Hlen & Hrun).
      rewrite (drawPixel_out e x y a Hout), Hrun.
      rewrite drawPixel_out by exact Hout. reflexivity.
    + rewrite (drawPixel_out e x y a Hout), (drawPixel_out e x' y' b Hout').
      rewrite (drawPixel_out e x y a Hout). reflexivity.
Qed.

End Composition.

Lemma drawPixel_overwrites_and_commutes_witness :
  shape_ok engine10x4 ∧
  (drawPixel 2 1 "@";; drawPixel 2 1 "#") engine10x4 = drawPixel 2 1 "#" engine10x4 ∧
  ((2, 1)%Z ≠ (7, 3)%Z ->
   (drawPixel 2 1 "@";; drawPixel 7 3 "#") engine10x4
   = (drawPixel 7 3 "#";; drawPixel 2 1 "@") engine10x4).
Proof.
  split; [exact shape_ok_engine10x4|].
  exact (drawPixel_overwrites_and_commutes engine10x4 2 1 7 3 "@" "#" shape_ok_engine10x4).
Defined.

(** ** What the grids always are *)

Lemma for_preserves {S A} (P : S -> Prop) (l : list A) (body : A -> M S unit) :
  (∀ a s, P s -> ∃ s', body a s = (Ok tt, s') ∧ P s') ->
  ∀ s, P s -> ∃ s', for_ l body s = (Ok tt, s') ∧ P s'.
Proof.
  intros Hbody. induction l as [|a l IH]; intros s Hs.
  - exists s. split; [reflexivity|exact Hs].
  - rewrite for_cons. destruct (Hbody a s Hs) as (s1 & -> & Hs1). apply IH, Hs1.
Qed.

Lemma is_U1_insert (a : ndarray) r row c v :
  is_U1 a -> a !! r = Some row -> is_U1 (<[r := <[c := U1 v]> row]> a).
Proof.
  intros Ha Hrow. apply Forall_insert; [exact Ha|].
  apply Forall_insert; [|apply U1_length].
  unfold is_U1 in Ha. rewrite Forall_lookup in Ha. eapply Ha; eauto.
Qed.

Lemma is_U1_full shape fill : is_U1 (np_full shape fill).
Proof. apply Forall_replicate, Forall_replicate, U1_length. Qed.

Lemma is_U1_fill a v : is_U1 (np_fill a v).
Proof.
  unfold is_U1, np_fill. apply Forall_forall. intros row Hrow.
  apply list_elem_of_In, in_map_iff in Hrow as (row0 & <- & _).
  apply Forall_forall. intros c Hc.
  apply list_elem_of_In, in_map_iff in Hc as (c0 & <- & _). apply U1_length.
Qed.

Lemma has_shape_fill a h w v : has_shape a h w -> has_shape (np_fill a v) h w.
Proof.
  intros [Hh Hrows]. unfold np_fill. split.
  - rewrite length_map. exact Hh.
  - apply Forall_forall. intros row Hrow.
    apply list_elem_of_In, in_map_iff in Hrow as (row0 & <- & Hin).
    rewrite length_map. rewrite Forall_forall in Hrows.
    apply Hrows, list_elem_of_In, Hin.
Qed.

Section Invariant.
Context {G : Type}.
Implicit Types e : TerminalEngine G.

Lemma drawPixel_grid_ok e x y char :
  grid_ok e -> ∃ e', drawPixel x y char e = (Ok tt, e') ∧ grid_ok e'.
Proof.
  intros (Hok & Hb & Hp). destruct (decide (in_bounds e x y)) as [Hin|Hout].
  - destruct (drawPixel_in_eq e x y char Hok Hin) as (row & Hrow & _ & ->).
    eexists. split; [reflexivity|]. split; [|split].
    + apply shape_ok_set_buffer; [exact Hok|].
      apply has_shape_insert; [apply Hok|exact Hrow].
    + simpl. apply is_U1_insert; assumption.
    + exact Hp.
  - exists e. split; [apply drawPixel_out; exact Hout|]. split; [exact Hok|]. split; assumption.
Qed.

(** [draw_pixel] is [drawPixel] of the text it assigns to the cell. *)
Lemma draw_pixel_as_drawPixel e x y char color :
  draw_pixel x y char color e =
  drawPixel x y
    match color with
    | Some c => if decide (c = "") then char else c +:+ char +:+ ESC +:+ "[0m"
    | None => char
    end e.
Proof.
  unfold draw_pixel, drawPixel. munfold.
  destruct (decide _); [|reflexivity].
  destruct color as [c|]; [|reflexivity].
  destruct (decide (c = "")); reflexivity.
Qed.

(** X7.  The grids stay as NumPy keeps them.  On an engine whose grids
    have its dimensions and one character at most per cell, no drawing
    call of the engine or of the Tetris game raises, and after any of
    them, after [buffer.fill(" ")] and after [render], whether it returns
    or raises, the grids still have these dimensions and one character at
    most per cell. *)
Theorem grids_stay_well_formed e :
  grid_ok e ->
  (∀ x y char, ∃ e', drawPixel x y char e = (Ok tt, e') ∧ grid_ok e') ∧
  (∀ x y text, ∃ e', drawText x y text e = (Ok tt, e') ∧ grid_ok e') ∧
  (∀ x y char color, ∃ e', draw_pixel x y char color e = (Ok tt, e') ∧ grid_ok e') ∧
  grid_ok (set_buffer (np_fill (buffer e) " ") e) ∧
  (∀ env (w : World G) r w',
     self w = e -> render env w = (r, w') -> grid_ok (self w')).
Proof.
  intros Hok. split; [|split; [|split; [|split]]].
  - intros x y char. apply drawPixel_grid_ok, Hok.
  - intros x y text. unfold drawText. apply for_preserves; [|exact Hok].
    intros ic s Hs. apply drawPixel_grid_ok, Hs.
  - intros x y char color. rewrite draw_pixel_as_drawPixel.
    apply drawPixel_grid_ok, Hok.
  - destruct Hok as ((Hb & Hp) & Hub & Hup). split; [split|split].
    + apply has_shape_fill, Hb.
    + exact Hp.
    + apply is_U1_fill.
    + exact Hup.
  - intros env w r w' <- Hrun.
    apply render_frame in Hrun as (_ & _ & _ & _ & _ & Hr).
    destruct r as [[]|err].
    + destruct Hr as [-> _]. destruct Hok as ((Hb & Hp) & Hub & Hup).
      split; [split|split]; assumption.
    + destruct Hr as [-> _]. exact Hok.
Qed.

End Invariant.

Lemma grid_ok_new_engine {G} env attrs w h rate fps (g : G) :
  (0 ≤ w)%Z -> (0 ≤ h)%Z -> grid_ok (new_engine env attrs w h rate fps g).
Proof.
  intros Hw Hh. split; [apply shape_ok_new_engine; assumption|].
  split; apply is_U1_full.
Qed.

Lemma grid_ok_engine10x4 : grid_ok engine10x4.
Proof. apply grid_ok_new_engine; lia. Defined.

Lemma grids_stay_well_formed_witness :
  grid_ok engine10x4 ∧
  (∀ x y char, ∃ e', drawPixel x y char engine10x4 = (Ok tt, e') ∧ grid_ok e') ∧
  (∀ x y text, ∃ e', drawText x y text engine10x4 = (Ok tt, e') ∧ grid_ok e') ∧
  (∀ x y char color,
     ∃ e', draw_pixel x y char color engine10x4 = (Ok tt, e') ∧ grid_ok e') ∧
  grid_ok (set_buffer (np_fill (buffer engine10x4) " ") engine10x4) ∧
  (∀ env (w : World unit) r w',
     self w = engine10x4 -> render env w = (r, w') -> grid_ok (self w')).
Proof.
  split; [exact grid_ok_engine10x4|].
  exact (grids_stay_well_formed engine10x4 grid_ok_engine10x4).
Defined.

(** ** [__init__] *)

Lemma cell_at_full h w fill (y x : nat) :
  (y < h)%nat -> (x < w)%nat -> cell_at (np_full (h, w) fill) y x = U1 fill.
Proof.
  intros Hy Hx. unfold cell_at, np_full. cbn [fst snd].
  rewrite lookup_replicate_2 by exact Hy. simpl.
  rewrite lookup_replicate_2 by exact Hx. reflexivity.
Qed.

(** X8.  What building an engine gives.  [__init__] raises, in this
    order: what the platform makes the first [np.full] raise; [ValueError]
    for a negative dimension; what the platform makes the second
    [np.full] raise; [OverflowError] for a tick rate too large for a
    [float] and [ZeroDivisionError] for a tick rate of zero; the same for
    the frame rate; and [termios.error] when [sys.stdin] is not a terminal
    on a platform that has terminal attributes.  Otherwise none of these
    holds and the engine is the one [new_engine] describes: it has the
    dimensions asked for and the reciprocals of the two rates as
    durations, holds the attributes of the terminal where there are any,
    is not running, has no thread and no key pressed or released, both of
    its grids are made of blanks, and a first [render] writes nothing. *)
Theorem init_outcomes {G} (env : Env) (stdin : option termios) (w h rate fps : Z) (g : G) :
  let built :=
    np_refuses env 0 h w = None ∧ np_refuses env 1 h w = None ∧ (0 ≤ w)%Z ∧ (0 ≤ h)%Z in
  let usable (n : Z) := n ≠ 0%Z ∧ is_infinity (Z2float n) = false in
  match init env stdin w h rate fps g with
  | Raise err =>
    np_refuses env 0 h w = Some err ∨
    (np_refuses env 0 h w = None ∧ (w < 0 ∨ h < 0)%Z ∧ err = ValueError) ∨
    (np_refuses env 0 h w = None ∧ (0 ≤ w)%Z ∧ (0 ≤ h)%Z ∧
     np_refuses env 1 h w = Some err) ∨
    (built ∧ is_infinity (Z2float rate) = true ∧ err = OverflowError) ∨
    (built ∧ rate = 0%Z ∧ err = ZeroDivisionError) ∨
    (built ∧ usable rate ∧ is_infinity (Z2float fps) = true ∧ err = OverflowError) ∨
    (built ∧ usable rate ∧ fps = 0%Z ∧ err = ZeroDivisionError) ∨
    (built ∧ usable rate ∧ usable fps ∧
     os_nt env = false ∧ stdin = None ∧ err = TermiosError)
  | Ok e =>
    built ∧ usable rate ∧ usable fps ∧
    (if os_nt env then oldSettings e = None
     else ∃ attrs, stdin = Some attrs ∧ oldSettings e = Some attrs) ∧
    e = new_engine env (default Cooked stdin) w h rate fps g ∧
    width e = w ∧ height e = h ∧
    tickDuration e = (1 / Z2float rate)%float ∧
    frameDuration e = (1 / Z2float fps)%float ∧
    grid_ok e ∧
    running e = false ∧ inputThread e = false ∧
    keysPressed e = ∅ ∧ keysReleased e = ∅ ∧
    (∀ cx cy, in_bounds e cx cy ->
       np_getitem (buffer e) cy cx = Ok " " ∧
       np_getitem (prevBuffer e) cy cx = Ok " ") ∧
    (∀ env' (wd : World G), self wd = e -> render env' wd = (Ok tt, wd))
  end.
Proof.
  intros built usable. unfold init, np_full_init, true_div_1, float_of_int.
  destruct (np_refuses env 0 h w) as [e0|] eqn:H0; [left; reflexivity|].
  destruct (decide (w < 0 ∨ h < 0)%Z) as [Hneg|Hpos];
    [right; left; repeat split; assumption|].
  assert (Hw : (0 ≤ w)%Z) by lia. assert (Hh : (0 ≤ h)%Z) by lia.
  destruct (np_refuses env 1 h w) as [e1|] eqn:H1;
    [right; right; left; repeat split; assumption|].
  assert (Hbuilt : built) by (repeat split; assumption).
  destruct (is_infinity (Z2float rate)) eqn:Hro;
    [right; right; right; left; repeat split; assumption|].
  destruct (decide (rate = 0%Z)) as [Hrz|Hrnz];
    [do 4 right; left; repeat split; assumption|].
  assert (Hrate : usable rate) by (split; assumption).
  destruct (is_infinity (Z2float fps)) eqn:Hfo;
    [do 5 right; left; repeat split; assumption|].
  destruct (decide (fps = 0%Z)) as [Hfz|Hfnz];
    [do 6 right; left; repeat split; assumption|].
  assert (Hfps : usable fps) by (split; assumption).
  assert (Hnew : ∀ attrs, grid_ok (new_engine env attrs w h rate fps g))
    by (intros attrs; apply grid_ok_new_engine; assumption).
  assert (Hrest : ∀ attrs,
    let e := new_engine env attrs w h rate fps g in
    width e = w ∧ height e = h ∧
    tickDuration e = (1 / Z2float rate)%float ∧
    frameDuration e = (1 / Z2float fps)%float ∧
    grid_ok e ∧
    running e = false ∧ inputThread e = false ∧
    keysPressed e = ∅ ∧ keysReleased e = ∅ ∧
    (∀ cx cy, in_bounds e cx cy ->
       np_getitem (buffer e) cy cx = Ok " " ∧
       np_getitem (prevBuffer e) cy cx = Ok " ") ∧
    (∀ env' (wd : World G), self wd = e -> render env' wd = (Ok tt, wd))).
  { intros attrs e. subst e. repeat (split; [first [reflexivity|apply Hnew]|]). split.
    - intros cx cy [Hx Hy]. simpl in Hx, Hy.
      destruct (Hnew attrs) as ((Hb & Hp) & _).
      rewrite (np_getitem_in _ _ _ _ _ Hb Hy Hx), (np_getitem_in _ _ _ _ _ Hp Hy Hx).
      simpl. rewrite cell_at_full by lia. split; reflexivity.
    - intros env' wd Hwd. apply render_same. rewrite Hwd. reflexivity. }
  destruct (os_nt env) eqn:Hnt.
  - split; [exact Hbuilt|]. split; [exact Hrate|]. split; [exact Hfps|].
    split; [reflexivity|].
    assert (Heq : {| width := w; height := h;
                     buffer := np_full (Z.to_nat h, Z.to_nat w) " ";
                     prevBuffer := np_full (Z.to_nat h, Z.to_nat w) " ";
                     running := false; tickRate := rate; maxFps := fps;
                     tickDuration := (1 / Z2float rate)%float;
                     frameDuration := (1 / Z2float fps)%float;
                     keysPressed := ∅; keysReleased := ∅; inputThread := false;
                     oldSettings := None; subclass := g |}
                  = new_engine env (default Cooked stdin) w h rate fps g)
      by (unfold new_engine; rewrite Hnt; reflexivity).
    rewrite Heq. split; [reflexivity|]. apply Hrest.
  - destruct stdin as [attrs|]; simpl.
    + split; [exact Hbuilt|]. split; [exact Hrate|]. split; [exact Hfps|].
      split; [exists attrs; split; reflexivity|].
      assert (Heq : {| width := w; height := h;
                       buffer := np_full (Z.to_nat h, Z.to_nat w) " ";
                       prevBuffer := np_full (Z.to_nat h, Z.to_nat w) " ";
                       running := false; tickRate := rate; maxFps := fps;
                       tickDuration := (1 / Z2float rate)%float;
                       frameDuration := (1 / Z2float fps)%float;
                       keysPressed := ∅; keysReleased := ∅; inputThread := false;
                       oldSettings := Some attrs; subclass := g |}
                    = new_engine env attrs w h rate fps g)
        by (unfold new_engine; rewrite Hnt; reflexivity).
      rewrite Heq. split; [reflexivity|]. apply Hrest.
    + do 7 right. repeat split; assumption.
Qed.

(** The engine of the examples is the one [__init__] builds; a rate of
    zero, a rate of [2 ** 1024], a negative width, an input that is not a
    terminal and a grid that does not fit raise; the largest rate that
    does not raise is [2 ** 1024 - 2 ** 970 - 1]. *)
Example init_examples :
  init posix (Some Cooked) 10 4 60 60 tt = Ok engine10x4 ∧
  init posix (Some Cooked) 10 4 0 60 tt = Raise ZeroDivisionError ∧
  init posix (Some Cooked) 10 4 60 (2 ^ 1024) tt = Raise OverflowError ∧
  init posix (Some Cooked) 10 4 (2 ^ 1024) 0 tt = Raise OverflowError ∧
  init posix (Some Cooked) 10 4 0 (2 ^ 1024) tt = Raise ZeroDivisionError ∧
  init posix (Some Cooked) (-1) 4 0 60 tt = Raise ValueError ∧
  init posix None 10 4 60 60 tt = Raise TermiosError ∧
  init posix_small (Some Cooked) 2000 2000 60 60 tt = Raise MemoryError ∧
  float_of_int (2 ^ 1024 - 2 ^ 970) = Raise OverflowError ∧
  float_of_int (2 ^ 1024 - 2 ^ 970 - 1) = Ok 0x1.fffffffffffffp+1023%float ∧
  float_of_int (2 ^ 63 + 1) = Ok 0x1p+63%float ∧
  float_of_int (- 3) = Ok (-3)%float.
Proof. vm_compute. repeat split. Qed.

(** ** The drawing call of the Tetris game *)

Lemma drawPixel_reads_first_character {G} (e : TerminalEngine G)
  (x y : Z) (c : ascii) (rest : string) :
  shape_ok e -> in_bounds e x y ->
  ∃ e', drawPixel x y (String c rest) e = (Ok tt, e') ∧
        np_getitem (buffer e') y x
        = Ok (if decide (c = NUL) then EmptyString else String c EmptyString).
Proof.
  intros Hok Hin.
  destruct (drawPixel_in e x y (String c rest) Hok Hin) as (b & Hrun & Hs & Hc).
  exists (set_buffer b e). split; [exact Hrun|]. simpl buffer.
  destruct Hin as [Hx Hy]. rewrite (np_getitem_in _ _ _ _ _ Hs Hy Hx), Hc.
  rewrite decide_True by done. reflexivity.
Qed.

(** X9.  [draw_pixel] of the Tetris game, in bounds on an engine whose
    grids have its dimensions: without a colour, or with the empty one, it
    is [drawPixel]; with a colour that is not empty, the cell read back
    holds the first character of the colour (nothing when that character
    is NUL), and neither the glyph nor the reset sequence. *)
Theorem draw_pixel_keeps_the_colour_s_first_character {G} (e : TerminalEngine G)
  (x y : Z) (char : string) :
  shape_ok e -> in_bounds e x y ->
  draw_pixel x y char None e = drawPixel x y char e ∧
  draw_pixel x y char (Some "") e = drawPixel x y char e ∧
  ∀ c rest, ∃ e',
    draw_pixel x y char (Some (String c rest)) e = (Ok tt, e') ∧
    np_getitem (buffer e') y x
    = Ok (if decide (c = NUL) then EmptyString else String c EmptyString).
Proof.
  intros Hok Hin. split; [apply draw_pixel_as_drawPixel|].
  split; [apply draw_pixel_as_drawPixel|].
  intros c rest. rewrite draw_pixel_as_drawPixel.
  rewrite decide_False by discriminate.
  change (String c rest +:+ char +:+ ESC +:+ "[0m")
    with (String c (rest +:+ char +:+ ESC +:+ "[0m")).
  apply drawPixel_reads_first_character; assumption.
Qed.

Lemma draw_pixel_keeps_the_colour_s_first_character_witness :
  shape_ok engine10x4 ∧ in_bounds engine10x4 2 1 ∧
  draw_pixel 2 1 "#" None engine10x4 = drawPixel 2 1 "#" engine10x4 ∧
  draw_pixel 2 1 "#" (Some "") engine10x4 = drawPixel 2 1 "#" engine10x4 ∧
  ∀ c rest, ∃ e',
    draw_pixel 2 1 "#" (Some (String c rest)) engine10x4 = (Ok tt, e') ∧
    np_getitem (buffer e') 1 2
    = Ok (if decide (c = NUL) then EmptyString else String c EmptyString).
Proof.
  split; [exact shape_ok_engine10x4|]. split; [exact in_bounds_engine10x4_2_1|].
  exact (draw_pixel_keeps_the_colour_s_first_character engine10x4 2 1 "#"
           shape_ok_engine10x4 in_bounds_engine10x4_2_1).
Defined.

(** With the first colour of the Tetris game, [render] writes the escape
    character alone after the position. *)
Example draw_pixel_red_rendered :
  stdout (render posix (world_of Cooked
            (draw_pixel 2 1 "#" (Some (ESC +:+ "[91m")) engine10x4).2)).2
  = [cell_text 1 2 ESC].
Proof. vm_compute. reflexivity. Qed.

(** C7.  A cell holds a glyph and no style.  [drawPixel] takes a
    position and a string and nothing else, and on an engine with
    well-formed grids it returns and leaves a cell of at most one
    character; when [render] returns, each text it has written is the
    cursor-position command of a changed cell followed by the content of
    that cell, at most one character, and so by no style sequence and no
    reset sequence. *)
Theorem cells_hold_a_glyph_and_no_style {G} (env : Env) (w w' : World G) :
  grid_ok (self w) ->
  render env w = (Ok tt, w') ->
  (∃ texts,
     stdout w' = stdout w ++ texts ∧
     length texts = length (changed (self w)) ∧
     ∀ i s, texts !! i = Some s ->
       ∃ y x glyph,
         changed (self w) !! i = Some (y, x) ∧ differs (self w) y x ∧
         glyph = cell_at (buffer (self w)) y x ∧
         (String.length glyph ≤ 1)%nat ∧
         s = cell_text y x glyph ∧
         parse_cup s = Some ((y + 1)%nat, (x + 1)%nat, glyph)) ∧
  (∀ x y char, ∃ e',
     drawPixel x y char (self w) = (Ok tt, e') ∧ grid_ok e' ∧
     (in_bounds (self w) x y ->
      cell_at (buffer e') (Z.to_nat y) (Z.to_nat x) = U1 char ∧
      (String.length (U1 char) ≤ 1)%nat)).
Proof.
  intros Hok Hrun. split.
  - apply render_frame in Hrun as (_ & _ & _ & _ & _ & _ & Hout).
    exists (written (self w)). split; [exact Hout|]. unfold written.
    split; [apply length_fmap|].
    intros i s Hi. apply list_lookup_fmap_Some in Hi as ([y x] & -> & Hi).
    exists y, x, (cell_at (buffer (self w)) y x). simpl.
    assert (Hd : differs (self w) y x)
      by (apply elem_of_changed; eapply list_elem_of_lookup_2; exact Hi).
    split; [exact Hi|]. split; [exact Hd|]. split; [reflexivity|]. split.
    + destruct Hd as (c & p & Hc & _). unfold cell_at. rewrite Hc. simpl.
      destruct Hok as (_ & Hu & _). unfold is_U1 in Hu.
      destruct (buffer (self w) !! y) as [row|] eqn:Hrow; [|discriminate Hc].
      simpl in Hc. rewrite Forall_lookup in Hu. specialize (Hu _ _ Hrow).
      rewrite Forall_lookup in Hu. exact (Hu _ _ Hc).
    + split; [reflexivity|apply parse_cup_cell_text].
  - intros x y char.
    destruct (drawPixel_grid_ok (self w) x y char Hok) as (e' & Hdraw & Hok').
    exists e'. split; [exact Hdraw|]. split; [exact Hok'|].
    intros Hin. destruct Hok as (Hshape & _).
    destruct (drawPixel_in (self w) x y char Hshape Hin) as (b & Hdraw' & _ & Hcell).
    rewrite Hdraw' in Hdraw. injection Hdraw as <-. simpl.
    rewrite Hcell, decide_True by done. split; [reflexivity|apply U1_length].
Qed.

Lemma drawPixel_snd_grid_ok {G} (e : TerminalEngine G) x y char :
  grid_ok e -> grid_ok (drawPixel x y char e).2.
Proof.
  intros Hok. destruct (drawPixel_grid_ok e x y char Hok) as (e' & -> & Hok').
  exact Hok'.
Qed.

Lemma grid_ok_world_at : grid_ok (self world_at).
Proof.
  change (grid_ok (drawPixel 7 3 "#" (drawPixel 2 1 "@" engine10x4).2).2).
  apply drawPixel_snd_grid_ok, drawPixel_snd_grid_ok, grid_ok_engine10x4.
Defined.

Lemma cells_hold_a_glyph_and_no_style_witness :
  grid_ok (self world_at) ∧
  render posix world_at = (Ok tt, world_at_rendered) ∧
  (∃ texts,
     stdout world_at_rendered = stdout world_at ++ texts ∧
     length texts = length (changed (self world_at)) ∧
     ∀ i s, texts !! i = Some s ->
       ∃ y x glyph,
         changed (self world_at) !! i = Some (y, x) ∧ differs (self world_at) y x ∧
         glyph = cell_at (buffer (self world_at)) y x ∧
         (String.length glyph ≤ 1)%nat ∧
         s = cell_text y x glyph ∧
         parse_cup s = Some ((y + 1)%nat, (x + 1)%nat, glyph)) ∧
  (∀ x y char, ∃ e',
     drawPixel x y char (self world_at) = (Ok tt, e') ∧ grid_ok e' ∧
     (in_bounds (self world_at) x y ->
      cell_at (buffer e') (Z.to_nat y) (Z.to_nat x) = U1 char ∧
      (String.length (U1 char) ≤ 1)%nat)).
Proof.
  split; [exact grid_ok_world_at|]. split; [exact render_world_at|].
  exact (cells_hold_a_glyph_and_no_style posix world_at world_at_rendered
           grid_ok_world_at render_world_at).
Defined.

(** A style is neither stored nor emitted.  The one drawing call of the
    repository that takes a colour, [draw_pixel] of the Tetris game, given
    the glyph ["#"] and the colour ["\033[91m"], leaves the escape
    character alone in the cell, and [render] then writes the position
    and that character: not the glyph, not the colour sequence, not the
    reset sequence.  The same holds of [drawPixel] given the glyph already
    wrapped. *)
Lemma style_is_neither_stored_nor_emitted_counterexample :
  let red := ESC +:+ "[91m" in
  let wrapped := red +:+ "#" +:+ ESC +:+ "[0m" in
  let e := (draw_pixel 2 1 "#" (Some red) tetris_engine).2 in
  let e' := (drawPixel 2 1 wrapped engine10x4).2 in
  np_getitem (buffer e) 1 2 = Ok ESC ∧
  stdout (render posix (world_of Cooked e)).2 = [cell_text 1 2 ESC] ∧
  np_getitem (buffer e') 1 2 = Ok ESC ∧
  stdout (render posix (world_of Cooked e')).2 = [cell_text 1 2 ESC] ∧
  cell_text 1 2 ESC ≠ cell_text 1 2 wrapped ∧
  ESC ≠ wrapped.
Proof. vm_compute. repeat split; discriminate. Qed.

(** ** Keys, continued *)

Lemma lower_char_idemp c : lower_char (lower_char c) = lower_char c.
Proof. destruct c as [[] [] [] [] [] [] [] []]; reflexivity. Qed.

Lemma lower_idemp s : lower (lower s) = lower s.
Proof. induction s as [|c s IH]; simpl; [reflexivity|]. rewrite lower_char_idemp, IH. reflexivity. Qed.

(** The capital letters below 256 and their lower-case forms. *)
Lemma lower_char_capital c :
  let n := nat_of_ascii c in
  (65 ≤ n ≤ 90)%nat ∨ ((192 ≤ n ≤ 222)%nat ∧ n ≠ 215%nat) ->
  lower_char c = ascii_of_nat (n + 32) ∧ lower_char c ≠ c.
Proof.
  intros n H. unfold lower_char. fold n.
  assert (Hb : ((65 <=? n)%nat && (n <=? 90)%nat)
     || ((192 <=? n)%nat && (n <=? 222)%nat && negb (n =? 215)%nat) = true).
  { apply orb_true_iff. destruct H as [H|[H H']]; [left|right].
    - apply andb_true_iff. split; apply Nat.leb_le; lia.
    - rewrite !andb_true_iff. repeat split; try (apply Nat.leb_le; lia).
      apply negb_true_iff, Nat.eqb_neq. exact H'. }
  rewrite Hb. split; [reflexivity|].
  intros Heq. apply (f_equal nat_of_ascii) in Heq. fold n in Heq.
  assert (n < 256)%nat by apply nat_ascii_bounded.
  rewrite nat_ascii_embedding in Heq by lia. lia.
Qed.

Lemma lower_char_other c :
  let n := nat_of_ascii c in
  ¬ ((65 ≤ n ≤ 90)%nat ∨ ((192 ≤ n ≤ 222)%nat ∧ n ≠ 215%nat)) ->
  lower_char c = c.
Proof.
  intros n H. unfold lower_char. fold n.
  destruct (_ || _) eqn:Hb; [|reflexivity]. exfalso. apply H.
  apply orb_true_iff in Hb.
  rewrite !andb_true_iff, !Nat.leb_le, negb_true_iff, Nat.eqb_neq in Hb. lia.
Qed.

Section Keys.
Context {G : Type}.
Implicit Types e : TerminalEngine G.

(** X10.  The two key sets only ever hold lower-case keys: reading a key
    adds its lower-case form and keeps them so, as does rotating, and a
    key that is not its own lower-case form is then reported neither
    pressed nor released; such are the capital letters, [A] to [Z] and,
    among the characters below 256, [À] to [Þ] without [×], whose
    lower-case forms lie 32 above them; every other character below 256
    is its own lower-case form. *)
Theorem keys_are_lower_case e :
  keys_lower e ->
  (∀ key, ∃ e', inputHandler_read key e = (Ok tt, e') ∧ keys_lower e' ∧
                isKeyPressed e' (lower key) = true) ∧
  (∃ e', clearKeyStates e = (Ok tt, e') ∧ keys_lower e') ∧
  (∀ k, lower k ≠ k -> isKeyPressed e k = false ∧ isKeyReleased e k = false) ∧
  (∀ c, let n := nat_of_ascii c in
        if decide ((65 ≤ n ≤ 90)%nat ∨ ((192 ≤ n ≤ 222)%nat ∧ n ≠ 215%nat)) then
          lower (String c EmptyString) = String (ascii_of_nat (n + 32)) EmptyString ∧
          isKeyPressed e (String c EmptyString) = false ∧
          isKeyReleased e (String c EmptyString) = false
        else lower (String c EmptyString) = String c EmptyString).
Proof.
  intros Hl.
  assert (Hnot : ∀ k, lower k ≠ k -> isKeyPressed e k = false ∧ isKeyReleased e k = false).
  { intros k Hk. unfold isKeyPressed, isKeyReleased.
    split; apply bool_decide_eq_false; intros Hin; apply Hk, Hl; set_solver. }
  split; [|split; [|split]].
  - intros key. eexists. split; [reflexivity|]. split.
    + intros k Hk. simpl in Hk.
      apply elem_of_union in Hk as [Hk|Hk].
      * apply elem_of_union in Hk as [Hk|Hk].
        -- apply elem_of_singleton in Hk as ->. apply lower_idemp.
        -- apply Hl. set_solver.
      * apply Hl. set_solver.
    + unfold isKeyPressed. simpl. apply bool_decide_eq_true. set_solver.
  - eexists. split; [reflexivity|]. intros k Hk. simpl in Hk. apply Hl. set_solver.
  - exact Hnot.
  - intros c n. destruct (decide _) as [Hcap|Hother].
    + destruct (lower_char_capital c Hcap) as [Heq Hne]. fold n in Heq.
      simpl. rewrite Heq. split; [reflexivity|].
      apply Hnot. simpl. rewrite Heq. intros H. injection H as H.
      apply Hne. rewrite Heq. exact H.
    + simpl. rewrite (lower_char_other c Hother). reflexivity.
Qed.

Lemma for_inputHandler_read (keys : list string) : ∀ e,
  ∃ e', for_ keys inputHandler_read e = (Ok tt, e') ∧
        keysReleased e' = keysReleased e ∧
        (∀ k, k ∈ keysPressed e' ↔
              k ∈ keysPressed e ∨ ∃ key, key ∈ keys ∧ k = lower key).
Proof.
  induction keys as [|key keys IH]; intros e.
  - exists e. split; [reflexivity|]. split; [reflexivity|]. intros k. split.
    + intros Hk. left. exact Hk.
    + intros [Hk|(key & Hkey & _)]; [exact Hk|inversion Hkey].
  - rewrite for_cons. unfold inputHandler_read at 1. unfold modify.
    destruct (IH (set_keys ({[lower key]} ∪ keysPressed e) (keysReleased e) e))
      as (e' & -> & Hr & Hp).
    exists e'. split; [reflexivity|]. split; [exact Hr|].
    intros k. rewrite Hp. simpl. rewrite elem_of_union, elem_of_singleton. split.
    + intros [[->|Hk]|(key' & Hkey & ->)].
      * right. exists key. split; [left|reflexivity].
      * left. exact Hk.
      * right. exists key'. split; [right; exact Hkey|reflexivity].
    + intros [Hk|(key' & Hkey & ->)]; [left; right; exact Hk|].
      apply elem_of_cons in Hkey as [->|Hkey]; [left; left; reflexivity|].
      right. exists key'. split; [exact Hkey|reflexivity].
Qed.

(** X11.  The keys reported released after a rotation are the keys read
    since the rotation before it, in lower case, and no other; they are
    the keys that were reported pressed just before that rotation, and
    after it no key is pressed.  So a capital letter that was read is
    reported as the letter 32 above it, and never as itself. *)
Theorem released_keys_are_those_read_since_last_rotation e (keys : list string) :
  ∃ e1 e2 e3,
    clearKeyStates e = (Ok tt, e1) ∧
    for_ keys inputHandler_read e1 = (Ok tt, e2) ∧
    clearKeyStates e2 = (Ok tt, e3) ∧
    keysPressed e3 = ∅ ∧
    (∀ k, (isKeyPressed e2 k = true ↔ ∃ key, key ∈ keys ∧ k = lower key) ∧
          (isKeyReleased e3 k = true ↔ ∃ key, key ∈ keys ∧ k = lower key) ∧
          isKeyPressed e3 k = false) ∧
    (∀ c, let n := nat_of_ascii c in
          (65 ≤ n ≤ 90)%nat ∨ ((192 ≤ n ≤ 222)%nat ∧ n ≠ 215%nat) ->
          isKeyReleased e3 (String c EmptyString) = false ∧
          (String c EmptyString ∈ keys ->
           isKeyReleased e3 (String (ascii_of_nat (n + 32)) EmptyString) = true)).
Proof.
  destruct (for_inputHandler_read keys (set_keys ∅ (keysPressed e) e))
    as (e2 & Hrun & _ & Hp).
  eexists _, e2, _. split; [reflexivity|]. split; [exact Hrun|].
  split; [reflexivity|]. split; [reflexivity|].
  assert (Hk : ∀ k, k ∈ keysPressed e2 ↔ ∃ key, key ∈ keys ∧ k = lower key).
  { intros k. rewrite Hp. simpl.
    split; [intros [H|H]; [set_solver|exact H]|intros H; right; exact H]. }
  split.
  - intros k. unfold isKeyPressed, isKeyReleased. simpl. rewrite bool_decide_eq_true.
    split; [apply Hk|]. split; [apply Hk|].
    apply bool_decide_eq_false. set_solver.
  - intros c n Hcap. destruct (lower_char_capital c Hcap) as [Heq Hne]. fold n in Heq.
    unfold isKeyReleased. simpl. split.
    + apply bool_decide_eq_false. rewrite Hk. intros (key & _ & Hkey).
      assert (Hfix : lower (String c EmptyString) = String c EmptyString)
        by (rewrite Hkey; apply lower_idemp).
      simpl in Hfix. injection Hfix as Hfix. exact (Hne Hfix).
    + intros Hin. apply bool_decide_eq_true. rewrite Hk.
      exists (String c EmptyString). split; [exact Hin|]. simpl. rewrite Heq. reflexivity.
Qed.

End Keys.

Lemma keys_lower_engine_q : keys_lower engine_q.
Proof.
  intros k Hk. simpl in Hk.
  assert (k = "q") as -> by set_solver. reflexivity.
Defined.

Lemma keys_are_lower_case_witness :
  keys_lower engine_q ∧
  (∀ key, ∃ e', inputHandler_read key engine_q = (Ok tt, e') ∧ keys_lower e' ∧
                isKeyPressed e' (lower key) = true) ∧
  (∃ e', clearKeyStates engine_q = (Ok tt, e') ∧ keys_lower e') ∧
  (∀ k, lower k ≠ k -> isKeyPressed engine_q k = false ∧ isKeyReleased engine_q k = false) ∧
  (∀ c, let n := nat_of_ascii c in
        if decide ((65 ≤ n ≤ 90)%nat ∨ ((192 ≤ n ≤ 222)%nat ∧ n ≠ 215%nat)) then
          lower (String c EmptyString) = String (ascii_of_nat (n + 32)) EmptyString ∧
          isKeyPressed engine_q (String c EmptyString) = false ∧
          isKeyReleased engine_q (String c EmptyString) = false
        else lower (String c EmptyString) = String c EmptyString).
Proof.
  split; [exact keys_lower_engine_q|].
  exact (keys_are_lower_case engine_q keys_lower_engine_q).
Defined.

(** The keys [Q], [É] and [1] are held as [q], [é] and [1]. *)
Example keys_read_in_lower_case :
  ∃ e, for_ ["Q"; String "201"%char EmptyString; "1"] inputHandler_read engine10x4
       = (Ok tt, e) ∧
       keysPressed e = {["q"; String "233"%char EmptyString; "1"]} ∧
       isKeyPressed e "q" = true ∧ isKeyPressed e "Q" = false ∧
       isKeyPressed e (String "233"%char EmptyString) = true ∧
       isKeyPressed e (String "201"%char EmptyString) = false.
Proof.
  eexists. split; [reflexivity|]. simpl. split; [set_solver|].
  unfold isKeyPressed. simpl.
  repeat split; first [apply bool_decide_eq_true|apply bool_decide_eq_false]; set_solver.
Qed.

(** ** The tick loop *)

Section TickLoop.
Context {G : Type} (update : float -> M (TerminalEngine G) unit).
Implicit Types w : World G.

Lemma tickLoop_S fuel lag c w :
  tickLoop update (S fuel) lag c w =
  if (tickDuration (self w) <=? lag)%float && (c <? 5)%nat then
    match update (tickDuration (self w)) (self w) with
    | (Ok _, e1) =>
      tickLoop update fuel (lag - tickDuration e1)%float (c + 1)
               (with_self e1 (with_updateCalls (S (updateCalls w)) w))
    | (Raise err, e1) =>
      (Raise err, with_self e1 (with_updateCalls (S (updateCalls w)) w))
    end
  else (Ok (Some (lag, c)), w).
Proof.
  simpl. munfold. unfold call_update. munfold. simpl.
  destruct (_ && _); [|reflexivity].
  destruct (update _ _) as [[[]|err] e1]; reflexivity.
Qed.

Lemma tickLoop_cap : ∀ fuel lag c w r w',
  (c ≤ 5)%nat -> (6 ≤ fuel + c)%nat ->
  tickLoop update fuel lag c w = (r, w') ->
  tty w' = tty w ∧ cursor w' = cursor w ∧ stdout w' = stdout w ∧
  captureAlive w' = captureAlive w ∧ atexitHandlers w' = atexitHandlers w ∧
  clockReads w' = clockReads w ∧
  (updateCalls w' + c ≤ updateCalls w + 5)%nat ∧
  match r with
  | Ok None => False
  | Ok (Some (lag', c')) =>
    (c' ≤ 5)%nat ∧ (updateCalls w' + c = updateCalls w + c')%nat ∧
    (c' = 5%nat ∨ (tickDuration (self w') <=? lag')%float = false)
  | Raise _ => (updateCalls w < updateCalls w')%nat
  end.
Proof.
  induction fuel as [|fuel IH]; intros lag c w r w' Hc Hfuel Hrun; [lia|].
  rewrite tickLoop_S in Hrun.
  destruct ((tickDuration (self w) <=? lag)%float) eqn:Hle;
    destruct ((c <? 5)%nat) eqn:Hlt; simpl in Hrun.
  - apply Nat.ltb_lt in Hlt.
    destruct (update _ _) as [[[]|err] e1].
    + apply IH in Hrun; [|lia|lia]. simpl in Hrun.
      destruct Hrun as (-> & -> & -> & -> & -> & -> & Hcap & Hr).
      repeat (split; [reflexivity|]). split; [lia|].
      destruct r as [[[lag' c']|]|err]; [|exact Hr|lia].
      destruct Hr as (H5 & Hcalls & Hstop). split; [exact H5|]. split; [lia|exact Hstop].
    + injection Hrun as <- <-. simpl. repeat (split; [reflexivity|]). split; lia.
  - injection Hrun as <- <-. apply Nat.ltb_ge in Hlt.
    repeat (split; [reflexivity|]). split; [lia|]. split; [lia|]. split; [lia|]. left. lia.
  - injection Hrun as <- <-. repeat (split; [reflexivity|]). split; [lia|].
    split; [lia|]. split; [lia|]. right. exact Hle.
  - injection Hrun as <- <-. repeat (split; [reflexivity|]). split; [lia|].
    split; [lia|]. split; [lia|]. right. exact Hle.
Qed.

(** X12.  Whatever the game's [update] does and however large the lag, one
    pass of the tick loop ends, after at most five calls of [update]; when
    it ends without an exception it has made exactly as many calls as it
    counted, and it stopped either at the fifth or because the lag left is
    below the tick duration; an exception comes from a call of [update].
    The loop touches neither the terminal nor [sys.stdout]. *)
Theorem tick_loop_makes_at_most_five_updates lag w :
  ∃ r w', tickLoop update 6 lag 0 w = (r, w') ∧
    (updateCalls w' ≤ updateCalls w + 5)%nat ∧
    tty w' = tty w ∧ cursor w' = cursor w ∧ stdout w' = stdout w ∧
    match r with
    | Ok None => False
    | Ok (Some (lag', n)) =>
      (n ≤ 5)%nat ∧ updateCalls w' = (updateCalls w + n)%nat ∧
      (n = 5%nat ∨ (tickDuration (self w') <=? lag')%float = false)
    | Raise _ => (updateCalls w < updateCalls w')%nat
    end.
Proof.
  destruct (tickLoop update 6 lag 0 w) as [r w'] eqn:Hrun.
  exists r, w'. split; [reflexivity|].
  apply tickLoop_cap in Hrun as (Ht & Hc & Ho & _ & _ & _ & Hcap & Hr); [|lia|lia].
  split; [lia|]. repeat (split; [assumption|]).
  destruct r as [[[lag' n]|]|err]; [|exact Hr|exact Hr].
  destruct Hr as (H5 & Hcalls & Hstop). split; [exact H5|]. split; [lia|exact Hstop].
Qed.

Lemma lag_after_S dt n lag :
  lag_after dt (S n) lag = lag_after dt n (lag - dt)%float.
Proof. unfold lag_after. rewrite Nat.iter_succ_r. reflexivity. Qed.

Lemma tickLoop_lag (Hkeep : keeps_tickDuration update) : ∀ fuel lag c w,
  (c ≤ 5)%nat -> (6 ≤ fuel + c)%nat ->
  ∃ m r w', tickLoop update fuel lag c w = (r, w') ∧
    (c + m ≤ 5)%nat ∧
    updateCalls w' = (updateCalls w + m)%nat ∧
    tickDuration (self w') = tickDuration (self w) ∧
    (∀ i, (i < m)%nat ->
       (tickDuration (self w) <=? lag_after (tickDuration (self w)) i lag)%float = true) ∧
    match r with
    | Ok None => False
    | Ok (Some (lag', c')) =>
      c' = (c + m)%nat ∧ lag' = lag_after (tickDuration (self w)) m lag ∧
      (c' = 5%nat ∨ (tickDuration (self w) <=? lag')%float = false)
    | Raise _ => (0 < m)%nat
    end.
Proof.
  induction fuel as [|fuel IH]; intros lag c w Hc Hfuel; [lia|].
  rewrite tickLoop_S.
  destruct ((tickDuration (self w) <=? lag)%float) eqn:Hle;
    destruct ((c <? 5)%nat) eqn:Hlt; simpl.
  - apply Nat.ltb_lt in Hlt.
    pose proof (Hkeep (tickDuration (self w)) (self w)) as Hk.
    destruct (update _ _) as [[[]|err] e1]; simpl in Hk.
    + destruct (IH (lag - tickDuration e1)%float (c + 1)%nat
                   (with_self e1 (with_updateCalls (S (updateCalls w)) w)))
        as (m & r & w' & Hrun & Hm & Hcalls & Htick & Hbefore & Hr); [lia|lia|].
      simpl in Hcalls, Htick, Hbefore, Hr. rewrite Hk in *.
      exists (S m), r, w'. split; [exact Hrun|]. split; [lia|]. split; [lia|].
      split; [exact Htick|]. split.
      * intros [|i] Hi; [exact Hle|]. rewrite lag_after_S. apply Hbefore. lia.
      * destruct r as [[[lag' c']|]|err]; [|exact Hr|lia].
        destruct Hr as (-> & -> & Hstop). rewrite lag_after_S.
        split; [lia|]. split; [reflexivity|exact Hstop].
    + exists 1%nat. eexists _, _. split; [reflexivity|]. simpl.
      split; [lia|]. split; [lia|]. split; [exact Hk|]. split; [|lia].
      intros [|i] Hi; [exact Hle|lia].
  - apply Nat.ltb_ge in Hlt. exists 0%nat. eexists _, _. split; [reflexivity|].
    split; [lia|]. split; [lia|]. split; [reflexivity|]. split; [intros i Hi; lia|].
    split; [lia|]. split; [reflexivity|]. left. lia.
  - exists 0%nat. eexists _, _. split; [reflexivity|].
    split; [lia|]. split; [lia|]. split; [reflexivity|]. split; [intros i Hi; lia|].
    split; [lia|]. split; [reflexivity|]. right. exact Hle.
  - exists 0%nat. eexists _, _. split; [reflexivity|].
    split; [lia|]. split; [lia|]. split; [reflexivity|]. split; [intros i Hi; lia|].
    split; [lia|]. split; [reflexivity|]. right. exact Hle.
Qed.

(** X13.  With a game that does not change the tick duration [dt], one
    pass of the tick loop makes [n ≤ 5] calls of [update], each made while
    the lag left, [lag] less [dt] once per earlier call, was at least
    [dt]; it hands on that lag less [dt] once per call, stopping at five
    calls with whatever lag is left, or earlier as soon as the lag left is
    below [dt] or a call raises. *)
Theorem tick_loop_spends_lag_in_ticks lag w :
  keeps_tickDuration update ->
  ∃ n r w', tickLoop update 6 lag 0 w = (r, w') ∧
    (n ≤ 5)%nat ∧
    updateCalls w' = (updateCalls w + n)%nat ∧
    (∀ i, (i < n)%nat ->
       (tickDuration (self w) <=? lag_after (tickDuration (self w)) i lag)%float = true) ∧
    match r with
    | Ok None => False
    | Ok (Some (lag', c)) =>
      c = n ∧ lag' = lag_after (tickDuration (self w)) n lag ∧
      (n = 5%nat ∨ (tickDuration (self w) <=? lag')%float = false)
    | Raise _ => (0 < n)%nat
    end.
Proof.
  intros Hkeep.
  destruct (tickLoop_lag Hkeep 6 lag 0 w) as (m & r & w' & Hrun & Hm & Hcalls & _ & Hbefore & Hr);
    [lia|lia|].
  exists m, r, w'. split; [exact Hrun|]. split; [lia|]. split; [exact Hcalls|].
  split; [exact Hbefore|].
  destruct r as [[[lag' c]|]|err]; [|exact Hr|exact Hr].
  destruct Hr as (-> & -> & Hstop). split; [reflexivity|]. split; [reflexivity|].
  destruct Hstop as [H5|Hlow]; [left; lia|right; exact Hlow].
Qed.




Lemma tickLoop_tick fuel lag c w :
  keeps_tickDuration update -> (∀ dt e, (update dt e).1 = Ok tt) ->
  (tickDuration (self w) <=? lag)%float = true -> (c < 5)%nat ->
  ∃ w1, tickLoop update (S fuel) lag c w
        = tickLoop update fuel (lag - tickDuration (self w))%float (S c) w1 ∧
        tickDuration (self w1) = tickDuration (self w) ∧
        updateCalls w1 = S (updateCalls w).
Proof.
  intros Hkeep Hret Hle Hc. rewrite tickLoop_S, Hle.
  apply Nat.ltb_lt in Hc. rewrite Hc. simpl.
  replace (c + 1)%nat with (S c) by lia.
  pose proof (Hkeep (tickDuration (self w)) (self w)) as Hk.
  pose proof (Hret (tickDuration (self w)) (self w)) as Hr.
  destruct (update _ _) as [r e1]. simpl in Hk, Hr. subst r.
  eexists. rewrite Hk. split; [reflexivity|]. split; [exact Hk|reflexivity].
Qed.

Lemma tickLoop_stop fuel lag c w :
  (tickDuration (self w) <=? lag)%float = false ->
  tickLoop update (S fuel) lag c w = (Ok (Some (lag, c)), w).
Proof. intros Hle. rewrite tickLoop_S, Hle. reflexivity. Qed.

(** C6.  At a tick rate of 60, with a game whose [update] returns and
    leaves [tickDuration] as it is, a lag of 0.05 s runs three ticks, not
    two: [1.0 / 60] is just below a sixtieth and [0.05] just above a
    twentieth, so that the lag left after two ticks is still at least one
    tick; a fourth tick does not run, and the lag left is [2 ** -57] s. *)
Theorem a_twentieth_of_a_second_runs_three_ticks w :
  tickDuration (self w) = (1 / Z2float 60)%float ->
  keeps_tickDuration update ->
  (∀ dt e, (update dt e).1 = Ok tt) ->
  ∃ w', tickLoop update 6 (0 + 0.05)%float 0 w
        = (Ok (Some (0x1p-57%float, 3%nat)), w') ∧
        updateCalls w' = (updateCalls w + 3)%nat ∧
        (tickDuration (self w') <=? 0x1p-57)%float = false.
Proof.
  intros Hdt Hkeep Hret.
  destruct (tickLoop_tick 5 (0 + 0.05)%float 0 w Hkeep Hret)
    as (w1 & -> & Hd1 & Hu1); [rewrite Hdt; vm_compute; reflexivity|lia|].
  rewrite Hdt in Hd1 |- *.
  destruct (tickLoop_tick 4 (0 + 0.05 - 1 / Z2float 60)%float 1 w1 Hkeep Hret)
    as (w2 & -> & Hd2 & Hu2); [rewrite Hd1; vm_compute; reflexivity|lia|].
  rewrite Hd1 in Hd2 |- *.
  destruct (tickLoop_tick 3 (0 + 0.05 - 1 / Z2float 60 - 1 / Z2float 60)%float 2 w2
              Hkeep Hret)
    as (w3 & -> & Hd3 & Hu3); [rewrite Hd2; vm_compute; reflexivity|lia|].
  rewrite Hd2 in Hd3 |- *.
  rewrite tickLoop_stop by (rewrite Hd3; vm_compute; reflexivity).
  assert (Hlag : (0 + 0.05 - 1 / Z2float 60 - 1 / Z2float 60 - 1 / Z2float 60)%float
                 = 0x1p-57%float) by (vm_compute; reflexivity).
  rewrite Hlag. exists w3. split; [reflexivity|].
  split; [lia|]. rewrite Hd3. vm_compute. reflexivity.
Qed.

End TickLoop.

Lemma update_pass_keeps_tickDuration : keeps_tickDuration (@update_pass unit).
Proof. intros dt e. reflexivity. Defined.

Lemma tick_loop_spends_lag_in_ticks_witness :
  keeps_tickDuration (@update_pass unit) ∧
  ∃ n r w', tickLoop update_pass 6 10%float 0 (world_of Cooked engine10x4) = (r, w') ∧
    (n ≤ 5)%nat ∧
    updateCalls w' = (updateCalls (world_of Cooked engine10x4) + n)%nat ∧
    (∀ i, (i < n)%nat ->
       (tickDuration engine10x4 <=? lag_after (tickDuration engine10x4) i 10)%float = true) ∧
    match r with
    | Ok None => False
    | Ok (Some (lag', c)) =>
      c = n ∧ lag' = lag_after (tickDuration engine10x4) n 10%float ∧
      (n = 5%nat ∨ (tickDuration engine10x4 <=? lag')%float = false)
    | Raise _ => (0 < n)%nat
    end.
Proof.
  split; [exact update_pass_keeps_tickDuration|].
  exact (tick_loop_spends_lag_in_ticks update_pass 10%float (world_of Cooked engine10x4)
           update_pass_keeps_tickDuration).
Defined.


Lemma engine10x4_tick : tickDuration (self world10x4) = (1 / Z2float 60)%float.
Proof. reflexivity. Defined.

Lemma update_pass_returns : ∀ dt (e : TerminalEngine unit), (update_pass dt e).1 = Ok tt.
Proof. intros dt e. reflexivity. Defined.

Lemma a_twentieth_of_a_second_runs_three_ticks_witness :
  tickDuration (self world10x4) = (1 / Z2float 60)%float ∧
  keeps_tickDuration (@update_pass unit) ∧
  (∀ dt (e : TerminalEngine unit), (update_pass dt e).1 = Ok tt) ∧
  ∃ w', tickLoop update_pass 6 (0 + 0.05)%float 0 world10x4
        = (Ok (Some (0x1p-57%float, 3%nat)), w') ∧
        updateCalls w' = (updateCalls world10x4 + 3)%nat ∧
        (tickDuration (self w') <=? 0x1p-57)%float = false.
Proof.
  split; [exact engine10x4_tick|]. split; [exact update_pass_keeps_tickDuration|].
  split; [exact update_pass_returns|].
  exact (a_twentieth_of_a_second_runs_three_ticks update_pass world10x4
           engine10x4_tick update_pass_keeps_tickDuration update_pass_returns).
Defined.

(** At a tick rate of 60 a lag of 0.05 s does not stop at two ticks with
    about 0.0167 s left: the pass ends after three ticks, the lag left
    after two is at least one tick, and the lag left at the end is below
    a thousandth of a tick. *)
Lemma two_ticks_at_a_twentieth_counterexample :
  (∃ w', tickLoop update_pass 6 (0 + 0.05)%float 0 world10x4
         = (Ok (Some (0x1p-57%float, 3%nat)), w') ∧ updateCalls w' = 3%nat) ∧
  (¬ ∃ lag' w', tickLoop update_pass 6 (0 + 0.05)%float 0 world10x4
                = (Ok (Some (lag', 2%nat)), w')) ∧
  (tickDuration engine10x4
   <=? lag_after (tickDuration engine10x4) 2 (0 + 0.05))%float = true ∧
  (0x1p-57 <? tickDuration engine10x4 / 1000)%float = true.
Proof.
  split; [eexists; split; [vm_compute; reflexivity|reflexivity]|].
  split; [|split; vm_compute; reflexivity].
  intros (lag' & w' & H). vm_compute in H. discriminate H.
Qed.

(** After a stall of ten seconds at sixty ticks a second, five ticks run
    and the lag left is kept. *)
Example tick_loop_after_a_stall :
  ∃ w', tickLoop update_pass 6 (0 + 10)%float 0 (world_of Cooked engine10x4)
        = (Ok (Some (9.9166666666666625%float, 5%nat)), w') ∧ updateCalls w' = 5%nat.
Proof. eexists. split; [vm_compute; reflexivity|reflexivity]. Qed.

(** A lag of 0.05 s at sixty ticks a second runs three ticks. *)
Example tick_loop_at_a_twentieth :
  ∃ w', tickLoop update_pass 6 (0 + 0.05)%float 0 (world_of Cooked engine10x4)
        = (Ok (Some (0x1p-57%float, 3%nat)), w') ∧ updateCalls w' = 3%nat.
Proof. eexists. split; [vm_compute; reflexivity|reflexivity]. Qed.

(** ** What a computation preserves *)

Section Preserves.
Context {S : Type} (R : S -> S -> Prop) `{!Reflexive R, !Transitive R}.

Lemma preserves_ret {A} (a : A) : preserves R (mret a : M S A).
Proof. intros s r s' H. injection H as <- <-. reflexivity. Qed.

Lemma preserves_get : preserves R (get : M S S).
Proof. intros s r s' H. injection H as <- <-. reflexivity. Qed.

Lemma preserves_bind {A B} (m : M S A) (f : A -> M S B) :
  preserves R m -> (∀ a, preserves R (f a)) -> preserves R (m ≫= f).
Proof.
  intros Hm Hf s r s' H. unfold mbind, M_bind in H.
  destruct (m s) as [[a|e] s1] eqn:Hms.
  - etransitivity; [eapply Hm; eauto|eapply Hf; eauto].
  - injection H as <- <-. eapply Hm; eauto.
Qed.

Lemma preserves_for {A} (l : list A) (body : A -> M S unit) :
  (∀ a, preserves R (body a)) -> preserves R (for_ l body).
Proof.
  intros Hbody. induction l as [|a l IH]; [apply preserves_ret|].
  simpl. apply preserves_bind; [apply Hbody|intros _; exact IH].
Qed.

End Preserves.

Lemma bind_Ok {S A B} (m : M S A) (f : A -> M S B) s b s' :
  (m ≫= f) s = (Ok b, s') -> ∃ a s1, m s = (Ok a, s1) ∧ f a s1 = (Ok b, s').
Proof.
  unfold mbind, M_bind. destruct (m s) as [[a|e] s1]; [|discriminate].
  intros H. exists a, s1. split; [reflexivity|exact H].
Qed.

(** ** The session *)

Lemma parse_cup_show_cursor : parse_cup show_cursor = None.
Proof. reflexivity. Qed.

Lemma parse_cup_hide_cursor : parse_cup hide_cursor = None.
Proof. reflexivity. Qed.

Lemma is_cell_write_cell_text y x cell : is_cell_write (cell_text y x cell).
Proof. unfold is_cell_write. rewrite parse_cup_cell_text. eexists. reflexivity. Qed.

Lemma terminal_cursor_cell_text y x cell shown :
  terminal_cursor (cell_text y x cell) shown = shown.
Proof.
  unfold terminal_cursor.
  rewrite decide_False.
  - rewrite decide_False; [reflexivity|]. intros H.
    pose proof (parse_cup_cell_text y x cell) as Hp. rewrite H, parse_cup_hide_cursor in Hp.
    discriminate Hp.
  - intros H. pose proof (parse_cup_cell_text y x cell) as Hp.
    rewrite H, parse_cup_show_cursor in Hp. discriminate Hp.
Qed.

Section Session.
Context {G : Type}.
Implicit Types w : World G.

#[local] Instance session_kept_refl : Reflexive (@session_kept G).
Proof.
  intros w. repeat (split; [reflexivity|]). exists []. rewrite app_nil_r.
  split; [reflexivity|constructor].
Qed.

#[local] Instance session_kept_trans : Transitive (@session_kept G).
Proof.
  intros w1 w2 w3 (Ht & Hc & Ho & Hi & Hx & l1 & Hs1 & Hl1)
    (Ht' & Hc' & Ho' & Hi' & Hx' & l2 & Hs2 & Hl2).
  repeat (split; [congruence|]). exists (l1 ++ l2).
  split; [rewrite Hs2, Hs1, app_assoc; reflexivity|apply Forall_app; split; assumption].
Qed.

(** A method on the object that leaves the attributes of the session
    alone keeps the session. *)
Lemma on_self_session_kept {A} (m : M (TerminalEngine G) A) :
  (∀ e, oldSettings (m e).2 = oldSettings e ∧ inputThread (m e).2 = inputThread e) ->
  preserves session_kept (on_self m).
Proof.
  intros Hm w r w' H. unfold on_self in H. specialize (Hm (self w)).
  destruct (m (self w)) as [r1 e1]. injection H as <- <-. simpl in *.
  destruct Hm as [Ho Hi]. repeat (split; [first [reflexivity|assumption]|]).
  exists []. rewrite app_nil_r. split; [reflexivity|constructor].
Qed.

Lemma for_inputHandler_read_attrs (keys : list string) : ∀ (e : TerminalEngine G),
  oldSettings (for_ keys inputHandler_read e).2 = oldSettings e ∧
  inputThread (for_ keys inputHandler_read e).2 = inputThread e.
Proof.
  induction keys as [|key keys IH]; intros e; [split; reflexivity|].
  rewrite for_cons. unfold inputHandler_read at 1 3. unfold modify.
  destruct (IH (set_keys ({[lower key]} ∪ keysPressed e) (keysReleased e) e)) as [Ho Hi].
  split; assumption.
Qed.

(** What the capture thread does is to add keys or to end. *)
Lemma capture_thread_spec (ev : capture_event) w :
  ∃ w', capture_thread ev w = (Ok tt, w') ∧
        tty w' = tty w ∧ cursor w' = cursor w ∧ stdout w' = stdout w ∧
        atexitHandlers w' = atexitHandlers w ∧ clockReads w' = clockReads w ∧
        updateCalls w' = updateCalls w ∧
        (captureAlive w' = true -> captureAlive w = true) ∧
        (captureAlive w = false -> w' = w) ∧
        self w' = set_keys (keysPressed (self w')) (keysReleased (self w)) (self w) ∧
        ∀ k, k ∈ keysPressed (self w') ↔
             k ∈ keysPressed (self w) ∨
             (captureAlive w = true ∧
              ∃ keys key, ev = Reads keys ∧ key ∈ keys ∧ k = lower key).
Proof.
  assert (Hid : ∀ e : TerminalEngine G, e = set_keys (keysPressed e) (keysReleased e) e)
    by (intros e; destruct e; reflexivity).
  assert (Hfor : ∀ keys (e e' : TerminalEngine G),
    for_ keys inputHandler_read e = (Ok tt, e') ->
    e' = set_keys (keysPressed e') (keysReleased e) e).
  { induction keys as [|key keys IH]; intros e e' Hrun.
    - injection Hrun as <-. apply Hid.
    - rewrite for_cons in Hrun. unfold inputHandler_read at 1 in Hrun.
      unfold modify in Hrun. apply IH in Hrun. simpl in Hrun. exact Hrun. }
  unfold capture_thread. munfold. destruct (captureAlive w) eqn:Halive.
  - destruct ev as [keys|].
    + destruct (for_inputHandler_read keys (self w)) as (e' & Hrun & Hr & Hp).
      rewrite Hrun. exists (with_self e' w). split; [reflexivity|]. simpl.
      split_and!; try reflexivity;
        try (intros H; first [exact H|discriminate H|congruence]);
        try (apply Hfor in Hrun; exact Hrun).
      intros k. rewrite Hp. split.
      * intros [Hk|(key & Hkey & ->)]; [left; exact Hk|].
        right. split; [reflexivity|]. exists keys, key. done.
      * intros [Hk|(_ & keys' & key & Heq & Hkey & ->)]; [left; exact Hk|].
        injection Heq as <-. right. exists key. done.
    + exists (with_capture false w). split; [reflexivity|]. simpl.
      split_and!; try reflexivity;
        try (intros H; first [exact H|discriminate H|congruence]); try apply Hid.
      intros k. split; [intros Hk; left; exact Hk|].
      intros [Hk|(_ & keys & key & Heq & _)]; [exact Hk|discriminate Heq].
  - exists w. split; [reflexivity|].
    split_and!; try reflexivity;
      try (intros H; first [exact H|discriminate H|congruence]); try apply Hid.
    intros k. split; [intros Hk; left; exact Hk|].
    intros [Hk|(Hfalse & _)]; [exact Hk|discriminate Hfalse].
Qed.

Lemma capture_thread_session_kept (ev : capture_event) :
  preserves session_kept (capture_thread (G:=G) ev).
Proof.
  intros w r w' Hrun.
  destruct (capture_thread_spec ev w)
    as (w1 & Hrun1 & Ht & Hc & Ho & Ha & _ & _ & _ & _ & Hs & _).
  rewrite Hrun1 in Hrun. injection Hrun as <- <-.
  split; [exact Ht|]. split; [exact Hc|]. rewrite Hs. simpl.
  split; [reflexivity|]. split; [reflexivity|]. split; [exact Ha|].
  exists []. rewrite app_nil_r. split; [exact Ho|constructor].
Qed.

Lemma time_perf_counter_session_kept env :
  preserves session_kept (time_perf_counter (G:=G) env).
Proof.
  intros w r w' H. injection H as <- <-. simpl.
  repeat (split; [reflexivity|]). exists []. rewrite app_nil_r.
  split; [reflexivity|constructor].
Qed.

Lemma for_write_cells_cursor env (l : list (nat * nat)) : ∀ w r w',
  for_ l (write_cell env) w = (r, w') -> cursor w' = cursor w.
Proof.
  induction l as [|yx l IH]; intros w r w' Hrun.
  - injection Hrun as <- <-. reflexivity.
  - rewrite for_cons in Hrun.
    unfold write_cell, mbind, M_bind, get, liftR in Hrun.
    destruct (np_getitem _ _ _) as [cell|err].
    + unfold sys_stdout_write in Hrun. destruct (encodable env _).
      * apply IH in Hrun. simpl in Hrun. rewrite Hrun.
        apply terminal_cursor_cell_text.
      * injection Hrun as <- <-. reflexivity.
    + injection Hrun as <- <-. reflexivity.
Qed.

Lemma render_session_kept env : preserves session_kept (render (G:=G) env).
Proof.
  intros w r w' Hrun.
  assert (Hcur : cursor w' = cursor w).
  { rewrite render_unfold in Hrun.
    destruct (for_ _ _ w) as [r1 w1] eqn:Hloop.
    apply for_write_cells_cursor in Hloop.
    destruct r1 as [[]|err]; injection Hrun as <- <-; exact Hloop. }
  assert (Hwr : Forall is_cell_write (written (self w))).
  { unfold written. apply Forall_fmap, Forall_forall. intros [y x] _.
    apply is_cell_write_cell_text. }
  apply render_frame in Hrun as (Ht & _ & Ha & _ & _ & Hr).
  split; [exact Ht|]. split; [exact Hcur|].
  destruct r as [[]|err].
  - destruct Hr as [-> Hout]. repeat (split; [first [reflexivity|assumption]|]).
    exists (written (self w)). split; assumption.
  - destruct Hr as (-> & _ & n & s & Hout & _).
    repeat (split; [first [reflexivity|assumption]|]).
    exists (take n (written (self w))). split; [exact Hout|apply Forall_take, Hwr].
Qed.

Lemma tickLoop_session_kept update :
  well_behaved update ->
  ∀ fuel lag c, preserves session_kept (tickLoop (G:=G) update fuel lag c).
Proof.
  intros Hwb. induction fuel as [|fuel IH]; intros lag c w r w' Hrun.
  - injection Hrun as <- <-. reflexivity.
  - rewrite tickLoop_S in Hrun. destruct (_ && _).
    + pose proof (Hwb (tickDuration (self w)) (self w)) as [Ho Hi].
      destruct (update _ _) as [[[]|err] e1]; simpl in Ho, Hi.
      * apply IH in Hrun. etransitivity; [|exact Hrun].
        repeat (split; [first [reflexivity|assumption]|]).
        exists []. rewrite app_nil_r. split; [reflexivity|constructor].
      * injection Hrun as <- <-.
        repeat (split; [first [reflexivity|assumption]|]).
        exists []. rewrite app_nil_r. split; [reflexivity|constructor].
    + injection Hrun as <- <-. reflexivity.
Qed.

Lemma mainLoop_session_kept env update :
  well_behaved update ->
  ∀ fuel frame previousTime lag,
    preserves session_kept (mainLoop (G:=G) env update fuel frame previousTime lag).
Proof.
  intros Hwb. induction fuel as [|fuel IH]; intros frame previousTime lag.
  - apply (preserves_ret session_kept).
  - cbn [mainLoop]. apply (preserves_bind session_kept); [apply (preserves_get session_kept)|].
    intros w0. destruct (running (self w0)); [|apply (preserves_ret session_kept)].
    apply (preserves_bind session_kept); [apply capture_thread_session_kept|intros _].
    apply (preserves_bind session_kept); [apply time_perf_counter_session_kept|].
    intros currentTime.
    apply (preserves_bind session_kept); [apply tickLoop_session_kept, Hwb|].
    intros [[lag' n]|]; [|apply (preserves_ret session_kept)].
    apply (preserves_bind session_kept); [apply capture_thread_session_kept|intros _].
    apply (preserves_bind session_kept); [apply render_session_kept|intros _].
    apply (preserves_bind session_kept); [apply capture_thread_session_kept|intros _].
    apply (preserves_bind session_kept); [ |intros _].
    { apply on_self_session_kept. intros e. split; reflexivity. }
    apply (preserves_bind session_kept); [apply capture_thread_session_kept|intros _].
    apply (preserves_bind session_kept); [ |intros _].
    { apply on_self_session_kept. intros e. split; reflexivity. }
    apply (preserves_bind session_kept); [apply time_perf_counter_session_kept|].
    intros frameEnd.
    apply (preserves_bind session_kept); [apply (preserves_get session_kept)|].
    intros w2.
    apply (preserves_bind session_kept); [ |intros _; apply IH].
    destruct (_ <? _)%float; apply (preserves_ret session_kept).
Qed.

End Session.

(** ** Leaving the loop *)

Lemma is_blank_fill a : is_blank (np_fill a " ").
Proof.
  unfold is_blank, np_fill. apply Forall_forall. intros row Hrow.
  apply list_elem_of_In, in_map_iff in Hrow as (row0 & <- & _).
  apply Forall_forall. intros c Hc.
  apply list_elem_of_In, in_map_iff in Hc as (c0 & <- & _). reflexivity.
Qed.

Section Exit.
Context {G : Type} (env : Env) (update : float -> M (TerminalEngine G) unit).
Implicit Types w : World G.

Lemma mainLoop_not_running fuel frame previousTime lag w w' :
  running (self w) = false ->
  mainLoop env update fuel frame previousTime lag w = (Ok (Some tt), w') -> w' = w.
Proof.
  intros Hrun H. destruct fuel as [|fuel]; [discriminate H|].
  cbn [mainLoop] in H. unfold mbind, M_bind, get in H. rewrite Hrun in H.
  injection H as <-. reflexivity.
Qed.

(** The loop is left by its condition only with [running] false, and
    then, if it was entered at all, just after [buffer.fill(" ")]. *)
Lemma mainLoop_exit : ∀ fuel frame previousTime lag w w',
  mainLoop env update fuel frame previousTime lag w = (Ok (Some tt), w') ->
  running (self w') = false ∧
  (running (self w) = true -> is_blank (buffer (self w'))).
Proof.
  induction fuel as [|fuel IH]; intros frame previousTime lag w w' H;
    [discriminate H|].
  destruct (running (self w)) eqn:Hrun.
  - cbn [mainLoop] in H.
    apply bind_Ok in H as (w0 & s0 & Hget & H). injection Hget as <- <-.
    rewrite Hrun in H.
    apply bind_Ok in H as ([] & s1 & _ & H).
    apply bind_Ok in H as (currentTime & s2 & _ & H).
    apply bind_Ok in H as (drained & s3 & _ & H).
    destruct drained as [[lag' n]|]; [|discriminate H].
    apply bind_Ok in H as ([] & s4 & _ & H).
    apply bind_Ok in H as ([] & s5 & _ & H).
    apply bind_Ok in H as ([] & s6 & _ & H).
    apply bind_Ok in H as ([] & s7 & _ & H).
    apply bind_Ok in H as ([] & s8 & _ & H).
    apply bind_Ok in H as ([] & s9 & Hfill & H).
    apply bind_Ok in H as (frameEnd & s10 & Hclock & H).
    apply bind_Ok in H as (w2 & s11 & Hget & H). injection Hget as <- <-.
    apply bind_Ok in H as ([] & s12 & Hsleep & H).
    assert (s12 = s10) as ->.
    { destruct (_ <? _)%float; injection Hsleep as <-; reflexivity. }
    unfold on_self, modify in Hfill. injection Hfill as <-.
    injection Hclock as _ <-.
    pose proof (IH _ _ _ _ _ H) as [Hstop Hblank]. split; [exact Hstop|].
    intros _. simpl in Hblank.
    destruct (running (self s8)) eqn:Hrun8; [apply Hblank; reflexivity|].
    apply mainLoop_not_running in H; [|exact Hrun8]. subst w'. simpl.
    apply is_blank_fill.
  - apply mainLoop_not_running in H as Heq; [|exact Hrun]. subst w'.
    split; [exact Hrun|]. intros Htrue. discriminate Htrue.
Qed.

Lemma run_enter_ok w :
  encodable env hide_cursor = true ->
  ∃ w1, run_enter env w = (Ok (perf_counter env (clockReads w)), w1) ∧
        self w1 = set_inputThread true (set_running true (self w)) ∧
        tty w1 = (if os_nt env then tty w else RawMode) ∧
        cursor w1 = false ∧
        stdout w1 = stdout w ++ [hide_cursor] ∧
        captureAlive w1 = true ∧
        atexitHandlers w1 = Datatypes.S (atexitHandlers w).
Proof.
  intros Henc. unfold run_enter, clearScreen, setRawMode, atexit_register,
    startInputThread, time_perf_counter, sys_stdout_write.
  munfold. simpl. rewrite Henc. destruct (os_nt env); simpl;
    eexists; (split; [reflexivity|]); simpl; repeat (split; [reflexivity|]); reflexivity.
Qed.

Lemma run_enter_raises w :
  encodable env hide_cursor = false ->
  run_enter env w =
  (Raise UnicodeEncodeError, with_self (set_running true (self w)) w).
Proof.
  intros Henc. unfold run_enter, clearScreen, sys_stdout_write.
  munfold. simpl. rewrite Henc. reflexivity.
Qed.

(** [stopInputThread] with a thread to join. *)
Lemma stopInputThread_joins w :
  inputThread (self w) = true ->
  ∃ w', stopInputThread env w = (Ok tt, w') ∧
        captureAlive w' = false ∧ running (self w') = false ∧
        tty w' = tty w ∧ cursor w' = cursor w ∧ stdout w' = stdout w ∧
        atexitHandlers w' = atexitHandlers w ∧
        oldSettings (self w') = oldSettings (self w) ∧
        buffer (self w') = buffer (self w) ∧
        prevBuffer (self w') = prevBuffer (self w).
Proof.
  intros Hthread. unfold stopInputThread. munfold. simpl. rewrite Hthread.
  destruct (capture_thread_spec (Reads (captured_at_join env))
              (with_self (set_running false (self w)) w))
    as (w1 & Hrun & Ht & Hc & Ho & Ha & _ & _ & _ & _ & Hs & _).
  unfold mbind, M_bind in Hrun |- *. rewrite Hrun.
  eexists. split; [reflexivity|]. simpl. simpl in Ht, Hc, Ho, Ha, Hs.
  split; [reflexivity|]. rewrite Hs. simpl.
  repeat (split; [first [reflexivity|assumption]|]). reflexivity.
Qed.

(** The [finally] block of [run]. *)
Lemma finally_block w :
  encodable env show_cursor = true ->
  inputThread (self w) = true ->
  (os_nt env = false -> is_Some (oldSettings (self w))) ->
  ∃ w', (stopInputThread env;; restoreTerminal env) w = (Ok tt, w') ∧
        tty w' = (if os_nt env then tty w else default (tty w) (oldSettings (self w))) ∧
        cursor w' = true ∧ captureAlive w' = false ∧
        running (self w') = false ∧
        stdout w' = stdout w ++ [show_cursor] ∧
        atexitHandlers w' = atexitHandlers w ∧
        buffer (self w') = buffer (self w).
Proof.
  intros Henc Hthread Hold.
  destruct (stopInputThread_joins w Hthread)
    as (w1 & Hstop & Ha1 & Hr1 & Ht1 & Hc1 & Ho1 & Hx1 & Hold1 & Hb1 & _).
  unfold mbind, M_bind. rewrite Hstop.
  unfold restoreTerminal, sys_stdout_write. munfold.
  destruct (os_nt env); simpl.
  - rewrite Henc. eexists. split; [reflexivity|]. simpl.
    rewrite Ht1, Ho1. repeat (split; [first [reflexivity|assumption]|]). exact Hb1.
  - rewrite Hold1. destruct (Hold eq_refl) as [a Ha]. rewrite Ha. simpl. rewrite Henc.
    eexists. split; [reflexivity|]. simpl.
    rewrite Ho1. repeat (split; [first [reflexivity|assumption]|]). exact Hb1.
Qed.

End Exit.

(** ** [run] *)

Section Run.
Context {G : Type} (env : Env) (update : float -> M (TerminalEngine G) unit).
Implicit Types w : World G.

(** What [run] does when it ends: it has entered the session, the loop
    has given the outcome of [run], and the [finally] block has run on
    what the loop left. *)
Lemma run_ended fuel w r w' :
  well_behaved update ->
  encodable env hide_cursor = true ->
  encodable env show_cursor = true ->
  (os_nt env = false -> is_Some (oldSettings (self w))) ->
  run env update fuel w = (r, w') ->
  r ≠ Ok None ->
  ∃ w1 w2,
    run_enter env w = (Ok (perf_counter env (clockReads w)), w1) ∧
    mainLoop env update fuel 0 (perf_counter env (clockReads w)) 0%float w1 = (r, w2) ∧
    (stopInputThread env;; restoreTerminal env) w2 = (Ok tt, w') ∧
    session_kept w1 w2 ∧
    tty w' = (if os_nt env then tty w else default (tty w) (oldSettings (self w))) ∧
    cursor w' = true ∧ captureAlive w' = false ∧ running (self w') = false ∧
    (∃ texts, stdout w' = stdout w ++ [hide_cursor] ++ texts ++ [show_cursor] ∧
              Forall is_cell_write texts) ∧
    atexitHandlers w' = Datatypes.S (atexitHandlers w) ∧
    buffer (self w') = buffer (self w2).
Proof.
  intros Hwb Hhide Hshow Hold Hrun Hr. unfold run, mbind, M_bind in Hrun.
  destruct (run_enter_ok env w Hhide) as (w1 & Henter & Hs1 & Ht1 & Hc1 & Ho1 & Ha1 & Hx1).
  rewrite Henter in Hrun. unfold run_try in Hrun.
  destruct (mainLoop env update fuel 0 _ _ w1) as [r0 w2] eqn:Hloop.
  pose proof (mainLoop_session_kept env update Hwb _ _ _ _ _ _ _ Hloop)
    as Hkept. pose proof Hkept as (Ht2 & Hc2 & Hold2 & Hi2 & Hx2 & texts & Ho2 & Htexts).
  assert (Hfin : try_finally (mainLoop env update fuel 0
                   (perf_counter env (clockReads w)) 0%float)
                   (stopInputThread env;; restoreTerminal env) w1 = (r, w')).
  { destruct r0 as [[[]|]|err]; [exact Hrun| |exact Hrun].
    injection Hrun as <- <-. contradiction Hr. reflexivity. }
  clear Hrun. unfold try_finally in Hfin. rewrite Hloop in Hfin.
  assert (Hold' : oldSettings (self w2) = oldSettings (self w))
    by (rewrite Hold2, Hs1; reflexivity).
  destruct (finally_block env w2 Hshow) as (w3 & Hblock & Ht3 & Hc3 & Ha3 & Hr3 & Ho3 & Hx3 & Hb3).
  { rewrite Hi2, Hs1. reflexivity. }
  { intros Hnt. rewrite Hold'. apply Hold, Hnt. }
  rewrite Hblock in Hfin. injection Hfin as <- <-.
  exists w1, w2. split; [exact Henter|]. split; [exact Hloop|]. split; [exact Hblock|].
  split; [exact Hkept|]. split.
  { rewrite Ht3, Ht2, Ht1, Hold'. destruct (os_nt env) eqn:Hnt; [reflexivity|].
    destruct (Hold eq_refl) as [a ->]. reflexivity. }
  split; [exact Hc3|]. split; [exact Ha3|]. split; [exact Hr3|]. split.
  { exists texts. split; [|exact Htexts].
    rewrite Ho3, Ho2, Ho1, <- !app_assoc. reflexivity. }
  split; [rewrite Hx3, Hx2, Hx1; reflexivity|exact Hb3].
Qed.

(** X14.  However [run] ends, by the game clearing [running] or by an
    exception out of [update] or [render], the terminal attributes are
    those it found, provided the game left the saved attributes and the
    thread handle alone, the terminal had the saved attributes when [run]
    was called and the stream encodes the show-cursor sequence.  If the
    hide-cursor sequence could be written, the cursor is shown again, the
    capture thread has ended, [running] is false, and what was written is
    that sequence, cursor-position writes and the show-cursor sequence;
    after a normal end [buffer] is blank.  If it could not, [run] raised
    before entering raw mode and wrote nothing. *)
Theorem run_restores_the_terminal fuel w r w' :
  well_behaved update ->
  encodable env show_cursor = true ->
  (os_nt env = false -> oldSettings (self w) = Some (tty w)) ->
  run env update fuel w = (r, w') ->
  r ≠ Ok None ->
  tty w' = tty w ∧
  if encodable env hide_cursor then
    cursor w' = true ∧ captureAlive w' = false ∧ running (self w') = false ∧
    (∃ texts, stdout w' = stdout w ++ [hide_cursor] ++ texts ++ [show_cursor] ∧
              Forall is_cell_write texts) ∧
    (r = Ok (Some tt) -> is_blank (buffer (self w')))
  else
    r = Raise UnicodeEncodeError ∧ cursor w' = cursor w ∧ stdout w' = stdout w ∧
    captureAlive w' = captureAlive w ∧ running (self w') = true.
Proof.
  intros Hwb Hshow Hold Hrun Hr.
  destruct (encodable env hide_cursor) eqn:Hhide.
  - destruct (run_ended fuel w r w' Hwb Hhide Hshow) as
      (w1 & w2 & Henter & Hloop & _ & _ & Ht & Hc & Ha & Hrn & Hout & _ & Hb);
      [intros Hnt; rewrite (Hold Hnt); eexists; reflexivity|exact Hrun|exact Hr|].
    split.
    { rewrite Ht. destruct (os_nt env) eqn:Hnt; [reflexivity|].
      rewrite (Hold eq_refl). reflexivity. }
    split; [exact Hc|]. split; [exact Ha|]. split; [exact Hrn|]. split; [exact Hout|].
    intros ->. apply mainLoop_exit in Hloop as [_ Hblank]. rewrite Hb. apply Hblank.
    destruct (run_enter_ok env w Hhide) as (w1' & Henter' & Hs1 & _).
    rewrite Henter in Henter'. injection Henter' as <-. rewrite Hs1. reflexivity.
  - unfold run, mbind, M_bind in Hrun.
    rewrite (run_enter_raises env w Hhide) in Hrun. injection Hrun as <- <-.
    simpl. repeat (split; [reflexivity|]). reflexivity.
Qed.

(** X15.  With a game that leaves the saved attributes and the thread
    handle alone, as long as [run] has not left its loop, on a platform
    with terminal attributes the terminal is in raw mode, and on any
    platform the cursor is hidden, the engine holds the thread it has
    started, one exit handler more is registered, and what was written is
    the hide-cursor sequence followed by cursor-position writes. *)
Theorem run_holds_the_raw_session fuel w w' :
  well_behaved update ->
  run env update fuel w = (Ok None, w') ->
  tty w' = (if os_nt env then tty w else RawMode) ∧
  cursor w' = false ∧
  inputThread (self w') = true ∧
  atexitHandlers w' = Datatypes.S (atexitHandlers w) ∧
  ∃ texts, stdout w' = stdout w ++ [hide_cursor] ++ texts ∧
           Forall is_cell_write texts.
Proof.
  intros Hwb Hrun. unfold run, mbind, M_bind in Hrun.
  destruct (encodable env hide_cursor) eqn:Hhide.
  - destruct (run_enter_ok env w Hhide) as (w1 & Henter & Hs1 & Ht1 & Hc1 & Ho1 & Ha1 & Hx1).
    rewrite Henter in Hrun. unfold run_try in Hrun.
    destruct (mainLoop env update fuel 0 _ _ w1) as [r0 w2] eqn:Hloop.
    pose proof (mainLoop_session_kept env update Hwb _ _ _ _ _ _ _ Hloop)
      as (Ht2 & Hc2 & Hold2 & Hi2 & Hx2 & texts & Ho2 & Htexts).
    assert (r0 = Ok None ∧ w2 = w') as [-> ->].
    { destruct r0 as [[[]|]|err].
      - unfold try_finally in Hrun. rewrite Hloop in Hrun.
        destruct ((stopInputThread env;; restoreTerminal env) w2) as [[[]|e] w3];
          discriminate Hrun.
      - injection Hrun as <-. split; reflexivity.
      - unfold try_finally in Hrun. rewrite Hloop in Hrun.
        destruct ((stopInputThread env;; restoreTerminal env) w2) as [[[]|e] w3];
          discriminate Hrun. }
    rewrite Ht2, Hc2, Hi2, Hx2, Hs1.
    repeat (split; [first [reflexivity|assumption]|]).
    exists texts. split; [|exact Htexts]. rewrite Ho2, Ho1, <- app_assoc. reflexivity.
  - rewrite (run_enter_raises env w Hhide) in Hrun. discriminate Hrun.
Qed.

End Run.

Lemma update_raise_well_behaved : well_behaved update_raise.
Proof. intros dt e. split; reflexivity. Defined.

Lemma update_pass_well_behaved : well_behaved (@update_pass unit).
Proof. intros dt e. split; reflexivity. Defined.

Lemma run_update_raise :
  run posix update_raise 3 world10x4 = (Raise (GameError "update"), world_after_raise).
Proof. vm_compute. reflexivity. Defined.

Lemma run_update_pass :
  run posix update_pass 3 world10x4 = (Ok None, world_after_three).
Proof. vm_compute. reflexivity. Defined.

Lemma raise_is_not_running : Raise (GameError "update") ≠ Ok (@None unit).
Proof. discriminate. Defined.

Lemma world10x4_saved_attrs :
  os_nt posix = false -> oldSettings (self world10x4) = Some (tty world10x4).
Proof. intros _. reflexivity. Defined.

Lemma world10x4_saved_cooked :
  os_nt posix = false -> oldSettings (self world10x4) = Some Cooked.
Proof. intros _. reflexivity. Defined.

Lemma run_restores_the_terminal_witness :
  well_behaved update_raise ∧
  encodable posix show_cursor = true ∧
  (os_nt posix = false -> oldSettings (self world10x4) = Some (tty world10x4)) ∧
  run posix update_raise 3 world10x4 = (Raise (GameError "update"), world_after_raise) ∧
  Raise (GameError "update") ≠ Ok (@None unit) ∧
  tty world_after_raise = tty world10x4 ∧
  if encodable posix hide_cursor then
    cursor world_after_raise = true ∧ captureAlive world_after_raise = false ∧
    running (self world_after_raise) = false ∧
    (∃ texts, stdout world_after_raise
              = stdout world10x4 ++ [hide_cursor] ++ texts ++ [show_cursor] ∧
              Forall is_cell_write texts) ∧
    (Raise (GameError "update") = Ok (Some tt) ->
     is_blank (buffer (self world_after_raise)))
  else
    @Raise (option unit) (GameError "update") = Raise UnicodeEncodeError ∧
    cursor world_after_raise = cursor world10x4 ∧
    stdout world_after_raise = stdout world10x4 ∧
    captureAlive world_after_raise = captureAlive world10x4 ∧
    running (self world_after_raise) = true.
Proof.
  split; [exact update_raise_well_behaved|]. split; [reflexivity|].
  split; [exact world10x4_saved_attrs|]. split; [exact run_update_raise|].
  split; [exact raise_is_not_running|].
  exact (run_restores_the_terminal posix update_raise 3 world10x4 _ world_after_raise
           update_raise_well_behaved eq_refl world10x4_saved_attrs
           run_update_raise raise_is_not_running).
Defined.

Lemma run_holds_the_raw_session_witness :
  well_behaved (@update_pass unit) ∧
  run posix update_pass 3 world10x4 = (Ok None, world_after_three) ∧
  tty world_after_three = (if os_nt posix then tty world10x4 else RawMode) ∧
  cursor world_after_three = false ∧
  inputThread (self world_after_three) = true ∧
  atexitHandlers world_after_three = Datatypes.S (atexitHandlers world10x4) ∧
  ∃ texts, stdout world_after_three = stdout world10x4 ++ [hide_cursor] ++ texts ∧
           Forall is_cell_write texts.
Proof.
  split; [exact update_pass_well_behaved|]. split; [exact run_update_pass|].
  exact (run_holds_the_raw_session posix update_pass 3 world10x4 world_after_three
           update_pass_well_behaved run_update_pass).
Defined.

(** A game that quits on its first tick: [run] returns, five ticks have
    run in the one iteration, and the terminal is as it was found. *)
Example run_update_quit :
  ∃ w', run posix update_quit 3 world10x4 = (Ok (Some tt), w') ∧
        updateCalls w' = 5%nat ∧ tty w' = Cooked ∧ cursor w' = true ∧
        stdout w' = [hide_cursor; show_cursor].
Proof. eexists. split; [vm_compute; reflexivity|]. repeat split. Qed.

(** A game that draws a character the stream cannot encode: [render]
    raises, and the terminal is as it was found. *)
Example run_update_block :
  ∃ w', run posix_ascii update_block 3 world10x4 = (Raise UnicodeEncodeError, w') ∧
        tty w' = Cooked ∧ cursor w' = true ∧ captureAlive w' = false ∧
        stdout w' = [hide_cursor; show_cursor].
Proof. eexists. split; [vm_compute; reflexivity|]. repeat split. Qed.


Lemma update_quit_well_behaved : well_behaved update_quit.
Proof. intros dt e. split; reflexivity. Defined.



(** What the two provisos are for: a game that assigns [self.oldSettings]
    leaves the terminal with what it assigned, and a stream that fails on
    the show-cursor sequence leaves the cursor hidden, with the
    exception of the stream in place of the outcome of the loop. *)
Example run_without_the_provisos :
  (∃ w', run posix update_clobber 3 world10x4 = (Ok (Some tt), w') ∧
         tty world10x4 = Cooked ∧ tty w' = RawMode) ∧
  (∃ w', run posix_mute update_raise 3 world10x4 = (Raise UnicodeEncodeError, w') ∧
         tty w' = Cooked ∧ cursor w' = false ∧ captureAlive w' = false).
Proof.
  split; eexists; (split; [vm_compute; reflexivity|]); repeat split.
Qed.

(** Keys the thread reads after the last [clearKeyStates] are still in
    [keysPressed] when [run] has ended. *)
Example run_with_late_keys :
  ∃ w', run posix_keys update_quit_on_q 3 world10x4 = (Ok (Some tt), w') ∧
        updateCalls w' = 5%nat ∧ captureAlive w' = false ∧
        isKeyReleased (self w') "q" = true ∧
        isKeyPressed (self w') (String "233"%char EmptyString) = true ∧
        isKeyPressed (self w') "x" = true ∧
        tty w' = Cooked ∧ cursor w' = true.
Proof.
  eexists. split; [vm_compute; reflexivity|]. unfold isKeyReleased, isKeyPressed. simpl.
  repeat split; apply bool_decide_eq_true; set_solver.
Qed.

(** ** Raw mode and back *)

(** X16.  Entering raw mode and restoring the terminal.  When the stream
    encodes the show-cursor sequence and, where there are terminal
    attributes, the engine holds saved ones, [setRawMode] followed by
    [restoreTerminal] returns, leaves the terminal with the saved
    attributes (the ones it has, where there are none to save), shows the
    cursor and writes the show-cursor sequence once; restoring a second
    time, as the exit handler does, changes neither.  When the stream does
    not encode the sequence, [restoreTerminal] raises only after it has
    put the saved attributes back. *)
Theorem raw_mode_round_trip {G} (env : Env) (w : World G) (saved : termios) :
  (os_nt env = false -> oldSettings (self w) = Some saved) ->
  (encodable env show_cursor = true ->
   ∃ w1 w2 w3,
     setRawMode env w = (Ok tt, w1) ∧
     tty w1 = (if os_nt env then tty w else RawMode) ∧
     restoreTerminal env w1 = (Ok tt, w2) ∧
     tty w2 = (if os_nt env then tty w else saved) ∧
     cursor w2 = true ∧ self w2 = self w ∧
     stdout w2 = stdout w ++ [show_cursor] ∧
     restoreTerminal env w2 = (Ok tt, w3) ∧
     tty w3 = tty w2 ∧ cursor w3 = true ∧ self w3 = self w) ∧
  (encodable env show_cursor = false ->
   ∃ w', restoreTerminal env w = (Raise UnicodeEncodeError, w') ∧
         tty w' = (if os_nt env then tty w else saved) ∧
         cursor w' = cursor w ∧ stdout w' = stdout w).
Proof.
  intros Hold.
  assert (Hrestore : ∀ (v : World G), self v = self w ->
    restoreTerminal env v =
    if encodable env show_cursor then
      (Ok tt,
       {| self := self v; tty := (if os_nt env then tty v else saved);
          cursor := true; stdout := stdout v ++ [show_cursor];
          captureAlive := captureAlive v; atexitHandlers := atexitHandlers v;
          clockReads := clockReads v; updateCalls := updateCalls v |})
    else (Raise UnicodeEncodeError, with_tty (if os_nt env then tty v else saved) v)).
  { intros v Hv. unfold restoreTerminal, sys_stdout_write. munfold.
    destruct (os_nt env) eqn:Hnt; simpl.
    - destruct (encodable env show_cursor); [reflexivity|].
      destruct v; reflexivity.
    - replace (oldSettings (self v)) with (Some saved)
        by (rewrite Hv; symmetry; apply Hold; reflexivity).
      simpl. destruct (encodable env show_cursor); reflexivity. }
  destruct (os_nt env) eqn:Hnt; (split; intros Henc;
    [ eexists _, _, _; split; [unfold setRawMode; rewrite Hnt; reflexivity|];
      split; [reflexivity|];
      split; [rewrite Hrestore, Henc; reflexivity|];
      simpl; repeat (split; [reflexivity|]);
      split; [rewrite Hrestore, Henc; reflexivity|];
      simpl; repeat (split; [reflexivity|]); reflexivity
    | rewrite (Hrestore w eq_refl), Henc; eexists; split; [reflexivity|];
      repeat (split; [reflexivity|]); reflexivity ]).
Qed.

Lemma raw_mode_round_trip_witness :
  (os_nt posix = false -> oldSettings (self world10x4) = Some Cooked) ∧
  (encodable posix show_cursor = true ->
   ∃ w1 w2 w3,
     setRawMode posix world10x4 = (Ok tt, w1) ∧
     tty w1 = (if os_nt posix then tty world10x4 else RawMode) ∧
     restoreTerminal posix w1 = (Ok tt, w2) ∧
     tty w2 = (if os_nt posix then tty world10x4 else Cooked) ∧
     cursor w2 = true ∧ self w2 = self world10x4 ∧
     stdout w2 = stdout world10x4 ++ [show_cursor] ∧
     restoreTerminal posix w2 = (Ok tt, w3) ∧
     tty w3 = tty w2 ∧ cursor w3 = true ∧ self w3 = self world10x4) ∧
  (encodable posix show_cursor = false ->
   ∃ w', restoreTerminal posix world10x4 = (Raise UnicodeEncodeError, w') ∧
         tty w' = (if os_nt posix then tty world10x4 else Cooked) ∧
         cursor w' = cursor world10x4 ∧ stdout w' = stdout world10x4).
Proof.
  split; [exact world10x4_saved_cooked|].
  exact (raw_mode_round_trip posix world10x4 Cooked world10x4_saved_cooked).
Defined.

(** ** One pixel, one write *)

Lemma list_is_singleton {A} (l : list A) (a : A) :
  NoDup l -> (∀ p, p ∈ l ↔ p = a) -> l = [a].
Proof.
  intros Hnd Hin. destruct l as [|b l].
  - exfalso. eapply not_elem_of_nil. apply Hin. reflexivity.
  - assert (b = a) as -> by (apply Hin; left).
    destruct l as [|b' l]; [reflexivity|].
    assert (b' = a) as -> by (apply Hin; right; left).
    apply NoDup_cons in Hnd as [Hnot _]. exfalso. apply Hnot. left.
Qed.

Lemma list_is_nil {A} (l : list A) : (∀ p, p ∉ l) -> l = [].
Proof. intros Hin. destruct l as [|b l]; [reflexivity|]. exfalso. apply (Hin b). left. Qed.

Lemma changed_after_drawPixel {G} (e e' : TerminalEngine G) (x y : Z) (char : string) :
  shape_ok e -> prevBuffer e = buffer e -> in_bounds e x y ->
  drawPixel x y char e = (Ok tt, e') ->
  changed e' =
  if decide (cell_at (buffer e) (Z.to_nat y) (Z.to_nat x) = U1 char) then []
  else [(Z.to_nat y, Z.to_nat x)].
Proof.
  intros Hok Hsame Hin Hrun.
  destruct (drawPixel_in_eq e x y char Hok Hin) as (row & Hrow & Hlen & Hrun').
  rewrite Hrun' in Hrun. injection Hrun as <-.
  assert (Hmem : ∀ r c, (r, c) ∈ changed
            (set_buffer (<[Z.to_nat y := <[Z.to_nat x := U1 char]> row]> (buffer e)) e)
          ↔ (r, c) = (Z.to_nat y, Z.to_nat x) ∧
            cell_at (buffer e) (Z.to_nat y) (Z.to_nat x) ≠ U1 char).
  { intros r c. rewrite elem_of_changed. unfold differs. simpl. rewrite Hsame.
    setoid_rewrite (lookup2_insert _ _ _ _ _ r c Hrow Hlen).
    destruct (decide (r = Z.to_nat y ∧ c = Z.to_nat x)) as [[-> ->]|Hne].
    - unfold cell_at. rewrite Hrow. simpl. split.
      + intros (cc & p & Hcc & Hp & Hneq). injection Hcc as <-. rewrite Hp. simpl.
        split; [reflexivity|]. congruence.
      + intros [_ Hneq].
        destruct (lookup_lt_is_Some_2 row (Z.to_nat x) Hlen) as [p Hp].
        rewrite Hp in Hneq |- *. simpl in Hneq. exists (U1 char), p.
        split; [reflexivity|]. split; [reflexivity|]. congruence.
    - split.
      + intros (cc & p & Hcc & Hp & Hneq). congruence.
      + intros [Heq _]. injection Heq as -> ->. tauto. }
  pose proof (changed_sorted
    (set_buffer (<[Z.to_nat y := <[Z.to_nat x := U1 char]> row]> (buffer e)) e)) as Hsorted.
  apply (StronglySorted_NoDup _ _ row_major_irrefl) in Hsorted.
  destruct (decide (cell_at (buffer e) (Z.to_nat y) (Z.to_nat x) = U1 char)) as [Heq|Hneq].
  - apply list_is_nil. intros [r c] Hrc. apply Hmem in Hrc as [_ Hrc]. tauto.
  - apply list_is_singleton; [exact Hsorted|]. intros [r c]. rewrite Hmem. tauto.
Qed.

(** C2.  [render] emits the difference and copies.  When [render]
    returns, it has written one text per cell in which [buffer] and
    [prevBuffer] differed, each such cell once and no other; [buffer] is
    as it was and [prevBuffer] is equal to it, so that a second [render]
    finds no cell changed, writes nothing and changes nothing; and when
    one cell of [buffer] is then changed by a [drawPixel], [prevBuffer]
    does not follow it, and the cells [render] would visit are that cell
    and no other. *)
Theorem render_emits_the_difference_and_copies {G} (env : Env) (w w' : World G) :
  render env w = (Ok tt, w') ->
  stdout w' = stdout w ++ written (self w) ∧
  length (written (self w)) = length (changed (self w)) ∧
  NoDup (changed (self w)) ∧
  (∀ y x, (y, x) ∈ changed (self w) ↔ differs (self w) y x) ∧
  buffer (self w') = buffer (self w) ∧
  prevBuffer (self w') = buffer (self w) ∧
  changed (self w') = [] ∧
  render env w' = (Ok tt, w') ∧
  (∀ x y char e1,
     shape_ok (self w') -> in_bounds (self w') x y ->
     drawPixel x y char (self w') = (Ok tt, e1) ->
     cell_at (buffer (self w')) (Z.to_nat y) (Z.to_nat x) ≠ U1 char ->
     prevBuffer e1 = buffer (self w) ∧
     changed e1 = [(Z.to_nat y, Z.to_nat x)] ∧
     ∀ r c, differs e1 r c ↔ (r, c) = (Z.to_nat y, Z.to_nat x)).
Proof.
  intros Hrun. apply render_frame in Hrun as (_ & _ & _ & _ & _ & Hs & Hout).
  assert (Hsame : prevBuffer (self w') = buffer (self w'))
    by (rewrite Hs; reflexivity).
  split; [exact Hout|]. split; [apply length_fmap|].
  split; [eapply StronglySorted_NoDup; [apply row_major_irrefl|apply changed_sorted]|].
  split; [intros y x; apply elem_of_changed|].
  split; [rewrite Hs; reflexivity|]. split; [rewrite Hs; reflexivity|].
  split; [apply changed_same, Hsame|].
  split; [apply render_same, Hsame|].
  intros x y char e1 Hok Hin Hdraw Hne.
  pose proof (changed_after_drawPixel _ _ _ _ _ Hok Hsame Hin Hdraw) as Hch.
  rewrite decide_False in Hch by exact Hne. split.
  { destruct (drawPixel_in_eq _ x y char Hok Hin) as (row & _ & _ & Hdraw').
    rewrite Hdraw' in Hdraw. injection Hdraw as <-. simpl. rewrite Hs. reflexivity. }
  split; [exact Hch|].
  intros r c. rewrite <- elem_of_changed, Hch. apply list_elem_of_singleton.
Qed.

Lemma render_emits_the_difference_and_copies_witness :
  render posix world_one = (Ok tt, world_one_rendered) ∧
  stdout world_one_rendered = stdout world_one ++ written (self world_one) ∧
  length (written (self world_one)) = length (changed (self world_one)) ∧
  NoDup (changed (self world_one)) ∧
  (∀ y x, (y, x) ∈ changed (self world_one) ↔ differs (self world_one) y x) ∧
  buffer (self world_one_rendered) = buffer (self world_one) ∧
  prevBuffer (self world_one_rendered) = buffer (self world_one) ∧
  changed (self world_one_rendered) = [] ∧
  render posix world_one_rendered = (Ok tt, world_one_rendered) ∧
  (∀ x y char e1,
     shape_ok (self world_one_rendered) -> in_bounds (self world_one_rendered) x y ->
     drawPixel x y char (self world_one_rendered) = (Ok tt, e1) ->
     cell_at (buffer (self world_one_rendered)) (Z.to_nat y) (Z.to_nat x) ≠ U1 char ->
     prevBuffer e1 = buffer (self world_one) ∧
     changed e1 = [(Z.to_nat y, Z.to_nat x)] ∧
     ∀ r c, differs e1 r c ↔ (r, c) = (Z.to_nat y, Z.to_nat x)).
Proof.
  split; [exact render_world_one|].
  exact (render_emits_the_difference_and_copies posix world_one world_one_rendered
           render_world_one).
Defined.

(** On the 10×4 grid, after [drawPixel(2, 1, "@")] the one changed cell
    is the one at row 1 and column 2; [render] writes one text, and a
    second [render] writes nothing. *)
Example render_world_one_scenario :
  changed (self world_one) = [(1, 2)]%nat ∧
  stdout world_one_rendered = [cell_text 1 2 "@"] ∧
  changed (self world_one_rendered) = [] ∧
  stdout (render posix world_one_rendered).2 = stdout world_one_rendered.
Proof. vm_compute. repeat split. Qed.

(** X17.  One [drawPixel], one write.  On an engine whose grids are equal
    and have its dimensions, an in-bounds [drawPixel] followed by [render]
    writes one text, for that cell, with the character stored, when the
    cell held something else, and nothing when it held that character
    already; afterwards the grids are equal again. *)
Theorem one_pixel_one_write {G} (env : Env) (w : World G) (x y : Z) (char : string) :
  shape_ok (self w) ->
  prevBuffer (self w) = buffer (self w) ->
  in_bounds (self w) x y ->
  encodable env (cell_text (Z.to_nat y) (Z.to_nat x) (U1 char)) = true ->
  ∃ w', (on_self (drawPixel x y char);; render env) w = (Ok tt, w') ∧
        stdout w' = stdout w ++
          (if decide (cell_at (buffer (self w)) (Z.to_nat y) (Z.to_nat x) = U1 char)
           then [] else [cell_text (Z.to_nat y) (Z.to_nat x) (U1 char)]) ∧
        np_getitem (buffer (self w')) y x = Ok (U1 char) ∧
        prevBuffer (self w') = buffer (self w').
Proof.
  intros Hok Hsame Hin Henc.
  destruct (drawPixel_in (self w) x y char Hok Hin) as (b & Hdraw & Hshape & Hcell).
  pose proof (changed_after_drawPixel _ _ _ _ _ Hok Hsame Hin Hdraw) as Hch.
  unfold mbind, M_bind, on_self. rewrite Hdraw.
  set (w1 := with_self (set_buffer b (self w)) w).
  assert (Hwr : written (self w1) =
    if decide (cell_at (buffer (self w)) (Z.to_nat y) (Z.to_nat x) = U1 char)
    then [] else [cell_text (Z.to_nat y) (Z.to_nat x) (U1 char)]).
  { unfold written. simpl self. rewrite Hch. destruct (decide _); [reflexivity|].
    simpl. rewrite Hcell. rewrite decide_True by done. reflexivity. }
  destruct (render_returns env w1) as [w' Hrender].
  { intros s Hs. rewrite Hwr in Hs. destruct (decide _); [inversion Hs|].
    apply list_elem_of_singleton in Hs as ->. exact Henc. }
  exists w'. split; [exact Hrender|].
  apply render_frame in Hrender as (_ & _ & _ & _ & _ & Hs & Hout).
  rewrite Hout, Hwr, Hs. simpl. split; [reflexivity|]. split; [|reflexivity].
  destruct Hin as [Hx Hy]. rewrite (np_getitem_in _ _ _ _ _ Hshape Hy Hx), Hcell.
  rewrite decide_True by done. reflexivity.
Qed.

Lemma one_pixel_one_write_witness :
  shape_ok (self world10x4) ∧
  prevBuffer (self world10x4) = buffer (self world10x4) ∧
  in_bounds (self world10x4) 2 1 ∧
  encodable posix (cell_text (Z.to_nat 1) (Z.to_nat 2) (U1 "@")) = true ∧
  ∃ w', (on_self (drawPixel 2 1 "@");; render posix) world10x4 = (Ok tt, w') ∧
        stdout w' = stdout world10x4 ++
          (if decide (cell_at (buffer (self world10x4)) (Z.to_nat 1) (Z.to_nat 2) = U1 "@")
           then [] else [cell_text (Z.to_nat 1) (Z.to_nat 2) (U1 "@")]) ∧
        np_getitem (buffer (self w')) 1 2 = Ok (U1 "@") ∧
        prevBuffer (self w') = buffer (self w').
Proof.
  split; [exact shape_ok_engine10x4|]. split; [reflexivity|].
  split; [exact in_bounds_engine10x4_2_1|]. split; [reflexivity|].
  exact (one_pixel_one_write posix world10x4 2 1 "@"
           shape_ok_engine10x4 eq_refl in_bounds_engine10x4_2_1 eq_refl).
Defined.

(** * The Tetris game *)

(** ** [collision] *)

Lemma cell_collides_returns t y x cell :
  board_ok t -> (0 ≤ current_y t)%Z -> ∃ b, cell_collides t y x cell = Ok b.
Proof.
  intros [Hb _] Hy. unfold cell_collides.
  destruct (decide (cell = 0%Z)); [eexists; reflexivity|].
  destruct (decide _) as [Hout|Hin]; [eexists; reflexivity|].
  rewrite (np_getitem_in _ _ _ _ _ Hb) by lia. eexists. reflexivity.
Qed.

Lemma row_collides_returns t y cells :
  board_ok t -> (0 ≤ current_y t)%Z -> ∃ b, row_collides t y cells = Ok b.
Proof.
  intros Hb Hy. induction cells as [|[x cell] cells IH]; [eexists; reflexivity|].
  simpl. destruct (cell_collides_returns t y x cell Hb Hy) as [[] ->];
    [eexists; reflexivity|exact IH].
Qed.

Lemma rows_collide_returns t rows :
  board_ok t -> (0 ≤ current_y t)%Z -> ∃ b, rows_collide t rows = Ok b.
Proof.
  intros Hb Hy. induction rows as [|[y row] rows IH]; [eexists; reflexivity|].
  simpl. destruct (row_collides_returns t y (enumerate row) Hb Hy) as [[] ->];
    [eexists; reflexivity|exact IH].
Qed.

Lemma collision_returns t p :
  board_ok t -> (0 ≤ current_y t)%Z -> current_piece t = Some p ->
  ∃ b, collision t = (Ok b, t).
Proof.
  intros Hb Hy Hp. unfold collision. rewrite Hp. destruct p as [s color].
  destruct (rows_collide_returns t (enumerate s) Hb Hy) as [b ->].
  exists b. reflexivity.
Qed.

Lemma collision_has_piece t b : collision t = (Ok b, t) -> is_Some (current_piece t).
Proof.
  unfold collision. destruct (current_piece t) as [p|]; [eexists; reflexivity|].
  discriminate.
Qed.

Lemma set_current_x_id t : set_current_x (current_x t) t = t.
Proof. destruct t; reflexivity. Qed.

Lemma set_current_piece_id t : set_current_piece (current_piece t) t = t.
Proof. destruct t; reflexivity. Qed.

(** X18.  A piece that does not collide still does not after
    [move_piece] or [rotate_piece]: on a board of the size the game says,
    with the piece at a row that is not negative, either call returns, and
    leaves the game either moved (rotated) or exactly as it was. *)
Theorem moves_keep_the_piece_free (t : TetrisGame) (dx : Z) :
  board_ok t -> (0 ≤ current_y t)%Z ->
  collision t = (Ok false, t) ->
  (∃ t', move_piece dx t = (Ok tt, t') ∧ collision t' = (Ok false, t') ∧
         (t' = set_current_x (current_x t + dx)%Z t ∨ t' = t)) ∧
  (∃ t', rotate_piece t = (Ok tt, t') ∧ collision t' = (Ok false, t') ∧
         (t' = t ∨
          ∃ s color, current_piece t = Some (s, color) ∧
                     t' = set_current_piece (Some (np_rot90_clockwise s, color)) t)).
Proof.
  intros Hb Hy Hfree. destruct (collision_has_piece _ _ Hfree) as [[s color] Hp].
  split.
  - unfold move_piece, modify. munfold.
    destruct (collision_returns (set_current_x (current_x t + dx)%Z t) (s, color))
      as [[] Hc]; [exact Hb|exact Hy|exact Hp| |].
    + rewrite Hc. exists t. split.
      * f_equal. simpl.
        replace (current_x t + dx - dx)%Z with (current_x t) by lia.
        destruct t; reflexivity.
      * split; [exact Hfree|right; reflexivity].
    + rewrite Hc. eexists. split; [reflexivity|]. split; [exact Hc|left; reflexivity].
  - unfold rotate_piece, modify. munfold. rewrite Hp.
    destruct (collision_returns
                (set_current_piece (Some (np_rot90_clockwise s, color)) t)
                (np_rot90_clockwise s, color)) as [[] Hc];
      [exact Hb|exact Hy|reflexivity| |].
    + rewrite Hc. exists t. split.
      * f_equal. rewrite <- Hp. destruct t; reflexivity.
      * split; [exact Hfree|left; reflexivity].
    + rewrite Hc. eexists. split; [reflexivity|]. split; [exact Hc|].
      right. exists s, color. split; reflexivity.
Qed.

Lemma board_ok_tetris_T : board_ok tetris_T.
Proof.
  split; [|simpl; lia]. split; [reflexivity|].
  apply Forall_replicate. reflexivity.
Defined.

Lemma tetris_T_row : (0 ≤ current_y tetris_T)%Z.
Proof. simpl. lia. Defined.

Lemma tetris_T_free : collision tetris_T = (Ok false, tetris_T).
Proof. vm_compute. reflexivity. Defined.

Lemma moves_keep_the_piece_free_witness :
  board_ok tetris_T ∧ (0 ≤ current_y tetris_T)%Z ∧
  collision tetris_T = (Ok false, tetris_T) ∧
  (∃ t', move_piece (-4) tetris_T = (Ok tt, t') ∧ collision t' = (Ok false, t') ∧
         (t' = set_current_x (current_x tetris_T + -4)%Z tetris_T ∨ t' = tetris_T)) ∧
  (∃ t', rotate_piece tetris_T = (Ok tt, t') ∧ collision t' = (Ok false, t') ∧
         (t' = tetris_T ∨
          ∃ s color, current_piece tetris_T = Some (s, color) ∧
                     t' = set_current_piece (Some (np_rot90_clockwise s, color)) tetris_T)).
Proof.
  split; [exact board_ok_tetris_T|]. split; [exact tetris_T_row|].
  split; [exact tetris_T_free|].
  exact (moves_keep_the_piece_free tetris_T (-4)
           board_ok_tetris_T tetris_T_row tetris_T_free).
Defined.

(** ** [clear_lines] *)

Lemma length_filter_split {A} (f : A -> bool) (l : list A) :
  (length (filter (fun b => b = true) (f <$> l)) +
   length (filter (fun a => f a = false) l))%nat = length l.
Proof.
  induction l as [|a l IH]; [reflexivity|]. csimpl.
  rewrite !filter_cons. destruct (f a) eqn:Hf.
  - rewrite decide_True by reflexivity. rewrite decide_False by discriminate.
    simpl. lia.
  - rewrite decide_False by discriminate. rewrite decide_True by reflexivity.
    simpl. lia.
Qed.

Lemma length_filter_fmap_true {A} (f : A -> bool) (l : list A) :
  length (filter (fun b => b = true) (f <$> l)) =
  length (filter (fun a => f a = true) l).
Proof.
  induction l as [|a l IH]; [reflexivity|]. csimpl.
  rewrite !filter_cons. destruct (f a) eqn:Hf.
  - rewrite !decide_True by reflexivity. simpl. congruence.
  - rewrite !decide_False by discriminate. exact IH.
Qed.

Lemma filter_none_true {A} (f : A -> bool) (l : list A) :
  length (filter (fun a => f a = true) l) = 0%nat ->
  filter (fun a => f a = false) l = l.
Proof.
  induction l as [|a l IH]; [reflexivity|]. rewrite !filter_cons.
  destruct (f a) eqn:Hf.
  - rewrite decide_True by reflexivity. discriminate.
  - rewrite decide_False by discriminate. rewrite decide_True by reflexivity.
    intros H. f_equal. apply IH, H.
Qed.

Lemma np_vstack_same_width (a b : ndarray) (w : nat) :
  Forall (fun row => length row = w) (a ++ b) -> np_vstack a b = Ok (a ++ b).
Proof.
  intros Hw. unfold np_vstack. destruct (a ++ b) as [|row rest]; [reflexivity|].
  apply Forall_cons in Hw as [Hrow Hrest].
  replace (forallb _ rest) with true; [reflexivity|].
  symmetry. apply forallb_forall. intros r Hr. apply Nat.eqb_eq.
  rewrite Forall_forall in Hrest. rewrite (Hrest r); [congruence|].
  apply list_elem_of_In, Hr.
Qed.

Lemma row_full_blank (w : nat) : (0 < w)%nat -> row_full (replicate w " ") = false.
Proof. destruct w; [lia|]. reflexivity. Qed.

Lemma wrap64_mod z : (wrap64 z mod 2 ^ 64 = z mod 2 ^ 64)%Z.
Proof.
  unfold wrap64. rewrite Zminus_mod_idemp_l. f_equal. lia.
Qed.

Lemma wrap64_eqm a b : (a mod 2 ^ 64 = b mod 2 ^ 64)%Z -> wrap64 a = wrap64 b.
Proof.
  intros H. unfold wrap64. f_equal.
  rewrite <- (Zplus_mod_idemp_l a), <- (Zplus_mod_idemp_l b), H. reflexivity.
Qed.

Lemma wrap64_id z : int64 z -> wrap64 z = z.
Proof. unfold int64, wrap64. intros H. rewrite Z.mod_small by lia. lia. Qed.

Lemma wrap64_int64 z : int64 (wrap64 z).
Proof.
  unfold int64, wrap64.
  pose proof (Z.mod_pos_bound (z + 2 ^ 63) (2 ^ 64)) as H. lia.
Qed.

Lemma wrap64_add_r a b : wrap64 (a + wrap64 b) = wrap64 (a + b).
Proof.
  apply wrap64_eqm. rewrite Zplus_mod, wrap64_mod, <- Zplus_mod. reflexivity.
Qed.

Lemma wrap64_mul_l a b : wrap64 (wrap64 a * b) = wrap64 (a * b).
Proof.
  apply wrap64_eqm. rewrite Zmult_mod, wrap64_mod, <- Zmult_mod. reflexivity.
Qed.

Lemma wrap64_square a : wrap64 (wrap64 a ^ 2) = wrap64 (a ^ 2).
Proof.
  apply wrap64_eqm. rewrite !Z.pow_2_r.
  rewrite Zmult_mod, wrap64_mod, <- Zmult_mod. reflexivity.
Qed.

Lemma as_int64_in z : int64 z -> as_int64 z = Ok z.
Proof. intros H. unfold as_int64. rewrite decide_True by exact H. reflexivity. Qed.

Lemma int64_tenth z : int64 z -> wrap64 (wrap64 (z / 10) + 1) = (z / 10 + 1)%Z.
Proof.
  intros H.
  assert (Hq : (- 2 ^ 63 ≤ z / 10 ∧ z / 10 + 1 < 2 ^ 63)%Z).
  { unfold int64 in H. pose proof (Z.div_mod z 10) as Hd.
    pose proof (Z.mod_pos_bound z 10) as Hm. lia. }
  rewrite (wrap64_id (z / 10)) by (unfold int64; lia).
  apply wrap64_id. unfold int64. lia.
Qed.

(** X19.  [clear_lines] on a board of the size the game says, with
    [lines_cleared] and [score] in the range of an [np.int64]: it returns;
    the board keeps its size and has no full row left; it is as many
    blank rows as there were full ones, on top of the rows that were not
    full, in their order; [lines_cleared] grows by the number [n] of full
    rows and [score] by [n² · 100], both wrapping around as [np.int64]
    sums do, so that they are the plain sums whenever these are below
    [2 ** 63], and [2 ** 64] less for a score from there on; when [n] is
    not zero [level] becomes
    [lines_cleared // 10 + 1]; the pieces and the position are kept. *)
Theorem clear_lines_removes_the_full_rows (t : TetrisGame) :
  board_ok t -> int64 (lines_cleared t) -> int64 (score t) ->
  let n := length (filter (fun row => row_full row = true) (board t)) in
  ∃ t', clear_lines t = (Ok tt, t') ∧
        board_ok t' ∧
        board_width t' = board_width t ∧ board_height t' = board_height t ∧
        board t' = replicate n (replicate (Z.to_nat (board_width t)) " ") ++
                   filter (fun row => row_full row = false) (board t) ∧
        Forall (fun row => row_full row = false) (board t') ∧
        lines_cleared t' = wrap64 (lines_cleared t + Z.of_nat n) ∧
        score t' = wrap64 (score t + Z.of_nat n ^ 2 * 100) ∧
        ((lines_cleared t + Z.of_nat n < 2 ^ 63)%Z ->
         lines_cleared t' = (lines_cleared t + Z.of_nat n)%Z) ∧
        ((score t + Z.of_nat n ^ 2 * 100 < 2 ^ 63)%Z ->
         score t' = (score t + Z.of_nat n ^ 2 * 100)%Z) ∧
        ((2 ^ 63 ≤ score t + Z.of_nat n ^ 2 * 100 < 2 ^ 63 + 2 ^ 64)%Z ->
         score t' = (score t + Z.of_nat n ^ 2 * 100 - 2 ^ 64)%Z) ∧
        (n ≠ 0%nat -> level t' = (lines_cleared t' / 10 + 1)%Z) ∧
        current_piece t' = current_piece t ∧ next_piece t' = next_piece t ∧
        current_x t' = current_x t ∧ current_y t' = current_y t.
Proof.
  intros [[Hh Hrows] Hw] Hlines Hscore n.
  assert (Hn : length (filter (fun b => b = true) (row_full <$> board t)) = n)
    by apply length_filter_fmap_true.
  assert (Hkept : Forall (fun row => row_full row = false)
                    (filter (fun row => row_full row = false) (board t))).
  { apply Forall_forall. intros row Hrow. apply list_elem_of_filter in Hrow. tauto. }
  assert (Hwidth : Forall (fun row => length row = Z.to_nat (board_width t))
             (replicate n (replicate (Z.to_nat (board_width t)) " ") ++
              filter (fun row => row_full row = false) (board t))).
  { apply Forall_app. split.
    - apply Forall_replicate. apply length_replicate.
    - apply Forall_forall. intros row Hrow. apply list_elem_of_filter in Hrow as [_ Hrow].
      rewrite Forall_forall in Hrows. specialize (Hrows row Hrow). lia. }
  assert (Hplain_lines : (lines_cleared t + Z.of_nat n < 2 ^ 63)%Z ->
            wrap64 (lines_cleared t + Z.of_nat n) = (lines_cleared t + Z.of_nat n)%Z).
  { intros Hlt. apply wrap64_id. unfold int64 in *. lia. }
  assert (Hwrap_score : (2 ^ 63 ≤ score t + Z.of_nat n ^ 2 * 100 < 2 ^ 63 + 2 ^ 64)%Z ->
            wrap64 (score t + Z.of_nat n ^ 2 * 100)
            = (score t + Z.of_nat n ^ 2 * 100 - 2 ^ 64)%Z).
  { intros Hlt. unfold wrap64.
    replace (score t + Z.of_nat n ^ 2 * 100 + 2 ^ 63)%Z
      with ((score t + Z.of_nat n ^ 2 * 100 - 2 ^ 63) + 1 * 2 ^ 64)%Z by lia.
    rewrite Z.mod_add by lia. rewrite Z.mod_small by lia. lia. }
  assert (Hplain_score : (score t + Z.of_nat n ^ 2 * 100 < 2 ^ 63)%Z ->
            wrap64 (score t + Z.of_nat n ^ 2 * 100) = (score t + Z.of_nat n ^ 2 * 100)%Z).
  { intros Hlt. apply wrap64_id. unfold int64 in *.
    assert (0 ≤ Z.of_nat n ^ 2 * 100)%Z by (apply Z.mul_nonneg_nonneg; [apply Z.pow_nonneg|]; lia).
    lia. }
  unfold clear_lines. munfold. rewrite Hn.
  destruct (decide (n = 0%nat)) as [Hz|Hnz].
  - exists t. split; [reflexivity|]. split; [split; [split|]; assumption|].
    split; [reflexivity|]. split; [reflexivity|].
    assert (Hall : filter (fun row => row_full row = false) (board t) = board t)
      by (apply filter_none_true; exact Hz).
    rewrite Hz. simpl. rewrite Hall. split; [reflexivity|].
    split; [rewrite <- Hall; exact Hkept|].
    rewrite !Z.add_0_r.
    split; [symmetry; apply wrap64_id; exact Hlines|].
    split; [symmetry; apply wrap64_id; exact Hscore|].
    split; [reflexivity|]. split; [reflexivity|].
    split; [unfold int64 in Hscore; lia|].
    split; [intros H; contradiction|].
    repeat (split; [reflexivity|]). reflexivity.
  - unfold np_full. cbn [fst snd].
    change (U1 " ") with " ".
    rewrite (np_vstack_same_width _ _ _ Hwidth).
    rewrite (as_int64_in _ Hlines), (as_int64_in _ Hscore).
    eexists. split; [reflexivity|].
    unfold board_ok, has_shape.
    cbn [set_level set_score set_lines_cleared set_board
         board board_width board_height lines_cleared score level
         current_piece next_piece current_x current_y].
    rewrite wrap64_square, wrap64_mul_l, !wrap64_add_r.
    split.
    { split; [|exact Hw]. split.
      - rewrite length_app, length_replicate.
        pose proof (length_filter_split row_full (board t)) as Hsplit.
        rewrite Hn in Hsplit. lia.
      - eapply Forall_impl; [exact Hwidth|]. intros row Hrow. simpl in Hrow. lia. }
    split; [reflexivity|]. split; [reflexivity|]. split; [reflexivity|].
    split.
    { apply Forall_app. split; [|exact Hkept].
      apply Forall_replicate. apply row_full_blank. lia. }
    split; [reflexivity|]. split; [reflexivity|].
    split; [exact Hplain_lines|]. split; [exact Hplain_score|].
    split; [exact Hwrap_score|].
    split; [intros _; apply int64_tenth, wrap64_int64|].
    repeat (split; [reflexivity|]). reflexivity.
Qed.

Lemma board_ok_tetris_full_row : board_ok tetris_full_row.
Proof.
  split; [|simpl; lia]. split; [reflexivity|].
  vm_compute. repeat constructor.
Defined.

Lemma tetris_full_row_lines : int64 (lines_cleared tetris_full_row).
Proof. unfold int64. simpl. lia. Defined.

Lemma tetris_full_row_score : int64 (score tetris_full_row).
Proof. unfold int64. simpl. lia. Defined.

Lemma clear_lines_removes_the_full_rows_witness :
  board_ok tetris_full_row ∧
  int64 (lines_cleared tetris_full_row) ∧ int64 (score tetris_full_row) ∧
  let n := length (filter (fun row => row_full row = true) (board tetris_full_row)) in
  ∃ t', clear_lines tetris_full_row = (Ok tt, t') ∧
        board_ok t' ∧
        board_width t' = board_width tetris_full_row ∧
        board_height t' = board_height tetris_full_row ∧
        board t' = replicate n (replicate (Z.to_nat (board_width tetris_full_row)) " ") ++
                   filter (fun row => row_full row = false) (board tetris_full_row) ∧
        Forall (fun row => row_full row = false) (board t') ∧
        lines_cleared t' = wrap64 (lines_cleared tetris_full_row + Z.of_nat n) ∧
        score t' = wrap64 (score tetris_full_row + Z.of_nat n ^ 2 * 100) ∧
        ((lines_cleared tetris_full_row + Z.of_nat n < 2 ^ 63)%Z ->
         lines_cleared t' = (lines_cleared tetris_full_row + Z.of_nat n)%Z) ∧
        ((score tetris_full_row + Z.of_nat n ^ 2 * 100 < 2 ^ 63)%Z ->
         score t' = (score tetris_full_row + Z.of_nat n ^ 2 * 100)%Z) ∧
        ((2 ^ 63 ≤ score tetris_full_row + Z.of_nat n ^ 2 * 100 < 2 ^ 63 + 2 ^ 64)%Z ->
         score t' = (score tetris_full_row + Z.of_nat n ^ 2 * 100 - 2 ^ 64)%Z) ∧
        (n ≠ 0%nat -> level t' = (lines_cleared t' / 10 + 1)%Z) ∧
        current_piece t' = current_piece tetris_full_row ∧
        next_piece t' = next_piece tetris_full_row ∧
        current_x t' = current_x tetris_full_row ∧
        current_y t' = current_y tetris_full_row.
Proof.
  split; [exact board_ok_tetris_full_row|].
  split; [exact tetris_full_row_lines|]. split; [exact tetris_full_row_score|].
  exact (clear_lines_removes_the_full_rows tetris_full_row board_ok_tetris_full_row
           tetris_full_row_lines tetris_full_row_score).
Defined.

(** One full row at a score of 0 gives 100 points, one line and level 1;
    at a score of [2 ** 63 - 50] the sum wraps around; the ninety-sixth
    line gives level 10 and the shortest drop interval. *)
Example clear_lines_scores :
  (let t' := (clear_lines tetris_full_row).2 in
   (clear_lines tetris_full_row).1 = Ok tt ∧
   score t' = 100%Z ∧ lines_cleared t' = 1%Z ∧ level t' = 1%Z ∧
   drop_interval t' = 1%float) ∧
  (let t' := (clear_lines (set_score (2 ^ 63 - 50) tetris_full_row)).2 in
   (clear_lines (set_score (2 ^ 63 - 50) tetris_full_row)).1 = Ok tt ∧
   score t' = (- 2 ^ 63 + 50)%Z) ∧
  (let t' := (clear_lines (set_lines_cleared 95 tetris_full_row)).2 in
   lines_cleared t' = 96%Z ∧ level t' = 10%Z ∧
   drop_interval t' = 0.1%float).
Proof. vm_compute. repeat split. Qed.

(** ** [draw_board] *)

Lemma ghost_loop_free t :
  collision t = (Ok false, t) -> ∀ fuel g, ghost_loop fuel g t = (Ok None, t).
Proof.
  intros Hfree. induction fuel as [|fuel IH]; intros g; [reflexivity|].
  simpl. unfold mbind, M_bind. rewrite Hfree. apply IH.
Qed.

Lemma ghost_loop_stuck t fuel g :
  collision t = (Ok true, t) -> ghost_loop (S fuel) g t = (Ok (Some g), t).
Proof. intros Hstuck. simpl. unfold mbind, M_bind. rewrite Hstuck. reflexivity. Qed.

Lemma draw_pixel_kept {G} (e : TerminalEngine G) x y char color :
  grid_ok e ->
  ∃ e', draw_pixel x y char color e = (Ok tt, e') ∧
        grid_ok e' ∧ subclass e' = subclass e.
Proof.
  intros (Hok & Hb & Hp). rewrite draw_pixel_as_drawPixel.
  destruct (decide (in_bounds e x y)) as [Hin|Hout].
  - destruct (drawPixel_in_eq e x y
      match color with
      | Some c => if decide (c = "") then char else c +:+ char +:+ ESC +:+ "[0m"
      | None => char
      end Hok Hin) as (row & Hrow & _ & ->).
    eexists. split; [reflexivity|]. split; [|reflexivity]. split; [|split].
    + apply shape_ok_set_buffer; [exact Hok|].
      apply has_shape_insert; [apply Hok|exact Hrow].
    + simpl. apply is_U1_insert; assumption.
    + exact Hp.
  - exists e. split; [apply drawPixel_out; exact Hout|].
    split; [|reflexivity]. split; [exact Hok|]. split; assumption.
Qed.

Lemma draw_cells_kept (e : TerminalEngine TetrisGame) :
  grid_ok e ->
  ∃ e', draw_cells e = (Ok tt, e') ∧ grid_ok e' ∧ subclass e' = subclass e.
Proof.
  intros Hok. unfold draw_cells. munfold.
  apply (for_preserves (fun e' => grid_ok e' ∧ subclass e' = subclass e));
    [|split; [exact Hok|reflexivity]].
  intros yrow e1 H1.
  apply (for_preserves (fun e' => grid_ok e' ∧ subclass e' = subclass e)); [|exact H1].
  intros xcell e2 [H2 Hs2].
  destruct (decide (xcell.2 ≠ " ")).
  - destruct (draw_pixel_kept e2 (Z.of_nat xcell.1 + 1) (Z.of_nat yrow.1 + 1)
                FULL_BLOCK (Some xcell.2) H2) as (e3 & -> & H3 & Hs3).
    exists e3. split; [reflexivity|]. split; [exact H3|congruence].
  - destruct (draw_pixel_kept e2 (Z.of_nat xcell.1 + 1) (Z.of_nat yrow.1 + 1)
                MIDDLE_DOT None H2) as (e3 & -> & H3 & Hs3).
    exists e3. split; [reflexivity|]. split; [exact H3|congruence].
Qed.

Lemma draw_piece_and_ghost_kept (e : TerminalEngine TetrisGame) s color ghost_y :
  grid_ok e ->
  ∃ e', draw_piece_and_ghost s color ghost_y e = (Ok tt, e') ∧
        grid_ok e' ∧ subclass e' = subclass e.
Proof.
  intros Hok. unfold draw_piece_and_ghost.
  apply (for_preserves (fun e' => grid_ok e' ∧ subclass e' = subclass e));
    [|split; [exact Hok|reflexivity]].
  intros yrow e1 H1.
  apply (for_preserves (fun e' => grid_ok e' ∧ subclass e' = subclass e)); [|exact H1].
  intros xcell e2 [H2 Hs2].
  destruct (decide (xcell.2 = 0%Z)).
  - exists e2. split; [reflexivity|]. split; assumption.
  - munfold.
    destruct (draw_pixel_kept e2
                (current_x (subclass e2) + Z.of_nat xcell.1 + 1)%Z
                (ghost_y + Z.of_nat yrow.1 + 1)%Z WHITE_SQUARE (Some color) H2)
      as (e3 & -> & H3 & Hs3).
    destruct (draw_pixel_kept e3
                (current_x (subclass e2) + Z.of_nat xcell.1 + 1)%Z
                (current_y (subclass e2) + Z.of_nat yrow.1 + 1)%Z FULL_BLOCK (Some color) H3)
      as (e4 & -> & H4 & Hs4).
    exists e4. split; [reflexivity|]. split; [exact H4|congruence].
Qed.

(** X20.  [draw_board] on an engine with well-formed grids: with a piece
    that does not collide its [while] loop never ends, whatever the fuel,
    since the test does not depend on the row the loop increments; with a
    piece that collides, or with no piece, it returns.  In each case the
    attributes of the game are left as they were. *)
Theorem draw_board_loops_with_a_free_piece (e : TerminalEngine TetrisGame) :
  grid_ok e ->
  (collision (subclass e) = (Ok false, subclass e) ->
   ∀ fuel, ∃ e', draw_board fuel e = (Ok None, e') ∧ subclass e' = subclass e) ∧
  (collision (subclass e) = (Ok true, subclass e) ->
   ∀ fuel, ∃ e', draw_board (S fuel) e = (Ok (Some tt), e') ∧
                 subclass e' = subclass e ∧ grid_ok e') ∧
  (current_piece (subclass e) = None ->
   ∀ fuel, ∃ e', draw_board fuel e = (Ok (Some tt), e') ∧
                 subclass e' = subclass e ∧ grid_ok e').
Proof.
  intros Hok.
  destruct (draw_cells_kept e Hok) as (e1 & Hcells & Hok1 & Hs1).
  assert (Hsub : ∀ e0 : TerminalEngine TetrisGame, set_subclass (subclass e0) e0 = e0)
    by (intros e0; destruct e0; reflexivity).
  split; [|split].
  - intros Hfree fuel. destruct (collision_has_piece _ _ Hfree) as [[s color] Hp].
    unfold draw_board. munfold. rewrite Hcells, Hs1, Hp.
    unfold on_subclass. rewrite Hs1, (ghost_loop_free _ Hfree).
    eexists. split; [reflexivity|]. reflexivity.
  - intros Hstuck fuel. destruct (collision_has_piece _ _ Hstuck) as [[s color] Hp].
    unfold draw_board. munfold. rewrite Hcells, Hs1, Hp.
    unfold on_subclass. rewrite Hs1, (ghost_loop_stuck _ _ _ Hstuck).
    rewrite <- Hs1, Hsub.
    destruct (draw_piece_and_ghost_kept e1 s color (current_y (subclass e1) - 1)%Z Hok1)
      as (e2 & -> & Hok2 & Hs2).
    exists e2. split; [reflexivity|]. split; [congruence|exact Hok2].
  - intros Hnone fuel. unfold draw_board. munfold. rewrite Hcells, Hs1, Hnone.
    exists e1. split; [reflexivity|]. split; [exact Hs1|exact Hok1].
Qed.

Lemma grid_ok_tetris_engine : grid_ok tetris_engine.
Proof. apply grid_ok_new_engine; lia. Defined.

Lemma draw_board_loops_with_a_free_piece_witness :
  grid_ok tetris_engine ∧
  (collision (subclass tetris_engine) = (Ok false, subclass tetris_engine) ->
   ∀ fuel, ∃ e', draw_board fuel tetris_engine = (Ok None, e') ∧
                 subclass e' = subclass tetris_engine) ∧
  (collision (subclass tetris_engine) = (Ok true, subclass tetris_engine) ->
   ∀ fuel, ∃ e', draw_board (S fuel) tetris_engine = (Ok (Some tt), e') ∧
                 subclass e' = subclass tetris_engine ∧ grid_ok e') ∧
  (current_piece (subclass tetris_engine) = None ->
   ∀ fuel, ∃ e', draw_board fuel tetris_engine = (Ok (Some tt), e') ∧
                 subclass e' = subclass tetris_engine ∧ grid_ok e').
Proof.
  split; [exact grid_ok_tetris_engine|].
  exact (draw_board_loops_with_a_free_piece tetris_engine grid_ok_tetris_engine).
Defined.

(** On the piece of the example the loop does not end within fifty
    rounds. *)
Example draw_board_tetris_engine : (draw_board 50 tetris_engine).1 = Ok None.
Proof. vm_compute. reflexivity. Qed.

(** ** [np.rot90] *)

Lemma is_array_row h w m a :
  is_array h w m -> (a < h)%nat -> length (nth a m []) = w.
Proof.
  intros [Hh Hrows] Ha. rewrite Forall_forall in Hrows. apply Hrows.
  apply list_elem_of_In, nth_In. lia.
Qed.

Lemma is_array_ext h w m1 m2 :
  is_array h w m1 -> is_array h w m2 ->
  (∀ a b, (a < h)%nat -> (b < w)%nat -> entry m1 a b = entry m2 a b) ->
  m1 = m2.
Proof.
  intros H1 H2 Hent. apply (nth_ext _ _ [] []).
  - destruct H1 as [-> _], H2 as [-> _]. reflexivity.
  - intros a Ha. pose proof H1 as [Hh1 _]. rewrite Hh1 in Ha.
    apply (nth_ext _ _ 0%Z 0%Z).
    + rewrite (is_array_row h w m1 a H1 Ha), (is_array_row h w m2 a H2 Ha). reflexivity.
    + intros b Hb. rewrite (is_array_row h w m1 a H1 Ha) in Hb.
      apply (Hent a b Ha Hb).
Qed.

Lemma rot90_rows h w m :
  is_array h w m -> (0 < h)%nat ->
  np_rot90_clockwise m =
  (fun j => rev ((fun row => nth j row 0%Z) <$> m)) <$> seq 0 w.
Proof.
  intros [Hh Hrows] Hpos. unfold np_rot90_clockwise.
  destruct m as [|row m]; [simpl in Hh; lia|].
  apply Forall_cons in Hrows as [-> _]. reflexivity.
Qed.

Lemma rot90_is_array h w m :
  is_array h w m -> (0 < h)%nat -> is_array w h (np_rot90_clockwise m).
Proof.
  intros Hm Hpos. rewrite (rot90_rows h w m Hm Hpos). destruct Hm as [Hh _]. split.
  - rewrite length_fmap, length_seq. reflexivity.
  - apply Forall_fmap, Forall_forall. intros j _. simpl.
    rewrite length_rev, length_fmap. exact Hh.
Qed.

Lemma rot90_entry h w m j i :
  is_array h w m -> (j < w)%nat -> (i < h)%nat ->
  entry (np_rot90_clockwise m) j i = entry m (h - 1 - i) j.
Proof.
  intros Hm Hj Hi. rewrite (rot90_rows h w m Hm) by lia.
  destruct Hm as [Hh _]. unfold entry.
  rewrite (nth_lookup _ j []), list_lookup_fmap, lookup_seq_lt by exact Hj. simpl.
  rewrite rev_nth by (rewrite length_fmap; lia).
  rewrite length_fmap, Hh.
  replace (h - S i)%nat with (h - 1 - i)%nat by lia.
  rewrite (nth_lookup _ (h - 1 - i) 0%Z), list_lookup_fmap.
  rewrite (nth_lookup m (h - 1 - i) []).
  destruct (m !! (h - 1 - i)%nat) as [row|] eqn:Hrow; [reflexivity|].
  apply lookup_ge_None in Hrow. lia.
Qed.

(** X21.  [np.rot90(m, k=-1)] on an array of [h > 0] rows and [w > 0]
    columns gives an array of [w] rows and [h] columns whose entry at
    [(j, i)] is the entry of [m] at [(h - 1 - i, j)], and four of these
    rotations give [m] back. *)
Theorem rot90_four_times (h w : nat) (m : shape) :
  is_array h w m -> (0 < h)%nat -> (0 < w)%nat ->
  is_array w h (np_rot90_clockwise m) ∧
  (∀ j i, (j < w)%nat -> (i < h)%nat ->
          entry (np_rot90_clockwise m) j i = entry m (h - 1 - i) j) ∧
  np_rot90_clockwise (np_rot90_clockwise (np_rot90_clockwise (np_rot90_clockwise m))) = m.
Proof.
  intros Hm Hh Hw.
  pose proof (rot90_is_array h w m Hm Hh) as H1.
  pose proof (rot90_is_array w h _ H1 Hw) as H2.
  pose proof (rot90_is_array h w _ H2 Hh) as H3.
  pose proof (rot90_is_array w h _ H3 Hw) as H4.
  split; [exact H1|]. split; [intros j i; apply rot90_entry; exact Hm|].
  apply (is_array_ext h w); [exact H4|exact Hm|]. intros a b Ha Hb.
  rewrite (rot90_entry w h _ a b H3) by lia.
  rewrite (rot90_entry h w _ (w - 1 - b) a H2) by lia.
  rewrite (rot90_entry w h _ (h - 1 - a) (w - 1 - b) H1) by lia.
  rewrite (rot90_entry h w _ (w - 1 - (w - 1 - b)) (h - 1 - a) Hm) by lia.
  f_equal; lia.
Qed.

Lemma is_array_T : is_array 2 3 [[1; 1; 1]; [0; 1; 0]]%Z.
Proof. split; [reflexivity|repeat constructor]. Defined.

Lemma rot90_four_times_witness :
  is_array 2 3 [[1; 1; 1]; [0; 1; 0]]%Z ∧ (0 < 2)%nat ∧ (0 < 3)%nat ∧
  is_array 3 2 (np_rot90_clockwise [[1; 1; 1]; [0; 1; 0]]%Z) ∧
  (∀ j i, (j < 3)%nat -> (i < 2)%nat ->
          entry (np_rot90_clockwise [[1; 1; 1]; [0; 1; 0]]%Z) j i
          = entry [[1; 1; 1]; [0; 1; 0]]%Z (2 - 1 - i) j) ∧
  np_rot90_clockwise (np_rot90_clockwise (np_rot90_clockwise
    (np_rot90_clockwise [[1; 1; 1]; [0; 1; 0]]%Z))) = [[1; 1; 1]; [0; 1; 0]]%Z.
Proof.
  split; [exact is_array_T|]. split; [lia|]. split; [lia|].
  apply (rot90_four_times 2 3 [[1; 1; 1]; [0; 1; 0]]%Z is_array_T); lia.
Defined.
